(** * context-reference-count: the decision-and-scoring engine

    A shallow embedding of the semantic tool-call cache:
    - [Scoring]   : [core/utils.py], the weighted score;
    - [PyDict], [PySort] : Python's insertion-ordered [dict] with string
                    keys and its stable [sorted];
    - [Utils]     : [core/utils.py], the cache id and the serialization;
    - [Config]    : [core/config.py], [CacheConfig] and its validation;
    - [Models]    : [core/models.py], [CacheEntry] and [CacheHit];
    - [Memory]    : [core/storage/memory.py], [MemoryStorageBackend];
    - [Cache]     : [core/cache.py], [ToolCache];
    - [Wrapper]   : [interceptor/wrapper.py], [ToolInterceptor.decide];
    - [Trace]     : histories of calls on a cache;
    - the [..Facts] modules: the properties; [Doubles]: concrete runs.

    Conventions.  Python [int] is [Z].  Python [float] is idealised: the
    thresholds, distances and similarities, on which the code only adds,
    subtracts and compares, are exact rationals [Q]; the score, which goes
    through [math.log] and [math.exp], is a real number [R].  A [datetime] is
    the number of microseconds since the epoch, in [Z].  [datetime.now()] and
    [uuid4()] are read from an explicit environment, one instant per call,
    which also says whether the durable write and the vector-index delete
    fail during the call; the other collaborator calls are taken to
    return. *)

From Stdlib Require Import ZArith QArith Qabs Reals Qreals Lra Lia.
From Stdlib Require Import List String Bool Permutation.
Import ListNotations.

Set Implicit Arguments.

(** A [datetime], in microseconds. *)
Definition datetime := Z.
Bind Scope Z_scope with datetime.

(* ================================================================== *)
(** * core/utils.py : the scoring function *)

Module Scoring.

Local Open Scope R_scope.

(** [timedelta.total_seconds()] of a difference of two datetimes. *)
Definition total_seconds (delta : Z) : R := IZR delta / 1000000.

(** [math.log]: a [ValueError] (here [None]) outside the domain. *)
Definition math_log (x : R) : option R :=
  if Rlt_dec 0 x then Some (ln x) else None.

(** [compute_recency_factor(last_accessed, time_decay_lambda)], with the
    instant read by [datetime.now()] as first argument. *)
Definition compute_recency_factor
    (now last_accessed : datetime) (time_decay_lambda : R) : R :=
  let delta_t_hours := total_seconds (now - last_accessed) / 3600 in
  exp (- time_decay_lambda * delta_t_hours).

(** The weighted reference count, as both [compute_weighted_score] and
    [normalize_reference_count] compute it. *)
Definition weighted_count
    (reuse_count provide_context_count : Z) (reuse_context_factor : R) : R :=
  reuse_context_factor * IZR reuse_count
  + (1 - reuse_context_factor) * IZR provide_context_count.

(** [compute_weighted_score]: the source reads the clock once, computes the
    recency factor, then the weighted count, then the logarithm (which is
    where it can raise) and the capped sum. *)
Definition compute_weighted_score
    (now : datetime) (similarity : R)
    (reuse_count provide_context_count : Z) (last_accessed : datetime)
    (reuse_context_factor time_decay_lambda : R) : option R :=
  let delta_t := total_seconds (now - last_accessed) / 3600 in
  let recency_factor := exp (- time_decay_lambda * delta_t) in
  let weighted_count :=
    reuse_context_factor * IZR reuse_count
    + (1 - reuse_context_factor) * IZR provide_context_count in
  match math_log (weighted_count + 1) with
  | None => None
  | Some l =>
      let normalized_ref := l / ln 100 in
      let normalized_ref := Rmin normalized_ref 1 in
      Some (similarity + normalized_ref * recency_factor)
  end.

(** The value the function returns when the logarithm is defined. *)
Definition score_value
    (now : datetime) (similarity : R)
    (reuse_count provide_context_count : Z) (last_accessed : datetime)
    (reuse_context_factor time_decay_lambda : R) : R :=
  similarity
  + Rmin (ln (weighted_count reuse_count provide_context_count
                reuse_context_factor + 1) / ln 100) 1
    * compute_recency_factor now last_accessed time_decay_lambda.

Lemma math_log_Some x : 0 < x -> math_log x = Some (ln x).
Proof.
  intros Hx. unfold math_log. destruct (Rlt_dec 0 x); [reflexivity|contradiction].
Qed.

Lemma math_log_None x : x <= 0 -> math_log x = None.
Proof.
  intros Hx. unfold math_log. destruct (Rlt_dec 0 x); [lra|reflexivity].
Qed.

Lemma compute_weighted_score_Some now sim r c last f lam :
  0 < weighted_count r c f + 1 ->
  compute_weighted_score now sim r c last f lam
  = Some (score_value now sim r c last f lam).
Proof.
  intros Hw. unfold compute_weighted_score, score_value,
    compute_recency_factor, weighted_count in *.
  cbv zeta. rewrite math_log_Some by exact Hw. reflexivity.
Qed.

Lemma compute_weighted_score_None now sim r c last f lam :
  weighted_count r c f + 1 <= 0 ->
  compute_weighted_score now sim r c last f lam = None.
Proof.
  intros Hw. unfold compute_weighted_score, weighted_count in *.
  cbv zeta. rewrite math_log_None by exact Hw. reflexivity.
Qed.

Lemma weighted_count_nonneg r c f :
  (0 <= r)%Z -> (0 <= c)%Z -> 0 <= f <= 1 -> 0 <= weighted_count r c f.
Proof.
  intros Hr Hc [Hf0 Hf1]. unfold weighted_count.
  apply IZR_le in Hr. apply IZR_le in Hc.
  apply Rplus_le_le_0_compat; apply Rmult_le_pos; lra.
Qed.

Lemma weighted_count_mono r1 r2 c f :
  0 <= f -> (r1 <= r2)%Z -> weighted_count r1 c f <= weighted_count r2 c f.
Proof.
  intros Hf Hr. unfold weighted_count. apply IZR_le in Hr.
  apply Rplus_le_compat_r. apply Rmult_le_compat_l; assumption.
Qed.

Lemma ln_100_pos : 0 < ln 100.
Proof. rewrite <- ln_1. apply ln_increasing; lra. Qed.

Lemma ln_le_mono x y : 0 < x -> x <= y -> ln x <= ln y.
Proof.
  intros Hx [Hlt | Heq].
  - left. apply ln_increasing; assumption.
  - subst. right. reflexivity.
Qed.

Lemma ln_nonneg x : 1 <= x -> 0 <= ln x.
Proof. intros Hx. rewrite <- ln_1. apply ln_le_mono; lra. Qed.

Lemma normalized_ref_nonneg w : 0 <= w -> 0 <= Rmin (ln (w + 1) / ln 100) 1.
Proof.
  intros Hw. apply Rmin_glb; [|lra].
  apply Rmult_le_pos.
  - apply ln_nonneg. lra.
  - left. apply Rinv_0_lt_compat, ln_100_pos.
Qed.

Lemma normalized_ref_mono w1 w2 :
  0 < w1 + 1 -> w1 <= w2 ->
  Rmin (ln (w1 + 1) / ln 100) 1 <= Rmin (ln (w2 + 1) / ln 100) 1.
Proof.
  intros H1 H12. apply Rle_min_compat_r.
  apply Rmult_le_compat_r.
  - left. apply Rinv_0_lt_compat, ln_100_pos.
  - apply ln_le_mono; lra.
Qed.

Lemma recency_pos now last lam : 0 < compute_recency_factor now last lam.
Proof. apply exp_pos. Qed.



End Scoring.

(* ================================================================== *)
(** * Python containers *)

(** Python's [dict] with string keys: an association list in insertion
    order.  Assigning to a key that is present keeps its position; a new key
    goes to the end; [pop] removes the key. *)
Module PyDict.

Section Dict.
Variable V : Type.

Definition t := list (string * V).

Fixpoint get (d : t) (k : string) : option V :=
  match d with
  | [] => None
  | (k', v) :: d' => if String.eqb k k' then Some v else get d' k
  end.

Fixpoint set (d : t) (k : string) (v : V) : t :=
  match d with
  | [] => [(k, v)]
  | (k', v') :: d' =>
      if String.eqb k k' then (k', v) :: d' else (k', v') :: set d' k v
  end.

Definition pop (d : t) (k : string) : t :=
  filter (fun kv => negb (String.eqb k (fst kv))) d.

Definition contains (d : t) (k : string) : bool :=
  match get d k with Some _ => true | None => false end.

Definition keys (d : t) : list string := map fst d.

End Dict.

End PyDict.

(** [sorted(items, key=...)]: a stable sort, here by insertion.  [leb x y]
    says that [x] may stay in front of [y]; with [leb] the order [<=] on the
    keys, equal keys keep their order, as in Python. *)
Module PySort.

Section Sort.
Variable A : Type.
Variable leb : A -> A -> bool.

Fixpoint insert (x : A) (l : list A) : list A :=
  match l with
  | [] => [x]
  | y :: l' => if leb x y then x :: y :: l' else y :: insert x l'
  end.

Fixpoint sort (l : list A) : list A :=
  match l with
  | [] => []
  | x :: l' => insert x (sort l')
  end.

End Sort.

End PySort.

(** Comparison of two scores. *)
Definition Rleb (a b : R) : bool := if Rle_dec a b then true else false.

(** [a < b] on the rationals standing for floats. *)
Definition Qltb (a b : Q) : bool := negb (Qle_bool b a).

(* ================================================================== *)
(** * The external collaborators *)

(** One record of the vector index: id, embedding, document and the
    [tool_name] of its metadata. *)
Record VectorRecord (E : Type) : Type := {
  vid : string;
  vembedding : E;
  vdocument : string;
  vtool_name : string
}.

(** What the engine takes from outside the repository: the argument and
    payload types, [json.dumps(args, sort_keys=True, default=str)],
    [hashlib.sha256(...).hexdigest()], the embedding function, and the
    nearest-neighbour query of the vector index, which returns ids with
    their distances.  The index returns every stored id at most once. *)
Class Collaborators : Type := {
  Args : Type;
  Output : Type;
  Embedding : Type;
  json_dumps : Args -> string;
  sha256_hexdigest : string -> string;
  embed : string -> Embedding;
  vquery : list (VectorRecord Embedding) -> Embedding -> Z -> string
           -> list (string * Q);
  vquery_NoDup : forall idx e k tool,
    NoDup (map (@vid Embedding) idx) -> NoDup (map fst (vquery idx e k tool))
}.

(** What a call reads from its environment: the clock, the next uuid, and
    whether the durable write and the vector-index delete fail during it. *)
Record Env : Type := {
  now : datetime;
  uuid4 : string;
  storage_set_raises : bool;
  vector_delete_raises : bool
}.

(** Exceptions that cross the engine. *)
Inductive exn : Type :=
| StorageError
| VectorStoreError
| ValueError.

Inductive result (A : Type) : Type :=
| Ok (a : A)
| Raise (e : exn).

Arguments Ok {A} a.
Arguments Raise {A} e.

(* ================================================================== *)
(** * core/utils.py : identifiers *)

Module Utils.

Section WithCollaborators.
Context {collab : Collaborators}.

Definition generate_cache_id (tool_name input_text : string) : string :=
  let content := (tool_name ++ ":" ++ input_text)%string in
  String.substring 0 16 (sha256_hexdigest content).

Definition serialize_args (args : Args) : string := json_dumps args.

End WithCollaborators.

End Utils.

(* ================================================================== *)
(** * core/config.py : CacheConfig *)

Module Config.

Inductive EvictionPolicy : Type := score | lru | lfu | fifo.

Record CacheConfig : Type := {
  similarity_threshold : Q;
  reuse_threshold : Q;
  max_cache_size : Z;
  reuse_context_factor : Q;
  time_decay_lambda : Q;
  top_k : Z;
  eviction_policy : EvictionPolicy
}.

(** The field constraints and [validate_thresholds]. *)
Definition validate (c : CacheConfig) : bool :=
  Qle_bool 0 (similarity_threshold c) && Qle_bool (similarity_threshold c) 1
  && Qle_bool 0 (reuse_threshold c) && Qle_bool (reuse_threshold c) 1
  && (0 <? max_cache_size c)%Z
  && Qle_bool 0 (reuse_context_factor c) && Qle_bool (reuse_context_factor c) 1
  && Qle_bool 0 (time_decay_lambda c)
  && (0 <? top_k c)%Z
  && Qle_bool (similarity_threshold c) (reuse_threshold c).

(** [CacheConfig()] with the defaults of the fields. *)
Definition default : CacheConfig := {|
  similarity_threshold := 75 # 100;
  reuse_threshold := 95 # 100;
  max_cache_size := 1000;
  reuse_context_factor := 6 # 10;
  time_decay_lambda := 1 # 100;
  top_k := 5;
  eviction_policy := score
|}.

End Config.

(* ================================================================== *)
(** * core/models.py : CacheEntry and CacheHit *)

Module Models.

Section WithCollaborators.
Context {collab : Collaborators}.

Record CacheEntry : Type := {
  id : string;
  tool_name : string;
  input_text : string;
  input_args : Args;
  output : Output;
  uuid : string;
  embedding : option Embedding;
  reuse_count : Z;
  provide_context_count : Z;
  created_at : datetime;
  last_accessed_at : datetime;
  success : bool
}.

Definition total_reference_count (e : CacheEntry) : Z :=
  reuse_count e + provide_context_count e.

(** The dict that [to_dict] writes has exactly the fields of the entry, and
    [from_dict] reads them back (a timestamp is stored as an ISO string or a
    [datetime], both denote the same instant): the stored form is the record
    itself. *)
Definition EntryDict : Type := CacheEntry.
Definition to_dict (e : CacheEntry) : EntryDict := e.
Definition from_dict (d : EntryDict) : CacheEntry := d.

Record CacheHit : Type := {
  entry : CacheEntry;
  similarity : Q;
  weighted_score : R
}.

Definition should_reuse (h : CacheHit) : bool :=
  Qle_bool (95 # 100) (similarity h).

(** Field updates, as the assignments of the source. *)
Definition with_last_accessed_at (t : datetime) (e : CacheEntry) : CacheEntry :=
  {| id := id e; tool_name := tool_name e; input_text := input_text e;
     input_args := input_args e; output := output e; uuid := uuid e;
     embedding := embedding e; reuse_count := reuse_count e;
     provide_context_count := provide_context_count e;
     created_at := created_at e; last_accessed_at := t;
     success := success e |}.

Definition with_reuse_count (n : Z) (e : CacheEntry) : CacheEntry :=
  {| id := id e; tool_name := tool_name e; input_text := input_text e;
     input_args := input_args e; output := output e; uuid := uuid e;
     embedding := embedding e; reuse_count := n;
     provide_context_count := provide_context_count e;
     created_at := created_at e; last_accessed_at := last_accessed_at e;
     success := success e |}.

Definition with_provide_context_count (n : Z) (e : CacheEntry) : CacheEntry :=
  {| id := id e; tool_name := tool_name e; input_text := input_text e;
     input_args := input_args e; output := output e; uuid := uuid e;
     embedding := embedding e; reuse_count := reuse_count e;
     provide_context_count := n;
     created_at := created_at e; last_accessed_at := last_accessed_at e;
     success := success e |}.

Definition with_output (o : Output) (ok : bool) (e : CacheEntry) : CacheEntry :=
  {| id := id e; tool_name := tool_name e; input_text := input_text e;
     input_args := input_args e; output := o; uuid := uuid e;
     embedding := embedding e; reuse_count := reuse_count e;
     provide_context_count := provide_context_count e;
     created_at := created_at e; last_accessed_at := last_accessed_at e;
     success := ok |}.

End WithCollaborators.

End Models.

(* ================================================================== *)
(** * core/storage/memory.py : MemoryStorageBackend *)

Module Memory.

Section WithCollaborators.
Context {collab : Collaborators}.

Import Models.

Record MemoryStorageBackend : Type := {
  _data : PyDict.t EntryDict;
  _scores : PyDict.t R
}.

(** A method of the backend: it answers and leaves the backend in a new
    state. *)
Definition SM (A : Type) : Type :=
  MemoryStorageBackend -> A * MemoryStorageBackend.

(** [MemoryStorageBackend()] *)
Definition init : MemoryStorageBackend := {| _data := []; _scores := [] |}.

Definition get (key : string) : SM (option EntryDict) :=
  fun s => (PyDict.get (_data s) key, s).

Definition set (key : string) (value : EntryDict) (sc : R) : SM unit :=
  fun s => (tt, {| _data := PyDict.set (_data s) key value;
                   _scores := PyDict.set (_scores s) key sc |}).

Definition delete (key : string) : SM bool :=
  fun s => (PyDict.contains (_data s) key,
            {| _data := PyDict.pop (_data s) key;
               _scores := PyDict.pop (_scores s) key |}).

Definition exists_ (key : string) : SM bool :=
  fun s => (PyDict.contains (_data s) key, s).

Definition keys : SM (list string) :=
  fun s => (PyDict.keys (_data s), s).

Definition clear : SM unit :=
  fun _ => (tt, {| _data := []; _scores := [] |}).

Definition size : SM nat :=
  fun s => (List.length (_data s), s).

Definition update_score (key : string) (sc : R) : SM bool :=
  fun s =>
    if negb (PyDict.contains (_data s) key) then (false, s)
    else (true, {| _data := _data s;
                   _scores := PyDict.set (_scores s) key sc |}).

Definition get_score (key : string) : SM (option R) :=
  fun s => (PyDict.get (_scores s) key, s).

(** The three methods below assign into the dict held by [_data], which
    keeps the key's position. *)
Definition update_access_time (t : datetime) (key : string) : SM bool :=
  fun s =>
    match PyDict.get (_data s) key with
    | None => (false, s)
    | Some entry =>
        (true, {| _data := PyDict.set (_data s) key
                             (with_last_accessed_at t entry);
                  _scores := _scores s |})
    end.

Definition increment_reuse (t : datetime) (key : string) : SM bool :=
  fun s =>
    match PyDict.get (_data s) key with
    | None => (false, s)
    | Some entry =>
        (true, {| _data := PyDict.set (_data s) key
                             (with_last_accessed_at t
                                (with_reuse_count (reuse_count entry + 1) entry));
                  _scores := _scores s |})
    end.

Definition increment_context (t : datetime) (key : string) : SM bool :=
  fun s =>
    match PyDict.get (_data s) key with
    | None => (false, s)
    | Some entry =>
        (true, {| _data := PyDict.set (_data s) key
                             (with_last_accessed_at t
                                (with_provide_context_count
                                   (provide_context_count entry + 1) entry));
                  _scores := _scores s |})
    end.

Definition decrement_reference (key : string) : SM bool :=
  fun s =>
    match PyDict.get (_data s) key with
    | None => (false, s)
    | Some entry =>
        let reuse := reuse_count entry in
        let context := provide_context_count entry in
        if (0 <? reuse)%Z then
          (true, {| _data := PyDict.set (_data s) key
                               (with_reuse_count (reuse - 1) entry);
                    _scores := _scores s |})
        else if (0 <? context)%Z then
          (true, {| _data := PyDict.set (_data s) key
                               (with_provide_context_count (context - 1) entry);
                    _scores := _scores s |})
        else (true, s)
    end.

(** The ranking queries; [n] is the positive number of keys asked for, so
    that [items[:n]] is the first [n] items. *)
Definition get_bottom_by_score (n : nat) : SM (list string) :=
  fun s =>
    let sorted_items :=
      PySort.sort (fun x y => Rleb (snd x) (snd y)) (_scores s) in
    (map fst (firstn n sorted_items), s).

Definition get_oldest_by_access (n : nat) : SM (list string) :=
  fun s =>
    let items := map (fun kv => (fst kv, last_accessed_at (snd kv))) (_data s) in
    let items := PySort.sort (fun x y => (snd x <=? snd y)%Z) items in
    (map fst (firstn n items), s).

Definition get_least_used (n : nat) : SM (list string) :=
  fun s =>
    let items :=
      map (fun kv => (fst kv,
                      (reuse_count (snd kv) + provide_context_count (snd kv))%Z))
          (_data s) in
    let items := PySort.sort (fun x y => (snd x <=? snd y)%Z) items in
    (map fst (firstn n items), s).

Definition get_oldest_by_creation (n : nat) : SM (list string) :=
  fun s =>
    let items := map (fun kv => (fst kv, created_at (snd kv))) (_data s) in
    let items := PySort.sort (fun x y => (snd x <=? snd y)%Z) items in
    (map fst (firstn n items), s).

End WithCollaborators.

End Memory.

(* ================================================================== *)
(** * core/cache.py : ToolCache *)

Module Cache.

Section WithCollaborators.
Context {collab : Collaborators}.

Import Models Config.

(** The two backing stores of a cache. *)
Record ToolCache : Type := {
  _storage : Memory.MemoryStorageBackend;
  _vector_store : list (VectorRecord Embedding)
}.

(** A method of the cache: it returns or raises, and leaves the stores in a
    new state either way. *)
Definition M (A : Type) : Type := ToolCache -> result A * ToolCache.

Definition ret {A} (a : A) : M A := fun c => (Ok a, c).

Definition raise {A} (e : exn) : M A := fun c => (Raise e, c).

Definition bind {A B} (m : M A) (k : A -> M B) : M B :=
  fun c =>
    match m c with
    | (Ok a, c') => k a c'
    | (Raise e, c') => (Raise e, c')
    end.

(** [try: m except Exception: handler] *)
Definition try_except {A} (m : M A) (handler : exn -> M A) : M A :=
  fun c =>
    match m c with
    | (Ok a, c') => (Ok a, c')
    | (Raise e, c') => handler e c'
    end.

Notation "x <- m ;; k" := (bind m (fun x => k))
  (at level 61, m at next level, right associativity).
Notation "m ;;; k" := (bind m (fun _ => k))
  (at level 61, right associativity).

Fixpoint for_each {A} (l : list A) (body : A -> M unit) : M unit :=
  match l with
  | [] => ret tt
  | x :: l' => body x ;;; for_each l' body
  end.

(** A call of a method of [self._storage]. *)
Definition storage_call {A} (f : Memory.SM A) : M A :=
  fun c =>
    let (a, s') := f (_storage c) in
    (Ok a, {| _storage := s'; _vector_store := _vector_store c |}).

(** [self._storage.set(...)] where the write can fail: it raises before
    anything is written. *)
Definition storage_set (env : Env) (key : string) (value : EntryDict) (sc : R)
  : M unit :=
  if storage_set_raises env then raise StorageError
  else storage_call (Memory.set key value sc).

(** The vector index: [add] ignores an id that is present, [delete] removes
    the ids, and can fail without removing any. *)
Definition vector_add (i : string) (e : Embedding) (doc tool : string)
  : M unit :=
  fun c =>
    let present := existsb (fun r => String.eqb i (vid r)) (_vector_store c) in
    (Ok tt,
     {| _storage := _storage c;
        _vector_store :=
          if present then _vector_store c
          else _vector_store c
               ++ [{| vid := i; vembedding := e; vdocument := doc;
                      vtool_name := tool |}] |}).

Definition vector_delete (env : Env) (ids : list string) : M unit :=
  if vector_delete_raises env then raise VectorStoreError
  else fun c =>
    (Ok tt,
     {| _storage := _storage c;
        _vector_store :=
          filter (fun r => negb (existsb (String.eqb (vid r)) ids))
                 (_vector_store c) |}).

Definition vector_search (e : Embedding) (k : Z) (tool : string)
  : M (list (string * Q)) :=
  fun c => (Ok (vquery (_vector_store c) e k tool), c).

Definition vector_clear : M unit :=
  fun c => (Ok tt, {| _storage := _storage c; _vector_store := [] |}).

(** [ToolCache(config, embedding_func, storage, vector_store)] on fresh
    stores. *)
Definition init : ToolCache :=
  {| _storage := Memory.init; _vector_store := [] |}.

Definition _compute_entry_score
    (cfg : CacheConfig) (env : Env) (e : CacheEntry) (sim : Q) : M R :=
  match Scoring.compute_weighted_score (now env) (Q2R sim)
          (reuse_count e) (provide_context_count e) (last_accessed_at e)
          (Q2R (reuse_context_factor cfg)) (Q2R (time_decay_lambda cfg)) with
  | Some s => ret s
  | None => raise ValueError
  end.

(** The loop of [search] over [results["ids"][0]]. *)
Fixpoint search_loop (cfg : CacheConfig) (env : Env)
    (results : list (string * Q)) (hits : list CacheHit) : M (list CacheHit) :=
  match results with
  | [] => ret hits
  | (entry_id, distance) :: rest =>
      entry_data <- storage_call (Memory.get entry_id) ;;
      match entry_data with
      | None =>
          try_except
            (present <- storage_call (Memory.exists_ entry_id) ;;
             if negb present then vector_delete env [entry_id] else ret tt)
            (fun _ => ret tt) ;;;
          search_loop cfg env rest hits
      | Some d =>
          let e := from_dict d in
          let sim := (1 - distance)%Q in
          if Qltb sim (similarity_threshold cfg) then
            search_loop cfg env rest hits
          else
            ws <- _compute_entry_score cfg env e sim ;;
            search_loop cfg env rest
              (hits ++ [{| entry := e; similarity := sim;
                           weighted_score := ws |}])
      end
  end.

(** [hits.sort(key=lambda h: h.weighted_score, reverse=True)] *)
Definition sort_hits (hits : list CacheHit) : list CacheHit :=
  PySort.sort (fun x y => Rleb (weighted_score y) (weighted_score x)) hits.

Definition search (cfg : CacheConfig) (env : Env)
    (tool : string) (args : Args) (top_k' : option Z) : M (list CacheHit) :=
  let text := Utils.serialize_args args in
  let emb := embed text in
  let k := match top_k' with
           | Some k' => if (k' =? 0)%Z then top_k cfg else k'
           | None => top_k cfg
           end in
  results <- vector_search emb k tool ;;
  match results with
  | [] => ret []
  | _ =>
      hits <- search_loop cfg env results [] ;;
      ret (sort_hits hits)
  end.

Definition _touch_entry (cfg : CacheConfig) (env : Env) (entry_id : string)
  : M unit :=
  updated <- storage_call (Memory.update_access_time (now env) entry_id) ;;
  if negb updated then ret tt
  else
    entry_data <- storage_call (Memory.get entry_id) ;;
    match entry_data with
    | None => ret tt
    | Some d =>
        sc <- _compute_entry_score cfg env (from_dict d) 1 ;;
        storage_call (Memory.update_score entry_id sc) ;;;
        ret tt
    end.

Definition get_best_match (cfg : CacheConfig) (env : Env)
    (tool : string) (args : Args) : M (option CacheHit) :=
  hits <- search cfg env tool args (Some 1%Z) ;;
  match hits with
  | h :: _ =>
      if Qle_bool (similarity_threshold cfg) (similarity h) then
        _touch_entry cfg env (id (entry h)) ;;;
        ret (Some h)
      else ret None
  | [] => ret None
  end.

Definition _evict_entry (env : Env) (entry_id : string) : M unit :=
  present <- storage_call (Memory.exists_ entry_id) ;;
  if present then
    storage_call (Memory.delete entry_id) ;;;
    vector_delete env [entry_id]
  else ret tt.

Definition _maybe_evict (cfg : CacheConfig) (env : Env) : M unit :=
  n <- storage_call Memory.size ;;
  if (Z.of_nat n <=? max_cache_size cfg)%Z then ret tt
  else
    n' <- storage_call Memory.size ;;
    let num_to_evict := Z.to_nat (Z.of_nat n' - max_cache_size cfg) in
    evict_keys <-
      match eviction_policy cfg with
      | score => storage_call (Memory.get_bottom_by_score num_to_evict)
      | lru => storage_call (Memory.get_oldest_by_access num_to_evict)
      | lfu => storage_call (Memory.get_least_used num_to_evict)
      | fifo => storage_call (Memory.get_oldest_by_creation num_to_evict)
      end ;;
    for_each evict_keys (_evict_entry env).

Definition save (cfg : CacheConfig) (env : Env)
    (tool : string) (args : Args) (out : Output) (ok : bool) : M CacheEntry :=
  let text := Utils.serialize_args args in
  let entry_id := Utils.generate_cache_id tool text in
  existing <- storage_call (Memory.get entry_id) ;;
  match existing with
  | Some d =>
      let e := with_last_accessed_at (now env)
                 (with_output out ok (from_dict d)) in
      sc <- _compute_entry_score cfg env e 1 ;;
      storage_set env entry_id (to_dict e) sc ;;;
      ret e
  | None =>
      let emb := embed text in
      let e := {| id := entry_id; tool_name := tool; input_text := text;
                  input_args := args; output := out; uuid := uuid4 env;
                  embedding := Some emb; reuse_count := 0;
                  provide_context_count := 0; created_at := now env;
                  last_accessed_at := now env; success := ok |} in
      sc <- _compute_entry_score cfg env e 1 ;;
      vector_add entry_id emb text tool ;;;
      try_except
        (storage_set env entry_id (to_dict e) sc)
        (fun err =>
           try_except (vector_delete env [entry_id]) (fun _ => ret tt) ;;;
           raise err) ;;;
      _maybe_evict cfg env ;;;
      ret e
  end.

Definition increment_reuse (cfg : CacheConfig) (env : Env) (entry_id : string)
  : M bool :=
  ok <- storage_call (Memory.increment_reuse (now env) entry_id) ;;
  (if ok then
     entry_data <- storage_call (Memory.get entry_id) ;;
     match entry_data with
     | Some d =>
         sc <- _compute_entry_score cfg env (from_dict d) 1 ;;
         storage_call (Memory.update_score entry_id sc) ;;;
         ret tt
     | None => ret tt
     end
   else ret tt) ;;;
  ret ok.

Definition increment_context (cfg : CacheConfig) (env : Env) (entry_id : string)
  : M bool :=
  ok <- storage_call (Memory.increment_context (now env) entry_id) ;;
  (if ok then
     entry_data <- storage_call (Memory.get entry_id) ;;
     match entry_data with
     | Some d =>
         sc <- _compute_entry_score cfg env (from_dict d) 1 ;;
         storage_call (Memory.update_score entry_id sc) ;;;
         ret tt
     | None => ret tt
     end
   else ret tt) ;;;
  ret ok.

Definition increment_reference (cfg : CacheConfig) (env : Env)
    (entry_id : string) : M bool :=
  increment_reuse cfg env entry_id.

Definition clear : M unit :=
  storage_call Memory.clear ;;;
  vector_clear.

(** A value of the dict that [stats] returns. *)
Inductive StatValue : Type :=
| PyInt (z : Z)
| PyFloat (q : Q).

(** The loop of [stats] over the keys, on [(total_reuse, total_context,
    max_refs)]. *)
Fixpoint stats_loop (entries : list string) (acc : Z * Z * Z) : M (Z * Z * Z) :=
  match entries with
  | [] => ret acc
  | key :: rest =>
      data <- storage_call (Memory.get key) ;;
      match data with
      | Some d =>
          let '(total_reuse, total_context, max_refs) := acc in
          let reuse := reuse_count d in
          let context := provide_context_count d in
          stats_loop rest
            ((total_reuse + reuse)%Z, (total_context + context)%Z,
             Z.max max_refs (reuse + context))
      | None => stats_loop rest acc
      end
  end.

Definition stats : M (PyDict.t StatValue) :=
  entries <- storage_call Memory.keys ;;
  match entries with
  | [] =>
      ret [ ("total_entries"%string, PyInt 0);
            ("total_reuse_count"%string, PyInt 0);
            ("total_context_count"%string, PyInt 0);
            ("total_references"%string, PyInt 0);
            ("avg_reference_count"%string, PyFloat 0) ]
  | _ =>
      acc <- stats_loop entries (0, 0, 0)%Z ;;
      let '(total_reuse, total_context, max_refs) := acc in
      let total_refs := (total_reuse + total_context)%Z in
      let len := Z.of_nat (List.length entries) in
      ret [ ("total_entries"%string, PyInt len);
            ("total_reuse_count"%string, PyInt total_reuse);
            ("total_context_count"%string, PyInt total_context);
            ("total_references"%string, PyInt total_refs);
            ("avg_reference_count"%string,
               PyFloat (inject_Z total_refs / inject_Z len));
            ("max_reference_count"%string, PyInt max_refs) ]
  end.

End WithCollaborators.

End Cache.

(* ================================================================== *)
(** * interceptor/wrapper.py : ToolInterceptor.decide *)

Module Wrapper.

Section WithCollaborators.
Context {collab : Collaborators}.

Import Models Config Cache.

Inductive CacheDecision : Type := REUSE | PROVIDE_CONTEXT | EXECUTE.

Record DecisionResult : Type := {
  decision : CacheDecision;
  cache_hit : option CacheHit;
  context_hints : option (list CacheHit)
}.

(** [decide]: [icfg] is the interceptor's own [self.config], [ccfg] the
    configuration of [self.cache]. *)
Definition decide (icfg ccfg : CacheConfig) (env : Env)
    (tool : string) (args : Args) : M DecisionResult :=
  bind (search ccfg env tool args None) (fun hits =>
  match hits with
  | [] =>
      ret {| decision := EXECUTE; cache_hit := None; context_hints := None |}
  | best_hit :: _ =>
      if Qle_bool (reuse_threshold icfg) (similarity best_hit) then
        bind (increment_reuse ccfg env (id (entry best_hit))) (fun _ =>
        ret {| decision := REUSE; cache_hit := Some best_hit;
               context_hints := None |})
      else if Qle_bool (similarity_threshold icfg) (similarity best_hit) then
        let successful_hits := filter (fun h => success (entry h)) hits in
        match successful_hits with
        | _ :: _ =>
            let hints := firstn 3 successful_hits in
            bind (for_each hints (fun hit =>
                    bind (increment_context ccfg env (id (entry hit)))
                         (fun _ => ret tt))) (fun _ =>
            ret {| decision := PROVIDE_CONTEXT; cache_hit := None;
                   context_hints := Some hints |})
        | [] =>
            ret {| decision := EXECUTE; cache_hit := None;
                   context_hints := None |}
        end
      else
        ret {| decision := EXECUTE; cache_hit := None; context_hints := None |}
  end).

End WithCollaborators.

End Wrapper.

(* ================================================================== *)
(** * The calls a client makes, and the states they reach *)

Module Trace.

Section WithCollaborators.
Context {collab : Collaborators}.

Import Models Config Cache.

(** The public operations on a cache; [CallDecrementReference] is
    [cache.storage.decrement_reference], which the benchmark driver calls to
    compensate a context hint. *)
Inductive Call : Type :=
| CallSearch (tool : string) (args : Args) (top_k' : option Z)
| CallGetBestMatch (tool : string) (args : Args)
| CallSave (tool : string) (args : Args) (out : Output) (ok : bool)
| CallIncrementReuse (entry_id : string)
| CallIncrementContext (entry_id : string)
| CallIncrementReference (entry_id : string)
| CallDecide (icfg : CacheConfig) (tool : string) (args : Args)
| CallDecrementReference (entry_id : string)
| CallStats
| CallClear.

(** The state a call leaves, whether it returns or raises. *)
Definition run_call (cfg : CacheConfig) (env : Env) (call : Call)
    (c : ToolCache) : ToolCache :=
  match call with
  | CallSearch tool args k => snd (search cfg env tool args k c)
  | CallGetBestMatch tool args => snd (get_best_match cfg env tool args c)
  | CallSave tool args out ok => snd (save cfg env tool args out ok c)
  | CallIncrementReuse i => snd (increment_reuse cfg env i c)
  | CallIncrementContext i => snd (increment_context cfg env i c)
  | CallIncrementReference i => snd (increment_reference cfg env i c)
  | CallDecide icfg tool args => snd (Wrapper.decide icfg cfg env tool args c)
  | CallDecrementReference i =>
      snd (storage_call (Memory.decrement_reference i) c)
  | CallStats => snd (stats c)
  | CallClear => snd (clear c)
  end.

(** A history of calls on a cache built on fresh stores. *)
Fixpoint run (cfg : CacheConfig) (calls : list (Env * Call)) (c : ToolCache)
  : ToolCache :=
  match calls with
  | [] => c
  | (env, call) :: rest => run cfg rest (run_call cfg env call c)
  end.

Definition is_decrement (call : Call) : bool :=
  match call with CallDecrementReference _ => true | _ => false end.

End WithCollaborators.

End Trace.

(* ================================================================== *)
(** * Facts about the containers *)

Module PyDictFacts.

Import PyDict.

Section Facts.
Variable V : Type.
Implicit Types (d : t V) (k : string) (v : V).

Lemma get_In d k v : get d k = Some v -> In k (keys d).
Proof.
  induction d as [|[k' v'] d IH]; simpl; [discriminate|].
  destruct (String.eqb k k') eqn:E.
  - apply String.eqb_eq in E. auto.
  - auto.
Qed.

Lemma In_get d k : In k (keys d) -> exists v, get d k = Some v.
Proof.
  induction d as [|[k' v'] d IH]; simpl; [tauto|].
  intros [-> | Hin].
  - rewrite String.eqb_refl. eauto.
  - destruct (String.eqb k k'); eauto.
Qed.

Lemma get_None d k : get d k = None <-> ~ In k (keys d).
Proof.
  split.
  - intros Hg Hin. apply In_get in Hin. destruct Hin as [v Hv]. congruence.
  - intros Hn. destruct (get d k) eqn:E; [|reflexivity].
    apply get_In in E. contradiction.
Qed.

Lemma contains_true d k : contains d k = true <-> In k (keys d).
Proof.
  unfold contains. split.
  - destruct (get d k) eqn:E; [|discriminate]. intros _. eapply get_In; eauto.
  - intros Hin. apply In_get in Hin. destruct Hin as [v ->]. reflexivity.
Qed.

Lemma contains_false d k : contains d k = false <-> get d k = None.
Proof. unfold contains. destruct (get d k); split; congruence. Qed.

Lemma get_set_eq d k v : get (set d k v) k = Some v.
Proof.
  induction d as [|[k' v'] d IH]; simpl.
  - rewrite String.eqb_refl. reflexivity.
  - destruct (String.eqb k k') eqn:E; simpl; rewrite E; auto.
Qed.

Lemma get_set_neq d k k' v : k <> k' -> get (set d k v) k' = get d k'.
Proof.
  intros Hne. induction d as [|[k0 v0] d IH]; simpl.
  - destruct (String.eqb k' k) eqn:E; [|reflexivity].
    apply String.eqb_eq in E. congruence.
  - destruct (String.eqb k k0) eqn:E; simpl.
    + apply String.eqb_eq in E. subst k0.
      destruct (String.eqb k' k) eqn:E'; [|reflexivity].
      apply String.eqb_eq in E'. congruence.
    + rewrite IH. reflexivity.
Qed.

Lemma keys_set_present d k v : In k (keys d) -> keys (set d k v) = keys d.
Proof.
  induction d as [|[k' v'] d IH]; simpl; [tauto|].
  intros Hin. destruct (String.eqb k k') eqn:E; simpl; [reflexivity|].
  f_equal. apply IH. destruct Hin as [-> | Hin]; [|exact Hin].
  rewrite String.eqb_refl in E. discriminate.
Qed.

Lemma keys_set_absent d k v : ~ In k (keys d) -> keys (set d k v) = keys d ++ [k].
Proof.
  induction d as [|[k' v'] d IH]; simpl; [reflexivity|].
  intros Hn. destruct (String.eqb k k') eqn:E; simpl.
  - apply String.eqb_eq in E. subst. tauto.
  - f_equal. apply IH. tauto.
Qed.

Lemma NoDup_keys_set d k v : NoDup (keys d) -> NoDup (keys (set d k v)).
Proof.
  intros Hnd. destruct (in_dec String.string_dec k (keys d)) as [Hin | Hn].
  - rewrite keys_set_present by exact Hin. exact Hnd.
  - rewrite keys_set_absent by exact Hn.
    apply NoDup_app; [exact Hnd | repeat constructor; simpl; tauto |].
    intros x Hx [<- | []]. contradiction.
Qed.

Lemma length_set_present d k v :
  In k (keys d) -> List.length (set d k v) = List.length d.
Proof.
  intros Hin. rewrite <- (length_map fst (set d k v)), <- (length_map fst d).
  change (List.length (keys (set d k v)) = List.length (keys d)).
  rewrite keys_set_present by exact Hin. reflexivity.
Qed.

Lemma length_set_absent d k v :
  ~ In k (keys d) -> List.length (set d k v) = S (List.length d).
Proof.
  intros Hn. rewrite <- (length_map fst (set d k v)), <- (length_map fst d).
  change (List.length (keys (set d k v)) = S (List.length (keys d))).
  rewrite keys_set_absent by exact Hn. rewrite length_app. simpl. lia.
Qed.

Lemma keys_pop d k :
  keys (pop d k) = filter (fun x => negb (String.eqb k x)) (keys d).
Proof.
  induction d as [|[k' v'] d IH]; simpl; [reflexivity|].
  destruct (String.eqb k k'); simpl; rewrite IH; reflexivity.
Qed.

Lemma get_pop_eq d k : get (pop d k) k = None.
Proof.
  apply get_None. rewrite keys_pop, filter_In.
  intros [_ H]. rewrite String.eqb_refl in H. discriminate.
Qed.

Lemma get_pop_neq d k k' : k <> k' -> get (pop d k) k' = get d k'.
Proof.
  intros Hne. induction d as [|[k0 v0] d IH]; simpl; [reflexivity|].
  destruct (String.eqb k k0) eqn:E; simpl.
  - apply String.eqb_eq in E. subst k0.
    destruct (String.eqb k' k) eqn:E'; [|exact IH].
    apply String.eqb_eq in E'. congruence.
  - rewrite IH. reflexivity.
Qed.

Lemma get_pop_Some d k k' v : get (pop d k) k' = Some v -> get d k' = Some v.
Proof.
  destruct (String.string_dec k k') as [<- | Hne].
  - rewrite get_pop_eq. discriminate.
  - rewrite get_pop_neq by exact Hne. auto.
Qed.

Lemma NoDup_keys_pop d k : NoDup (keys d) -> NoDup (keys (pop d k)).
Proof. intros Hnd. rewrite keys_pop. apply NoDup_filter. exact Hnd. Qed.

Lemma length_pop d k :
  NoDup (keys d) -> In k (keys d) -> S (List.length (pop d k)) = List.length d.
Proof.
  induction d as [|[k' v'] d IH]; simpl; [tauto|].
  intros Hnd Hin. inversion Hnd as [|? ? Hnotin Hnd']; subst.
  destruct (String.eqb k k') eqn:E; simpl.
  - apply String.eqb_eq in E. subst k'. f_equal.
    unfold pop. rewrite forallb_filter_id; [reflexivity|].
    apply forallb_forall. intros [k0 v0] Hx. simpl.
    destruct (String.eqb k k0) eqn:E0; [|reflexivity].
    apply String.eqb_eq in E0. subst k0. exfalso. apply Hnotin.
    change k with (fst (k, v0)). apply in_map. exact Hx.
  - f_equal. apply IH; [exact Hnd'|].
    destruct Hin as [-> | Hin]; [|exact Hin].
    rewrite String.eqb_refl in E. discriminate.
Qed.

Lemma length_pop_le d k : (List.length (pop d k) <= List.length d)%nat.
Proof. unfold pop. apply filter_length_le. Qed.

End Facts.

(** Two dicts with the same keys keep the same keys under the same
    assignment. *)
Lemma keys_set_sync (V W : Type) (d : t V) (d' : t W) k v w :
  keys d = keys d' -> keys (set d k v) = keys (set d' k w).
Proof.
  revert d'. induction d as [|[k0 v0] d IH]; intros [|[k1 w1] d']; simpl;
    try discriminate; [reflexivity|].
  intros Heq. injection Heq as -> Heq.
  destruct (String.eqb k k1); simpl; f_equal; auto.
Qed.

Lemma keys_pop_sync (V W : Type) (d : t V) (d' : t W) k :
  keys d = keys d' -> keys (pop d k) = keys (pop d' k).
Proof. intros Heq. rewrite !keys_pop, Heq. reflexivity. Qed.

End PyDictFacts.

Module PySortFacts.

Import PySort.

Section Facts.
Variable A : Type.
Variable leb : A -> A -> bool.

Lemma insert_perm x l : Permutation (insert leb x l) (x :: l).
Proof.
  induction l as [|y l IH]; simpl; [reflexivity|].
  destruct (leb x y); [reflexivity|].
  rewrite IH. apply perm_swap.
Qed.

Lemma sort_perm l : Permutation (sort leb l) l.
Proof.
  induction l as [|x l IH]; simpl; [reflexivity|].
  rewrite insert_perm. constructor. exact IH.
Qed.

Lemma sort_length l : List.length (sort leb l) = List.length l.
Proof. apply Permutation_length, sort_perm. Qed.

Lemma sort_In x l : In x (sort leb l) <-> In x l.
Proof.
  split; apply Permutation_in; [|symmetry]; apply sort_perm.
Qed.

Lemma sort_map_NoDup (B : Type) (f : A -> B) l :
  NoDup (map f l) -> NoDup (map f (sort leb l)).
Proof.
  intros Hnd. eapply Permutation_NoDup; [|exact Hnd].
  apply Permutation_map. symmetry. apply sort_perm.
Qed.

End Facts.

End PySortFacts.

(* ================================================================== *)
(** * The scoring function: bounds and monotonicity *)

Module ScoringFacts.

Import Scoring.
Local Open Scope R_scope.

(** On counts that are not negative and a factor in [[0,1]] the logarithm
    is defined, so the function returns. *)
Lemma compute_weighted_score_defined now sim r c last f lam :
  (0 <= r)%Z -> (0 <= c)%Z -> 0 <= f <= 1 ->
  compute_weighted_score now sim r c last f lam
  = Some (score_value now sim r c last f lam).
Proof.
  intros Hr Hc Hf. apply compute_weighted_score_Some.
  pose proof (weighted_count_nonneg Hr Hc Hf). lra.
Qed.




(** C9.  For a fixed similarity, last access, evaluation instant and context
    count, a positive factor and a decay rate that is not negative, the score
    does not decrease when the reuse count grows: if the score is defined at
    the smaller count (its logarithm has a positive argument, as it has for
    all counts that are not negative and a factor of at most 1), it is
    defined at the larger one and is at least as large. *)
Theorem score_monotone_in_reuse_count now sim c last f lam r1 r2 :
  0 < f -> 0 <= lam -> (r1 <= r2)%Z ->
  0 < weighted_count r1 c f + 1 ->
  exists s1 s2,
    compute_weighted_score now sim r1 c last f lam = Some s1 /\
    compute_weighted_score now sim r2 c last f lam = Some s2 /\
    s1 <= s2.
Proof.
  intros Hf Hlam Hr Hdom.
  assert (Hw : weighted_count r1 c f <= weighted_count r2 c f)
    by (apply weighted_count_mono; [lra | exact Hr]).
  exists (score_value now sim r1 c last f lam),
         (score_value now sim r2 c last f lam).
  split; [apply compute_weighted_score_Some; exact Hdom|].
  split; [apply compute_weighted_score_Some; lra|].
  unfold score_value. apply Rplus_le_compat_l.
  apply Rmult_le_compat_r.
  - left. apply recency_pos.
  - apply normalized_ref_mono; assumption.
Qed.

Lemma score_monotone_in_reuse_count_witness :
  0 < 6 / 10 /\ 0 <= 1 / 100 /\ (3 <= 10)%Z /\
  0 < weighted_count 3 2 (6 / 10) + 1 /\
  exists s1 s2,
    compute_weighted_score 7200000000 (8 / 10) 3 2 0 (6 / 10) (1 / 100)
    = Some s1 /\
    compute_weighted_score 7200000000 (8 / 10) 10 2 0 (6 / 10) (1 / 100)
    = Some s2 /\
    s1 <= s2.
Proof.
  assert (H1 : 0 < 6 / 10) by lra.
  assert (H2 : 0 <= 1 / 100) by lra.
  assert (H3 : (3 <= 10)%Z) by lia.
  assert (H4 : 0 < weighted_count 3 2 (6 / 10) + 1)
    by (unfold weighted_count; lra).
  repeat (split; [assumption|]).
  exact (@score_monotone_in_reuse_count
           7200000000 (8 / 10) 2 0 (6 / 10) (1 / 100) 3 10 H1 H2 H3 H4).
Defined.

(** For the counts and factors a validated configuration and a cache
    produce, the hypothesis on the logarithm holds. *)
Lemma score_monotone_on_valid_inputs now sim c last f lam r1 r2 :
  0 < f <= 1 -> 0 <= lam -> (0 <= r1 <= r2)%Z -> (0 <= c)%Z ->
  exists s1 s2,
    compute_weighted_score now sim r1 c last f lam = Some s1 /\
    compute_weighted_score now sim r2 c last f lam = Some s2 /\
    s1 <= s2.
Proof.
  intros Hf Hlam Hr Hc.
  assert (Hw : 0 <= weighted_count r1 c f)
    by (apply weighted_count_nonneg; [lia | lia | lra]).
  assert (Hw2 : weighted_count r1 c f <= weighted_count r2 c f)
    by (apply weighted_count_mono; [lra | lia]).
  exists (score_value now sim r1 c last f lam),
         (score_value now sim r2 c last f lam).
  split; [apply compute_weighted_score_Some; lra|].
  split; [apply compute_weighted_score_Some; lra|].
  unfold score_value. apply Rplus_le_compat_l.
  apply Rmult_le_compat_r.
  - left. apply recency_pos.
  - apply normalized_ref_mono; [lra | assumption].
Qed.

End ScoringFacts.

Module ListFacts.

Section Facts.
Variable A : Type.

Lemma NoDup_firstn n (l : list A) : NoDup l -> NoDup (firstn n l).
Proof.
  intros Hnd. rewrite <- (firstn_skipn n l) in Hnd.
  eapply NoDup_app_remove_r. exact Hnd.
Qed.

Lemma In_firstn n (l : list A) x : In x (firstn n l) -> In x l.
Proof.
  intros Hin. rewrite <- (firstn_skipn n l). apply in_or_app. left. exact Hin.
Qed.

End Facts.

End ListFacts.

(* ================================================================== *)
(** * The storage backend: representation invariant *)

Module MemoryFacts.

Section WithCollaborators.
Context {collab : Collaborators}.

Import Models Memory.

(** The two dicts of a backend hold the same keys in the same order (every
    method writes or removes a key in both), and a dict holds a key once. *)
Definition wf (s : MemoryStorageBackend) : Prop :=
  NoDup (PyDict.keys (_data s))
  /\ PyDict.keys (_scores s) = PyDict.keys (_data s).

Lemma backend_wf_init : wf init.
Proof. split; simpl; [constructor | reflexivity]. Qed.

Lemma backend_wf_set key value sc s : wf s -> wf (snd (set key value sc s)).
Proof.
  intros [Hnd Hk]. split; simpl.
  - apply PyDictFacts.NoDup_keys_set. exact Hnd.
  - apply PyDictFacts.keys_set_sync. exact Hk.
Qed.

Lemma backend_wf_delete key s : wf s -> wf (snd (delete key s)).
Proof.
  intros [Hnd Hk]. split; simpl.
  - apply PyDictFacts.NoDup_keys_pop. exact Hnd.
  - apply PyDictFacts.keys_pop_sync. exact Hk.
Qed.

Lemma backend_wf_data_update key e e' s :
  wf s -> PyDict.get (_data s) key = Some e ->
  wf {| _data := PyDict.set (_data s) key e'; _scores := _scores s |}.
Proof.
  intros [Hnd Hk] Hg. apply PyDictFacts.get_In in Hg.
  split; simpl; rewrite PyDictFacts.keys_set_present by exact Hg; assumption.
Qed.

Lemma backend_wf_update_score key sc s : wf s -> wf (snd (update_score key sc s)).
Proof.
  intros Hwf. unfold update_score.
  destruct (PyDict.contains (_data s) key) eqn:E; simpl; [|exact Hwf].
  destruct Hwf as [Hnd Hk]. apply PyDictFacts.contains_true in E.
  split; simpl; [exact Hnd|].
  rewrite PyDictFacts.keys_set_present; [exact Hk | rewrite Hk; exact E].
Qed.

Lemma backend_wf_update_access_time t key s :
  wf s -> wf (snd (update_access_time t key s)).
Proof.
  intros Hwf. unfold update_access_time.
  destruct (PyDict.get (_data s) key) eqn:E; simpl; [|exact Hwf].
  eapply backend_wf_data_update; eauto.
Qed.

Lemma backend_wf_increment_reuse t key s :
  wf s -> wf (snd (increment_reuse t key s)).
Proof.
  intros Hwf. unfold increment_reuse.
  destruct (PyDict.get (_data s) key) eqn:E; simpl; [|exact Hwf].
  eapply backend_wf_data_update; eauto.
Qed.

Lemma backend_wf_increment_context t key s :
  wf s -> wf (snd (increment_context t key s)).
Proof.
  intros Hwf. unfold increment_context.
  destruct (PyDict.get (_data s) key) eqn:E; simpl; [|exact Hwf].
  eapply backend_wf_data_update; eauto.
Qed.

Lemma backend_wf_decrement_reference key s :
  wf s -> wf (snd (decrement_reference key s)).
Proof.
  intros Hwf. unfold decrement_reference.
  destruct (PyDict.get (_data s) key) eqn:E; simpl; [|exact Hwf].
  destruct (0 <? reuse_count e)%Z; simpl; [eapply backend_wf_data_update; eauto|].
  destruct (0 <? provide_context_count e)%Z; simpl;
    [eapply backend_wf_data_update; eauto | exact Hwf].
Qed.

(** The ranking queries answer with distinct keys of the backend, as many
    as asked for when the backend holds that many. *)
Section Ranking.
Variable B : Type.
Variable leb : string * B -> string * B -> bool.

Lemma ranked_NoDup (items : list (string * B)) n :
  NoDup (map fst items) ->
  NoDup (map fst (firstn n (PySort.sort leb items))).
Proof.
  intros Hnd. rewrite <- firstn_map. apply ListFacts.NoDup_firstn.
  apply PySortFacts.sort_map_NoDup. exact Hnd.
Qed.

Lemma ranked_In (items : list (string * B)) n k :
  In k (map fst (firstn n (PySort.sort leb items))) -> In k (map fst items).
Proof.
  intros Hin. apply in_map_iff in Hin. destruct Hin as [x [<- Hx]].
  apply in_map. apply ListFacts.In_firstn in Hx.
  apply PySortFacts.sort_In in Hx. exact Hx.
Qed.

Lemma ranked_length (items : list (string * B)) n :
  List.length (map fst (firstn n (PySort.sort leb items)))
  = Nat.min n (List.length items).
Proof.
  rewrite length_map, length_firstn, PySortFacts.sort_length. reflexivity.
Qed.

End Ranking.

Lemma map_fst_keyed (B : Type) (f : EntryDict -> B) (d : PyDict.t EntryDict) :
  map fst (map (fun kv => (fst kv, f (snd kv))) d) = PyDict.keys d.
Proof.
  unfold PyDict.keys. rewrite map_map. apply map_ext. reflexivity.
Qed.

End WithCollaborators.

End MemoryFacts.

(* ================================================================== *)
(** * The cache: how a method moves the stores *)

Module CacheFacts.

Section WithCollaborators.
Context {collab : Collaborators}.

Import Models Config Cache.

(** [respects Rel m]: whatever [m] answers, returning or raising, the state
    it leaves is related by [Rel] to the state it started from. *)
Definition respects {A} (Rel : ToolCache -> ToolCache -> Prop) (m : M A)
  : Prop :=
  forall c, Rel c (snd (m c)).

Section Combinators.
Variable Rel : ToolCache -> ToolCache -> Prop.
Hypothesis Rel_refl : forall c, Rel c c.
Hypothesis Rel_trans : forall a b c, Rel a b -> Rel b c -> Rel a c.

Lemma respects_ret A (a : A) : respects Rel (ret a).
Proof. intros c. apply Rel_refl. Qed.

Lemma respects_raise A (e : exn) : respects Rel (@raise _ A e).
Proof. intros c. apply Rel_refl. Qed.

Lemma respects_bind A B (m : M A) (k : A -> M B) :
  respects Rel m -> (forall a, respects Rel (k a)) -> respects Rel (bind m k).
Proof.
  intros Hm Hk c. unfold bind. specialize (Hm c).
  destruct (m c) as [[a|e] c1]; simpl in *.
  - eapply Rel_trans; [exact Hm | apply Hk].
  - exact Hm.
Qed.

Lemma respects_try_except A (m : M A) (h : exn -> M A) :
  respects Rel m -> (forall e, respects Rel (h e)) ->
  respects Rel (try_except m h).
Proof.
  intros Hm Hh c. unfold try_except. specialize (Hm c).
  destruct (m c) as [[a|e] c1]; simpl in *.
  - exact Hm.
  - eapply Rel_trans; [exact Hm | apply Hh].
Qed.

Lemma respects_for_each A (l : list A) (body : A -> M unit) :
  (forall x, respects Rel (body x)) -> respects Rel (for_each l body).
Proof.
  intros Hb. induction l as [|x l IH]; simpl.
  - apply respects_ret.
  - apply respects_bind; [apply Hb | intros _; exact IH].
Qed.

Lemma respects_compute_entry_score cfg env e sim :
  respects Rel (_compute_entry_score cfg env e sim).
Proof.
  intros c. unfold _compute_entry_score.
  destruct (Scoring.compute_weighted_score _ _ _ _ _ _ _); apply Rel_refl.
Qed.

Lemma respects_vector_search e k tool :
  respects Rel (vector_search e k tool).
Proof. intros c. apply Rel_refl. Qed.

(** A method of the backend that only reads. *)
Lemma respects_read_only A (f : Memory.SM A) :
  (forall s, snd (f s) = s) -> respects Rel (storage_call f).
Proof.
  intros Hf c. unfold storage_call. specialize (Hf (_storage c)).
  destruct (f (_storage c)) as [a s']. simpl in *. subst s'.
  destruct c; apply Rel_refl.
Qed.

Lemma respects_get key : respects Rel (storage_call (Memory.get key)).
Proof. apply respects_read_only. reflexivity. Qed.

Lemma respects_exists key : respects Rel (storage_call (Memory.exists_ key)).
Proof. apply respects_read_only. reflexivity. Qed.

Lemma respects_size : respects Rel (storage_call Memory.size).
Proof. apply respects_read_only. reflexivity. Qed.

Lemma respects_keys : respects Rel (storage_call Memory.keys).
Proof. apply respects_read_only. reflexivity. Qed.

Lemma respects_get_bottom_by_score n :
  respects Rel (storage_call (Memory.get_bottom_by_score n)).
Proof. apply respects_read_only. reflexivity. Qed.

Lemma respects_get_oldest_by_access n :
  respects Rel (storage_call (Memory.get_oldest_by_access n)).
Proof. apply respects_read_only. reflexivity. Qed.

Lemma respects_get_least_used n :
  respects Rel (storage_call (Memory.get_least_used n)).
Proof. apply respects_read_only. reflexivity. Qed.

Lemma respects_get_oldest_by_creation n :
  respects Rel (storage_call (Memory.get_oldest_by_creation n)).
Proof. apply respects_read_only. reflexivity. Qed.

End Combinators.

(** The structure of a method: binds, handlers, loops and branches.  What
    is left are the calls into the two stores. *)
Ltac respects_structure Hrefl Htrans :=
  repeat match goal with
    | |- respects _ (ret _) => apply (respects_ret _ Hrefl)
    | |- respects _ (raise _) => apply (respects_raise _ Hrefl)
    | |- respects _ (_compute_entry_score _ _ _ _) =>
        apply (respects_compute_entry_score _ Hrefl)
    | |- respects _ (vector_search _ _ _) =>
        apply (respects_vector_search _ Hrefl)
    | |- respects _ (storage_call (Memory.get _)) =>
        apply (respects_get _ Hrefl)
    | |- respects _ (storage_call (Memory.exists_ _)) =>
        apply (respects_exists _ Hrefl)
    | |- respects _ (storage_call Memory.size) =>
        apply (respects_size _ Hrefl)
    | |- respects _ (storage_call Memory.keys) =>
        apply (respects_keys _ Hrefl)
    | |- respects _ (storage_call (Memory.get_bottom_by_score _)) =>
        apply (respects_get_bottom_by_score _ Hrefl)
    | |- respects _ (storage_call (Memory.get_oldest_by_access _)) =>
        apply (respects_get_oldest_by_access _ Hrefl)
    | |- respects _ (storage_call (Memory.get_least_used _)) =>
        apply (respects_get_least_used _ Hrefl)
    | |- respects _ (storage_call (Memory.get_oldest_by_creation _)) =>
        apply (respects_get_oldest_by_creation _ Hrefl)
    | |- respects _ (bind _ _) => apply (respects_bind Htrans); [|intros ?]
    | |- respects _ (try_except _ _) =>
        apply (respects_try_except Htrans); [|intros ?]
    | |- respects _ (for_each _ _) =>
        apply (respects_for_each Hrefl Htrans); intros ?
    | |- respects _ (if ?b then _ else _) => destruct b
    | |- respects _ (match ?x with _ => _ end) => destruct x
    end.

(* ------------------------------------------------------------------ *)
(** ** Well-formed stores *)

(** The backend is well formed and the vector index holds an id once. *)
Definition wf (c : ToolCache) : Prop :=
  MemoryFacts.wf (_storage c)
  /\ NoDup (map (@vid Embedding) (_vector_store c)).

Definition wf_pres (c c' : ToolCache) : Prop := wf c -> wf c'.

Lemma wf_pres_refl c : wf_pres c c.
Proof. intros H. exact H. Qed.

Lemma wf_pres_trans a b c : wf_pres a b -> wf_pres b c -> wf_pres a c.
Proof. unfold wf_pres. auto. Qed.

Lemma wf_init : wf init.
Proof. split; [apply MemoryFacts.backend_wf_init | constructor]. Qed.

Lemma wf_storage_call A (f : Memory.SM A) :
  (forall s, MemoryFacts.wf s -> MemoryFacts.wf (snd (f s))) ->
  respects wf_pres (storage_call f).
Proof.
  intros Hf c [Hs Hv]. unfold storage_call. specialize (Hf _ Hs).
  destruct (f (_storage c)) as [a s']. split; assumption.
Qed.

Lemma wf_storage_set env key value sc :
  respects wf_pres (storage_set env key value sc).
Proof.
  unfold storage_set. destruct (storage_set_raises env).
  - apply respects_raise, wf_pres_refl.
  - apply wf_storage_call. intros s. apply MemoryFacts.backend_wf_set.
Qed.

Lemma existsb_vid_false i (vs : list (VectorRecord Embedding)) :
  existsb (fun r => String.eqb i (vid r)) vs = false ->
  ~ In i (map (@vid Embedding) vs).
Proof.
  intros Hex Hin. apply in_map_iff in Hin. destruct Hin as [r [Hr Hin]].
  assert (Ht : existsb (fun r => String.eqb i (vid r)) vs = true).
  { apply existsb_exists. exists r. split; [exact Hin|].
    rewrite Hr. apply String.eqb_refl. }
  congruence.
Qed.

Lemma NoDup_map_filter (A B : Type) (f : A -> B) (p : A -> bool) l :
  NoDup (map f l) -> NoDup (map f (filter p l)).
Proof.
  induction l as [|x l IH]; simpl; [auto|].
  intros Hnd. inversion Hnd as [|? ? Hnotin Hnd']; subst.
  destruct (p x); simpl; [|auto].
  constructor; [|auto].
  intros Hin. apply Hnotin. apply in_map_iff in Hin.
  destruct Hin as [y [Hy Hin]]. apply filter_In in Hin.
  rewrite <- Hy. apply in_map. tauto.
Qed.

Lemma wf_vector_add i e doc tool : respects wf_pres (vector_add i e doc tool).
Proof.
  intros c [Hs Hv]. unfold vector_add. split; simpl; [exact Hs|].
  destruct (existsb _ _) eqn:E; [exact Hv|].
  rewrite map_app. simpl. apply NoDup_app; [exact Hv | |].
  - repeat constructor. simpl. tauto.
  - intros x Hx [<- | []]. apply existsb_vid_false in E. contradiction.
Qed.

Lemma wf_vector_delete env ids : respects wf_pres (vector_delete env ids).
Proof.
  unfold vector_delete. destruct (vector_delete_raises env).
  - apply respects_raise, wf_pres_refl.
  - intros c [Hs Hv]. split; simpl; [exact Hs|].
    apply NoDup_map_filter. exact Hv.
Qed.

Lemma wf_vector_clear : respects wf_pres vector_clear.
Proof. intros c [Hs Hv]. split; simpl; [exact Hs | constructor]. Qed.

Ltac wf_leaf :=
  first
    [ apply wf_storage_set
    | apply wf_vector_add
    | apply wf_vector_delete
    | apply wf_vector_clear
    | apply wf_storage_call; intros ?;
      first [ apply MemoryFacts.backend_wf_delete
            | apply MemoryFacts.backend_wf_update_score
            | apply MemoryFacts.backend_wf_update_access_time
            | apply MemoryFacts.backend_wf_increment_reuse
            | apply MemoryFacts.backend_wf_increment_context
            | apply MemoryFacts.backend_wf_decrement_reference
            | intros _; apply MemoryFacts.backend_wf_init ] ].

Ltac wf_auto :=
  respects_structure wf_pres_refl wf_pres_trans; try wf_leaf.

Lemma wf_search_loop cfg env results hits :
  respects wf_pres (search_loop cfg env results hits).
Proof.
  revert hits. induction results as [|[entry_id distance] rest IH];
    intros hits; simpl.
  - wf_auto.
  - wf_auto; apply IH.
Qed.

Lemma wf_search cfg env tool args k :
  respects wf_pres (search cfg env tool args k).
Proof. unfold search. wf_auto. apply wf_search_loop. Qed.

Lemma wf_touch_entry cfg env i : respects wf_pres (_touch_entry cfg env i).
Proof. unfold _touch_entry. wf_auto. Qed.

Lemma wf_get_best_match cfg env tool args :
  respects wf_pres (get_best_match cfg env tool args).
Proof.
  unfold get_best_match. wf_auto;
    first [apply wf_search | apply wf_touch_entry].
Qed.

Lemma wf_evict_entry env i : respects wf_pres (_evict_entry env i).
Proof. unfold _evict_entry. wf_auto. Qed.

Lemma wf_maybe_evict cfg env : respects wf_pres (_maybe_evict cfg env).
Proof. unfold _maybe_evict. wf_auto; apply wf_evict_entry. Qed.

Lemma wf_save cfg env tool args out ok :
  respects wf_pres (save cfg env tool args out ok).
Proof. unfold save. wf_auto; apply wf_maybe_evict. Qed.

Lemma wf_increment_reuse cfg env i :
  respects wf_pres (increment_reuse cfg env i).
Proof. unfold increment_reuse. wf_auto. Qed.

Lemma wf_increment_context cfg env i :
  respects wf_pres (increment_context cfg env i).
Proof. unfold increment_context. wf_auto. Qed.

Lemma wf_clear : respects wf_pres clear.
Proof. unfold clear. wf_auto. Qed.

Lemma wf_stats_loop entries acc : respects wf_pres (stats_loop entries acc).
Proof.
  revert acc. induction entries as [|key rest IH]; intros acc; simpl.
  - wf_auto.
  - wf_auto; apply IH.
Qed.

Lemma wf_stats : respects wf_pres stats.
Proof.
  unfold stats. wf_auto. apply wf_stats_loop.
Qed.

Lemma wf_decide icfg ccfg env tool args :
  respects wf_pres (Wrapper.decide icfg ccfg env tool args).
Proof.
  unfold Wrapper.decide. wf_auto;
    first [apply wf_search | apply wf_increment_reuse
          | apply wf_increment_context].
Qed.

(* ------------------------------------------------------------------ *)
(** ** Methods that leave the durable store alone *)

Definition lookup (c : ToolCache) (k : string) : option CacheEntry :=
  PyDict.get (Memory._data (_storage c)) k.

Definition size (c : ToolCache) : nat :=
  List.length (Memory._data (_storage c)).

Definition same_storage (c c' : ToolCache) : Prop := _storage c' = _storage c.

Lemma same_storage_refl c : same_storage c c.
Proof. reflexivity. Qed.

Lemma same_storage_trans a b c :
  same_storage a b -> same_storage b c -> same_storage a c.
Proof. unfold same_storage. congruence. Qed.

Lemma same_storage_vector_delete env ids :
  respects same_storage (vector_delete env ids).
Proof.
  unfold vector_delete. destruct (vector_delete_raises env).
  - apply respects_raise, same_storage_refl.
  - intros c. reflexivity.
Qed.

Lemma same_storage_vector_add i e doc tool :
  respects same_storage (vector_add i e doc tool).
Proof. intros c. reflexivity. Qed.

Ltac same_storage_auto :=
  respects_structure same_storage_refl same_storage_trans;
  try apply same_storage_vector_delete.

Lemma same_storage_search_loop cfg env results hits :
  respects same_storage (search_loop cfg env results hits).
Proof.
  revert hits. induction results as [|[entry_id distance] rest IH];
    intros hits; simpl; same_storage_auto; apply IH.
Qed.

Lemma same_storage_search cfg env tool args k :
  respects same_storage (search cfg env tool args k).
Proof. unfold search. same_storage_auto. apply same_storage_search_loop. Qed.

Lemma same_storage_stats_loop entries acc :
  respects same_storage (stats_loop entries acc).
Proof.
  revert acc. induction entries as [|key rest IH]; intros acc; simpl;
    same_storage_auto; apply IH.
Qed.

Lemma same_storage_stats : respects same_storage stats.
Proof. unfold stats. same_storage_auto. apply same_storage_stats_loop. Qed.

(* ------------------------------------------------------------------ *)
(** ** Methods that add no entry and lower no counter *)

(** Every entry of the later state is an entry of the earlier one under the
    same key, with the same id and counters at least as large; no key is
    added. *)
Definition mono (c c' : ToolCache) : Prop :=
  (forall k e', lookup c' k = Some e' ->
     exists e, lookup c k = Some e /\ id e' = id e
               /\ (reuse_count e <= reuse_count e')%Z
               /\ (provide_context_count e <= provide_context_count e')%Z)
  /\ (size c' <= size c)%nat.

Lemma mono_refl c : mono c c.
Proof.
  split; [|lia]. intros k e' Hk. exists e'. repeat split; auto; lia.
Qed.

Lemma mono_trans a b c : mono a b -> mono b c -> mono a c.
Proof.
  intros [Hab Sab] [Hbc Sbc]. split; [|lia].
  intros k e'' Hk. destruct (Hbc _ _ Hk) as [e' [Hk' [Hi' [Hr' Hc']]]].
  destruct (Hab _ _ Hk') as [e [Hk0 [Hi [Hr Hc]]]].
  exists e. repeat split; [assumption | congruence | lia | lia].
Qed.

Lemma mono_of_same_storage c c' : same_storage c c' -> mono c c'.
Proof.
  unfold same_storage, mono, lookup, size. intros ->. split; [|lia].
  intros k e' Hk. exists e'. repeat split; auto; lia.
Qed.

Lemma respects_mono_of_same_storage A (m : M A) :
  respects same_storage m -> respects mono m.
Proof. intros H c. apply mono_of_same_storage, H. Qed.

(** The same relation on the backend alone. *)
Definition smono (s s' : Memory.MemoryStorageBackend) : Prop :=
  (forall k e', PyDict.get (Memory._data s') k = Some e' ->
     exists e, PyDict.get (Memory._data s) k = Some e /\ id e' = id e
               /\ (reuse_count e <= reuse_count e')%Z
               /\ (provide_context_count e <= provide_context_count e')%Z)
  /\ (List.length (Memory._data s') <= List.length (Memory._data s))%nat.

Lemma smono_refl s : smono s s.
Proof.
  split; [|lia]. intros k e' Hk. exists e'. repeat split; auto; lia.
Qed.

Lemma mono_storage_call A (f : Memory.SM A) :
  (forall s, smono s (snd (f s))) -> respects mono (storage_call f).
Proof.
  intros Hf c. unfold storage_call. specialize (Hf (_storage c)).
  destruct (f (_storage c)) as [a s']. exact Hf.
Qed.

Lemma smono_data_update key e e' s :
  PyDict.get (Memory._data s) key = Some e ->
  id e' = id e ->
  (reuse_count e <= reuse_count e')%Z ->
  (provide_context_count e <= provide_context_count e')%Z ->
  smono s {| Memory._data := PyDict.set (Memory._data s) key e';
             Memory._scores := Memory._scores s |}.
Proof.
  intros Hg Hi Hr Hc. split; simpl.
  - intros k x Hk. destruct (String.string_dec key k) as [<- | Hne].
    + rewrite PyDictFacts.get_set_eq in Hk. injection Hk as <-. eauto.
    + rewrite PyDictFacts.get_set_neq in Hk by exact Hne.
      exists x. repeat split; auto; lia.
  - rewrite PyDictFacts.length_set_present; [lia|].
    eapply PyDictFacts.get_In; eauto.
Qed.

Lemma smono_delete key s : smono s (snd (Memory.delete key s)).
Proof.
  split; simpl.
  - intros k x Hk. apply PyDictFacts.get_pop_Some in Hk.
    exists x. repeat split; auto; lia.
  - apply PyDictFacts.length_pop_le.
Qed.

Lemma smono_update_score key sc s : smono s (snd (Memory.update_score key sc s)).
Proof.
  unfold Memory.update_score.
  destruct (negb (PyDict.contains (Memory._data s) key)); simpl;
    [apply smono_refl|].
  split; simpl; [|lia].
  intros k e' Hk. exists e'. repeat split; auto; lia.
Qed.

Lemma smono_update_access_time t key s :
  smono s (snd (Memory.update_access_time t key s)).
Proof.
  unfold Memory.update_access_time.
  destruct (PyDict.get (Memory._data s) key) eqn:E; simpl;
    [|apply smono_refl].
  eapply smono_data_update; eauto; simpl; lia.
Qed.

Lemma smono_increment_reuse t key s :
  smono s (snd (Memory.increment_reuse t key s)).
Proof.
  unfold Memory.increment_reuse.
  destruct (PyDict.get (Memory._data s) key) eqn:E; simpl;
    [|apply smono_refl].
  eapply smono_data_update; eauto; simpl; lia.
Qed.

Lemma smono_increment_context t key s :
  smono s (snd (Memory.increment_context t key s)).
Proof.
  unfold Memory.increment_context.
  destruct (PyDict.get (Memory._data s) key) eqn:E; simpl;
    [|apply smono_refl].
  eapply smono_data_update; eauto; simpl; lia.
Qed.

Lemma smono_clear s : smono s (snd (Memory.clear s)).
Proof. split; simpl; [discriminate | lia]. Qed.

Lemma mono_vector_delete env ids : respects mono (vector_delete env ids).
Proof.
  apply respects_mono_of_same_storage, same_storage_vector_delete.
Qed.

Lemma mono_vector_clear : respects mono vector_clear.
Proof. intros c. apply mono_of_same_storage. reflexivity. Qed.

Ltac mono_leaf :=
  first
    [ apply mono_vector_delete
    | apply mono_vector_clear
    | apply mono_storage_call; intros ?;
      first [ apply smono_delete
            | apply smono_update_score
            | apply smono_update_access_time
            | apply smono_increment_reuse
            | apply smono_increment_context
            | apply smono_clear ] ].

Ltac mono_auto :=
  respects_structure mono_refl mono_trans; try mono_leaf.

Lemma mono_search cfg env tool args k :
  respects mono (search cfg env tool args k).
Proof. apply respects_mono_of_same_storage, same_storage_search. Qed.

Lemma mono_stats : respects mono stats.
Proof. apply respects_mono_of_same_storage, same_storage_stats. Qed.

Lemma mono_touch_entry cfg env i : respects mono (_touch_entry cfg env i).
Proof. unfold _touch_entry. mono_auto. Qed.

Lemma mono_get_best_match cfg env tool args :
  respects mono (get_best_match cfg env tool args).
Proof.
  unfold get_best_match. mono_auto;
    first [apply mono_search | apply mono_touch_entry].
Qed.

Lemma mono_evict_entry env i : respects mono (_evict_entry env i).
Proof. unfold _evict_entry. mono_auto. Qed.

Lemma mono_maybe_evict cfg env : respects mono (_maybe_evict cfg env).
Proof. unfold _maybe_evict. mono_auto; apply mono_evict_entry. Qed.

Lemma mono_increment_reuse cfg env i :
  respects mono (increment_reuse cfg env i).
Proof. unfold increment_reuse. mono_auto. Qed.

Lemma mono_increment_context cfg env i :
  respects mono (increment_context cfg env i).
Proof. unfold increment_context. mono_auto. Qed.

Lemma mono_clear : respects mono clear.
Proof. unfold clear. mono_auto. Qed.

Lemma mono_decide icfg ccfg env tool args :
  respects mono (Wrapper.decide icfg ccfg env tool args).
Proof.
  unfold Wrapper.decide. mono_auto;
    first [apply mono_search | apply mono_increment_reuse
          | apply mono_increment_context].
Qed.

(* ------------------------------------------------------------------ *)
(** ** What [save] does *)

(** The deterministic id of a call. *)
Definition entry_key (tool : string) (args : Args) : string :=
  Utils.generate_cache_id tool (Utils.serialize_args args).

(** The entry that the update path of [save] writes over [d]. *)
Definition updated_entry (env : Env) (out : Output) (ok : bool) (d : EntryDict)
  : CacheEntry :=
  with_last_accessed_at (now env) (with_output out ok (from_dict d)).

(** The entry that the creation path of [save] builds. *)
Definition fresh_entry (env : Env) (tool : string) (args : Args)
    (out : Output) (ok : bool) : CacheEntry :=
  {| id := entry_key tool args; tool_name := tool;
     input_text := Utils.serialize_args args; input_args := args;
     output := out; uuid := uuid4 env;
     embedding := Some (embed (Utils.serialize_args args));
     reuse_count := 0; provide_context_count := 0;
     created_at := now env; last_accessed_at := now env; success := ok |}.

(** The score of an entry against itself, or [None] for a [ValueError]. *)
Definition entry_score (cfg : CacheConfig) (env : Env) (e : CacheEntry)
  : option R :=
  Scoring.compute_weighted_score (now env) (Q2R 1)
    (reuse_count e) (provide_context_count e) (last_accessed_at e)
    (Q2R (reuse_context_factor cfg)) (Q2R (time_decay_lambda cfg)).

(** The cache after [self._storage.set(key, e, sc)]. *)
Definition put (c : ToolCache) (key : string) (e : CacheEntry) (sc : R)
  : ToolCache :=
  {| _storage := snd (Memory.set key e sc (_storage c));
     _vector_store := _vector_store c |}.

Lemma save_existing cfg env tool args out ok c d :
  lookup c (entry_key tool args) = Some d ->
  save cfg env tool args out ok c
  = match entry_score cfg env (updated_entry env out ok d) with
    | None => (Raise ValueError, c)
    | Some sc =>
        if storage_set_raises env then (Raise StorageError, c)
        else (Ok (updated_entry env out ok d),
              put c (entry_key tool args) (updated_entry env out ok d) sc)
    end.
Proof.
  intros Hd. destruct c as [s vs]. unfold lookup, entry_key in *. simpl in Hd.
  unfold save, bind, storage_call, Memory.get. simpl. rewrite Hd.
  unfold _compute_entry_score, entry_score, updated_entry.
  destruct (Scoring.compute_weighted_score _ _ _ _ _ _ _); [|reflexivity].
  unfold ret, storage_set. destruct (storage_set_raises env); reflexivity.
Qed.

Lemma save_new cfg env tool args out ok c :
  lookup c (entry_key tool args) = None ->
  save cfg env tool args out ok c
  = match entry_score cfg env (fresh_entry env tool args out ok) with
    | None => (Raise ValueError, c)
    | Some sc =>
        let c1 := snd (vector_add (entry_key tool args)
                         (embed (Utils.serialize_args args))
                         (Utils.serialize_args args) tool c) in
        if storage_set_raises env then
          (Raise StorageError,
           snd (try_except (vector_delete env [entry_key tool args])
                  (fun _ => ret tt) c1))
        else
          match _maybe_evict cfg env
                  (put c1 (entry_key tool args)
                     (fresh_entry env tool args out ok) sc) with
          | (Ok _, c3) => (Ok (fresh_entry env tool args out ok), c3)
          | (Raise x, c3) => (Raise x, c3)
          end
    end.
Proof.
  intros Hd. destruct c as [s vs]. unfold lookup, entry_key in *. simpl in Hd.
  unfold save, bind, storage_call, Memory.get. simpl. rewrite Hd.
  unfold _compute_entry_score, entry_score, fresh_entry, entry_key.
  destruct (Scoring.compute_weighted_score _ _ _ _ _ _ _); [|reflexivity].
  unfold ret, storage_set, try_except, raise, vector_add. simpl.
  destruct (storage_set_raises env); simpl.
  - unfold vector_delete. destruct (vector_delete_raises env); reflexivity.
  - unfold storage_call, put. simpl.
    destruct (_maybe_evict _ _ _) as [[u|x] c3]; reflexivity.
Qed.

(* ------------------------------------------------------------------ *)
(** ** What eviction does to the number of entries *)

Lemma evict_loop_size env keys c :
  MemoryFacts.wf (_storage c) ->
  NoDup keys ->
  (forall k, In k keys -> In k (PyDict.keys (Memory._data (_storage c)))) ->
  match for_each keys (_evict_entry env) c with
  | (Ok _, c') => (size c' + List.length keys = size c)%nat
  | (Raise _, c') => (size c' < size c)%nat
  end.
Proof.
  revert c. induction keys as [|k keys IH]; intros c Hwf Hnd Hin; simpl.
  - unfold ret. simpl. lia.
  - inversion Hnd as [|? ? Hnotin Hnd']; subst.
    assert (Hk : In k (PyDict.keys (Memory._data (_storage c))))
      by (apply Hin; left; reflexivity).
    assert (Hlen : S (List.length (PyDict.pop (Memory._data (_storage c)) k))
                   = List.length (Memory._data (_storage c))).
    { apply PyDictFacts.length_pop; [apply Hwf | exact Hk]. }
    unfold bind at 1. unfold _evict_entry at 1.
    unfold bind, storage_call, Memory.exists_, Memory.delete. simpl.
    rewrite (proj2 (PyDictFacts.contains_true _ _) Hk).
    unfold vector_delete. destruct (vector_delete_raises env); simpl.
    + unfold size. simpl. lia.
    + match goal with
      | |- match for_each _ _ ?c1 with _ => _ end =>
          specialize (IH c1)
      end.
      simpl in IH.
      assert (Hwf1 : MemoryFacts.wf
                 {| Memory._data := PyDict.pop (Memory._data (_storage c)) k;
                    Memory._scores := PyDict.pop (Memory._scores (_storage c)) k |})
        by (apply (MemoryFacts.backend_wf_delete k Hwf)).
      specialize (IH Hwf1 Hnd').
      assert (Hin1 : forall k0, In k0 keys ->
                 In k0 (PyDict.keys (PyDict.pop (Memory._data (_storage c)) k))).
      { intros k0 Hk0. rewrite PyDictFacts.keys_pop. apply filter_In.
        split; [apply Hin; right; exact Hk0|].
        destruct (String.eqb k k0) eqn:E; [|reflexivity].
        apply String.eqb_eq in E. subst k0. contradiction. }
      specialize (IH Hin1).
      destruct (for_each keys (_evict_entry env) _) as [[u|x] c']; 
        unfold size in *; simpl in *; lia.
Qed.

(** The keys that the configured policy selects. *)
Definition evict_keys (p : EvictionPolicy) (n : nat)
    (s : Memory.MemoryStorageBackend) : list string :=
  match p with
  | score => fst (Memory.get_bottom_by_score n s)
  | lru => fst (Memory.get_oldest_by_access n s)
  | lfu => fst (Memory.get_least_used n s)
  | fifo => fst (Memory.get_oldest_by_creation n s)
  end.

Lemma evict_keys_spec p n s :
  MemoryFacts.wf s ->
  NoDup (evict_keys p n s)
  /\ (forall k, In k (evict_keys p n s) -> In k (PyDict.keys (Memory._data s)))
  /\ List.length (evict_keys p n s)
     = Nat.min n (List.length (Memory._data s)).
Proof.
  intros [Hnd Hk].
  assert (Hlen : List.length (Memory._scores s) = List.length (Memory._data s)).
  { rewrite <- (length_map fst (Memory._scores s)),
            <- (length_map fst (Memory._data s)).
    change (List.length (PyDict.keys (Memory._scores s))
            = List.length (PyDict.keys (Memory._data s))).
    rewrite Hk. reflexivity. }
  destruct p; simpl.
  - split; [|split].
    + apply MemoryFacts.ranked_NoDup. fold (PyDict.keys (Memory._scores s)).
      rewrite Hk. exact Hnd.
    + intros k Hin. apply MemoryFacts.ranked_In in Hin.
      fold (PyDict.keys (Memory._scores s)) in Hin. rewrite Hk in Hin.
      exact Hin.
    + rewrite MemoryFacts.ranked_length, Hlen. reflexivity.
  - split; [|split].
    + apply MemoryFacts.ranked_NoDup. rewrite MemoryFacts.map_fst_keyed.
      exact Hnd.
    + intros k Hin. apply MemoryFacts.ranked_In in Hin.
      rewrite MemoryFacts.map_fst_keyed in Hin. exact Hin.
    + rewrite MemoryFacts.ranked_length, length_map. reflexivity.
  - split; [|split].
    + apply MemoryFacts.ranked_NoDup.
      rewrite (MemoryFacts.map_fst_keyed
                 (fun e => (reuse_count e + provide_context_count e)%Z)).
      exact Hnd.
    + intros k Hin. apply MemoryFacts.ranked_In in Hin.
      rewrite (MemoryFacts.map_fst_keyed
                 (fun e => (reuse_count e + provide_context_count e)%Z)) in Hin.
      exact Hin.
    + rewrite MemoryFacts.ranked_length, length_map. reflexivity.
  - split; [|split].
    + apply MemoryFacts.ranked_NoDup. rewrite MemoryFacts.map_fst_keyed.
      exact Hnd.
    + intros k Hin. apply MemoryFacts.ranked_In in Hin.
      rewrite MemoryFacts.map_fst_keyed in Hin. exact Hin.
    + rewrite MemoryFacts.ranked_length, length_map. reflexivity.
Qed.

Lemma maybe_evict_unfold cfg env c :
  _maybe_evict cfg env c
  = if (Z.of_nat (size c) <=? max_cache_size cfg)%Z then (Ok tt, c)
    else for_each
           (evict_keys (eviction_policy cfg)
              (Z.to_nat (Z.of_nat (size c) - max_cache_size cfg)) (_storage c))
           (_evict_entry env) c.
Proof.
  destruct c as [s vs]. unfold _maybe_evict, bind, storage_call, size.
  simpl. destruct (_ <=? _)%Z; [reflexivity|].
  unfold evict_keys. destruct (eviction_policy cfg); reflexivity.
Qed.

(** When [_maybe_evict] returns, the store is within the bound; when it
    raises (the vector-index delete failed), at least one entry is gone. *)
Lemma maybe_evict_size cfg env c :
  MemoryFacts.wf (_storage c) ->
  (0 <= max_cache_size cfg)%Z ->
  match _maybe_evict cfg env c with
  | (Ok _, c') => (Z.of_nat (size c') <= max_cache_size cfg)%Z
  | (Raise _, c') => (size c' < size c)%nat
  end.
Proof.
  intros Hwf Hmax. rewrite maybe_evict_unfold.
  destruct (Z.of_nat (size c) <=? max_cache_size cfg)%Z eqn:E.
  - apply Z.leb_le in E. exact E.
  - apply Z.leb_gt in E.
    destruct (evict_keys_spec (eviction_policy cfg)
                (Z.to_nat (Z.of_nat (size c) - max_cache_size cfg)) Hwf)
      as [Hnd [Hin Hlen]].
    pose proof (@evict_loop_size env _ c Hwf Hnd Hin) as Hloop.
    destruct (for_each _ _ c) as [[u|x] c']; [|exact Hloop].
    rewrite Hlen in Hloop. unfold size in *. lia.
Qed.

(* ------------------------------------------------------------------ *)
(** ** Invariants of the stored entries *)

(** An entry is stored under its own id. *)
Definition ids_consistent (c : ToolCache) : Prop :=
  forall k e, lookup c k = Some e -> id e = k.

Definition counters_nonneg (c : ToolCache) : Prop :=
  forall k e, lookup c k = Some e ->
    (0 <= reuse_count e)%Z /\ (0 <= provide_context_count e)%Z.

(** No counter of an entry that is stored before and after is lower
    after. *)
Definition counters_le (c c' : ToolCache) : Prop :=
  forall k e e', lookup c k = Some e -> lookup c' k = Some e' ->
    (reuse_count e <= reuse_count e')%Z
    /\ (provide_context_count e <= provide_context_count e')%Z.

Lemma mono_ids_consistent c c' :
  mono c c' -> ids_consistent c -> ids_consistent c'.
Proof.
  intros [Hm _] Hc k e' Hk. destruct (Hm _ _ Hk) as [e [Hk0 [Hi _]]].
  rewrite Hi. apply Hc. exact Hk0.
Qed.

Lemma mono_counters_nonneg c c' :
  mono c c' -> counters_nonneg c -> counters_nonneg c'.
Proof.
  intros [Hm _] Hc k e' Hk. destruct (Hm _ _ Hk) as [e [Hk0 [_ [Hr Hx]]]].
  destruct (Hc _ _ Hk0). lia.
Qed.

Lemma mono_counters_le c c' : mono c c' -> counters_le c c'.
Proof.
  intros [Hm _] k e e' Hk Hk'. destruct (Hm _ _ Hk') as [e0 [Hk0 [_ [Hr Hx]]]].
  assert (e0 = e) by congruence. subst e0. lia.
Qed.

Lemma lookup_put_eq c key e sc : lookup (put c key e sc) key = Some e.
Proof. unfold lookup, put. simpl. apply PyDictFacts.get_set_eq. Qed.

Lemma lookup_put_neq c key e sc k :
  key <> k -> lookup (put c key e sc) k = lookup c k.
Proof.
  intros Hne. unfold lookup, put. simpl.
  apply PyDictFacts.get_set_neq. exact Hne.
Qed.

Lemma size_put_present c key e sc d :
  lookup c key = Some d -> size (put c key e sc) = size c.
Proof.
  intros Hd. unfold size, put. simpl. apply PyDictFacts.length_set_present.
  eapply PyDictFacts.get_In. exact Hd.
Qed.

Lemma size_put_absent c key e sc :
  lookup c key = None -> size (put c key e sc) = S (size c).
Proof.
  intros Hd. unfold size, put. simpl. apply PyDictFacts.length_set_absent.
  apply PyDictFacts.get_None. exact Hd.
Qed.

Lemma lookup_vector_add i e doc tool c k :
  lookup (snd (vector_add i e doc tool c)) k = lookup c k.
Proof. reflexivity. Qed.

Lemma storage_rollback env key c :
  _storage (snd (try_except (vector_delete env [key]) (fun _ => ret tt) c))
  = _storage c.
Proof.
  unfold try_except, vector_delete.
  destruct (vector_delete_raises env); reflexivity.
Qed.

(** The state that [save] leaves, in each of its outcomes. *)
Inductive save_outcome (cfg : CacheConfig) (env : Env)
    (tool : string) (args : Args) (out : Output) (ok : bool)
    (c : ToolCache) : result CacheEntry -> ToolCache -> Prop :=
| SaveUnchanged r c' :
    _storage c' = _storage c ->
    (forall e, r <> Ok e) ->
    save_outcome cfg env tool args out ok c r c'
| SaveUpdated d sc :
    lookup c (entry_key tool args) = Some d ->
    save_outcome cfg env tool args out ok c
      (Ok (updated_entry env out ok d))
      (put c (entry_key tool args) (updated_entry env out ok d) sc)
| SaveCreated sc c1 r c3 :
    lookup c (entry_key tool args) = None ->
    _storage c1 = _storage c ->
    _maybe_evict cfg env
      (put c1 (entry_key tool args) (fresh_entry env tool args out ok) sc)
    = (r, c3) ->
    save_outcome cfg env tool args out ok c
      (match r with
       | Ok _ => Ok (fresh_entry env tool args out ok)
       | Raise x => Raise x
       end) c3.

Lemma save_cases cfg env tool args out ok c :
  save_outcome cfg env tool args out ok c
    (fst (save cfg env tool args out ok c))
    (snd (save cfg env tool args out ok c)).
Proof.
  destruct (lookup c (entry_key tool args)) as [d|] eqn:Hd.
  - rewrite (@save_existing cfg env tool args out ok c d Hd).
    destruct (entry_score cfg env (updated_entry env out ok d)) as [sc|].
    + destruct (storage_set_raises env); simpl.
      * apply SaveUnchanged; [reflexivity | discriminate].
      * apply SaveUpdated. exact Hd.
    + apply SaveUnchanged; [reflexivity | discriminate].
  - rewrite (@save_new cfg env tool args out ok c Hd).
    destruct (entry_score cfg env (fresh_entry env tool args out ok))
      as [sc|]; [|apply SaveUnchanged; [reflexivity | discriminate]].
    cbv zeta. destruct (storage_set_raises env).
    + apply SaveUnchanged; [|discriminate]. simpl.
      rewrite storage_rollback. reflexivity.
    + destruct (_maybe_evict cfg env _) as [r c3] eqn:Hev.
      replace (fst (let (r0, c4) := (r, c3) in
                    match r0 with
                    | Ok _ => (Ok (fresh_entry env tool args out ok), c4)
                    | Raise x => (Raise x, c4)
                    end))
        with (match r with
              | Ok _ => Ok (fresh_entry env tool args out ok)
              | Raise x => @Raise CacheEntry x
              end) by (destruct r; reflexivity).
      replace (snd (let (r0, c4) := (r, c3) in
                    match r0 with
                    | Ok _ => (Ok (fresh_entry env tool args out ok), c4)
                    | Raise x => (Raise x, c4)
                    end))
        with c3 by (destruct r; reflexivity).
      eapply SaveCreated; [exact Hd | | exact Hev]. reflexivity.
Qed.

(* ------------------------------------------------------------------ *)
(** ** What the counter methods write *)

Definition data_of (c : ToolCache) : PyDict.t EntryDict :=
  Memory._data (_storage c).

(** The entry after [increment_reuse], [increment_context] and
    [decrement_reference] of the backend. *)
Definition bump_reuse (t : datetime) (e : CacheEntry) : CacheEntry :=
  with_last_accessed_at t (with_reuse_count (reuse_count e + 1) e).

Definition bump_context (t : datetime) (e : CacheEntry) : CacheEntry :=
  with_last_accessed_at t
    (with_provide_context_count (provide_context_count e + 1) e).

Definition drop_reference (e : CacheEntry) : CacheEntry :=
  if (0 <? reuse_count e)%Z then with_reuse_count (reuse_count e - 1) e
  else if (0 <? provide_context_count e)%Z then
    with_provide_context_count (provide_context_count e - 1) e
  else e.

Lemma entry_score_defined cfg env e :
  validate cfg = true ->
  (0 <= reuse_count e)%Z -> (0 <= provide_context_count e)%Z ->
  exists sc, entry_score cfg env e = Some sc.
Proof.
  intros Hv Hr Hc. unfold validate in Hv.
  repeat (apply andb_prop in Hv; destruct Hv as [Hv ?]).
  unfold entry_score. eexists.
  apply ScoringFacts.compute_weighted_score_defined; [exact Hr | exact Hc |].
  split.
  - rewrite <- RMicromega.Q2R_0. apply Qle_Rle, Qle_bool_iff. assumption.
  - rewrite <- RMicromega.Q2R_1. apply Qle_Rle, Qle_bool_iff. assumption.
Qed.

Lemma lookup_set (d : PyDict.t EntryDict) i e k :
  PyDict.get (PyDict.set d i e) k
  = if String.eqb i k then Some e else PyDict.get d k.
Proof.
  destruct (String.eqb i k) eqn:E.
  - apply String.eqb_eq in E. subst k. apply PyDictFacts.get_set_eq.
  - apply String.eqb_neq in E. apply PyDictFacts.get_set_neq. exact E.
Qed.

Lemma increment_reuse_missing cfg env i c :
  lookup c i = None -> increment_reuse cfg env i c = (Ok false, c).
Proof.
  intros Hn. destruct c as [s vs]. unfold lookup in Hn. simpl in Hn.
  unfold increment_reuse, bind, storage_call, Memory.increment_reuse. simpl.
  rewrite Hn. reflexivity.
Qed.

Lemma increment_reuse_spec cfg env i c e :
  lookup c i = Some e ->
  data_of (snd (increment_reuse cfg env i c))
  = PyDict.set (data_of c) i (bump_reuse (now env) e)
  /\ _vector_store (snd (increment_reuse cfg env i c)) = _vector_store c
  /\ (forall sc, entry_score cfg env (bump_reuse (now env) e) = Some sc ->
        fst (increment_reuse cfg env i c) = Ok true).
Proof.
  intros He. destruct c as [s vs]. unfold lookup, data_of in *. simpl in *.
  unfold increment_reuse, bind, storage_call, Memory.increment_reuse,
    Memory.get, Memory.update_score. simpl.
  rewrite He. simpl. rewrite PyDictFacts.get_set_eq.
  unfold _compute_entry_score, entry_score, from_dict.
  fold (bump_reuse (now env) e).
  destruct (Scoring.compute_weighted_score _ _ _ _ _ _ _) as [sc|]; simpl.
  - unfold PyDict.contains. rewrite PyDictFacts.get_set_eq. simpl.
    repeat split. 
  - repeat split. discriminate.
Qed.

Lemma increment_context_missing cfg env i c :
  lookup c i = None -> increment_context cfg env i c = (Ok false, c).
Proof.
  intros Hn. destruct c as [s vs]. unfold lookup in Hn. simpl in Hn.
  unfold increment_context, bind, storage_call, Memory.increment_context.
  simpl. rewrite Hn. reflexivity.
Qed.

Lemma increment_context_spec cfg env i c e :
  lookup c i = Some e ->
  data_of (snd (increment_context cfg env i c))
  = PyDict.set (data_of c) i (bump_context (now env) e)
  /\ _vector_store (snd (increment_context cfg env i c)) = _vector_store c
  /\ (forall sc, entry_score cfg env (bump_context (now env) e) = Some sc ->
        fst (increment_context cfg env i c) = Ok true).
Proof.
  intros He. destruct c as [s vs]. unfold lookup, data_of in *. simpl in *.
  unfold increment_context, bind, storage_call, Memory.increment_context,
    Memory.get, Memory.update_score. simpl.
  rewrite He. simpl. rewrite PyDictFacts.get_set_eq.
  unfold _compute_entry_score, entry_score, from_dict.
  fold (bump_context (now env) e).
  destruct (Scoring.compute_weighted_score _ _ _ _ _ _ _) as [sc|]; simpl.
  - unfold PyDict.contains. rewrite PyDictFacts.get_set_eq. simpl.
    repeat split.
  - repeat split. discriminate.
Qed.

Lemma decrement_reference_spec i c :
  data_of (snd (storage_call (Memory.decrement_reference i) c))
  = match lookup c i with
    | Some e => PyDict.set (data_of c) i (drop_reference e)
    | None => data_of c
    end.
Proof.
  destruct c as [s vs]. unfold lookup, data_of, storage_call,
    Memory.decrement_reference, drop_reference. simpl.
  destruct (PyDict.get (Memory._data s) i) as [e|] eqn:He; [|reflexivity].
  destruct (0 <? reuse_count e)%Z; [reflexivity|].
  destruct (0 <? provide_context_count e)%Z; [reflexivity|].
  simpl. symmetry. clear - He.
  induction (Memory._data s) as [|[k v] d IH]; simpl in *; [discriminate|].
  destruct (String.eqb i k) eqn:E.
  - injection He as ->. reflexivity.
  - rewrite IH by exact He. reflexivity.
Qed.

(* ------------------------------------------------------------------ *)
(** ** The invariant of a cache and the calls that keep it *)

Definition inv (cfg : CacheConfig) (c : ToolCache) : Prop :=
  wf c /\ ids_consistent c /\ counters_nonneg c
  /\ ((0 <= max_cache_size cfg)%Z ->
      (Z.of_nat (size c) <= max_cache_size cfg)%Z).

Lemma inv_init cfg : inv cfg init.
Proof.
  split; [apply wf_init|].
  split; [intros k e H; discriminate|].
  split; [intros k e H; discriminate|]. simpl. auto.
Qed.

Lemma inv_of_mono cfg c c' : wf c' -> mono c c' -> inv cfg c -> inv cfg c'.
Proof.
  intros Hwf Hm [_ [Hi [Hn Hs]]]. split; [exact Hwf|].
  split; [eapply mono_ids_consistent; eauto|].
  split; [eapply mono_counters_nonneg; eauto|].
  intros Hmax. specialize (Hs Hmax). destruct Hm as [_ Hsz]. lia.
Qed.

Lemma mono_of_storage_eq c c' : _storage c' = _storage c -> mono c c'.
Proof. apply mono_of_same_storage. Qed.

Lemma wf_put c key e sc :
  MemoryFacts.wf (_storage c) -> MemoryFacts.wf (_storage (put c key e sc)).
Proof.
  intros H. unfold put. simpl.
  apply (MemoryFacts.backend_wf_set key e sc H).
Qed.

Lemma updated_entry_fields env out ok d :
  id (updated_entry env out ok d) = id d
  /\ reuse_count (updated_entry env out ok d) = reuse_count d
  /\ provide_context_count (updated_entry env out ok d)
     = provide_context_count d
  /\ output (updated_entry env out ok d) = out
  /\ success (updated_entry env out ok d) = ok
  /\ last_accessed_at (updated_entry env out ok d) = now env.
Proof. repeat split. Qed.

Lemma save_inv cfg env tool args out ok c :
  inv cfg c -> inv cfg (snd (save cfg env tool args out ok c)).
Proof.
  intros Hinv.
  assert (Hwf' : wf (snd (save cfg env tool args out ok c)))
    by (apply wf_save; apply Hinv).
  destruct Hinv as [Hwf [Hi [Hn Hs]]].
  pose proof (save_cases cfg env tool args out ok c) as Hcase.
  destruct (save cfg env tool args out ok c) as [r c']. simpl in *.
  inversion Hcase as [r0 c0 Hst Hr | d sc Hd | sc c1 r0 c3 Hd Hst Hev]; subst.
  - apply inv_of_mono with (c := c); [exact Hwf' | | exact (conj Hwf (conj Hi (conj Hn Hs)))].
    apply mono_of_storage_eq. exact Hst.
  - split; [exact Hwf'|]. split; [|split].
    + intros k e Hk. destruct (String.string_dec (entry_key tool args) k)
        as [<- | Hne].
      * rewrite lookup_put_eq in Hk. injection Hk as <-.
        apply (Hi _ _ Hd).
      * rewrite lookup_put_neq in Hk by exact Hne. apply (Hi _ _ Hk).
    + intros k e Hk. destruct (String.string_dec (entry_key tool args) k)
        as [<- | Hne].
      * rewrite lookup_put_eq in Hk. injection Hk as <-.
        apply (Hn _ _ Hd).
      * rewrite lookup_put_neq in Hk by exact Hne. apply (Hn _ _ Hk).
    + intros Hmax. erewrite size_put_present by exact Hd. auto.
  - assert (Hd1 : lookup c1 (entry_key tool args) = None)
      by (unfold lookup; rewrite Hst; exact Hd).
    set (c2 := put c1 (entry_key tool args)
                 (fresh_entry env tool args out ok) sc) in *.
    assert (Hm : mono c2 c').
    { pose proof (mono_maybe_evict cfg env c2) as H. rewrite Hev in H.
      exact H. }
    assert (Hi2 : ids_consistent c2).
    { intros k e Hk. unfold c2 in Hk.
      destruct (String.string_dec (entry_key tool args) k) as [<- | Hne].
      - rewrite lookup_put_eq in Hk. injection Hk as <-. reflexivity.
      - rewrite lookup_put_neq in Hk by exact Hne.
        unfold lookup in Hk. rewrite Hst in Hk. apply (Hi _ _ Hk). }
    assert (Hn2 : counters_nonneg c2).
    { intros k e Hk. unfold c2 in Hk.
      destruct (String.string_dec (entry_key tool args) k) as [<- | Hne].
      - rewrite lookup_put_eq in Hk. injection Hk as <-. simpl. lia.
      - rewrite lookup_put_neq in Hk by exact Hne.
        unfold lookup in Hk. rewrite Hst in Hk. apply (Hn _ _ Hk). }
    assert (Hs2 : size c2 = S (size c)).
    { unfold c2. rewrite size_put_absent by exact Hd1.
      unfold size. rewrite Hst. reflexivity. }
    assert (Hwf2 : MemoryFacts.wf (_storage c2)).
    { unfold c2. apply wf_put. rewrite Hst. apply Hwf. }
    split; [exact Hwf'|].
    split; [eapply mono_ids_consistent; eauto|].
    split; [eapply mono_counters_nonneg; eauto|].
    intros Hmax. specialize (Hs Hmax).
    pose proof (@maybe_evict_size cfg env c2 Hwf2 Hmax) as Hev2.
    rewrite Hev in Hev2. destruct r0; lia.
Qed.

Lemma save_counters_le cfg env tool args out ok c :
  counters_le c (snd (save cfg env tool args out ok c)).
Proof.
  pose proof (save_cases cfg env tool args out ok c) as Hcase.
  destruct (save cfg env tool args out ok c) as [r c']. simpl in *.
  inversion Hcase as [r0 c0 Hst Hr | d sc Hd | sc c1 r0 c3 Hd Hst Hev]; subst.
  - apply mono_counters_le, mono_of_storage_eq. exact Hst.
  - intros k e e' Hk Hk'.
    destruct (String.string_dec (entry_key tool args) k) as [<- | Hne].
    + rewrite lookup_put_eq in Hk'. injection Hk' as <-.
      assert (d = e) by congruence. subst d.
      unfold updated_entry, from_dict. simpl. lia.
    + rewrite lookup_put_neq in Hk' by exact Hne.
      assert (e' = e) by congruence. subst e'. lia.
  - intros k e e' Hk Hk'.
    pose proof (mono_maybe_evict cfg env
                  (put c1 (entry_key tool args)
                     (fresh_entry env tool args out ok) sc)) as Hm.
    rewrite Hev in Hm. simpl in Hm. destruct Hm as [Hm _].
    destruct (Hm _ _ Hk') as [e0 [Hk0 [_ [Hr Hx]]]].
    destruct (String.string_dec (entry_key tool args) k) as [<- | Hne].
    + congruence.
    + rewrite lookup_put_neq in Hk0 by exact Hne.
      unfold lookup in Hk0. rewrite Hst in Hk0.
      assert (e0 = e) by (unfold lookup in Hk; congruence). subst e0. lia.
Qed.

Lemma decrement_inv cfg i c :
  inv cfg c ->
  inv cfg (snd (storage_call (Memory.decrement_reference i) c)).
Proof.
  intros [Hwf [Hi [Hn Hs]]].
  pose proof (decrement_reference_spec i c) as Hd.
  set (c' := snd (storage_call (Memory.decrement_reference i) c)) in *.
  assert (Hwf' : wf c').
  { apply (@wf_storage_call _ (Memory.decrement_reference i));
      [intros s; apply MemoryFacts.backend_wf_decrement_reference | exact Hwf]. }
  split; [exact Hwf'|].
  destruct (lookup c i) as [e|] eqn:He.
  - assert (Hl : forall k, lookup c' k
                 = if String.eqb i k then Some (drop_reference e)
                   else lookup c k).
    { intros k. unfold lookup at 1. fold (data_of c'). rewrite Hd.
      apply lookup_set. }
    destruct (Hn _ _ He) as [Hr Hx].
    assert (Hdrop : id (drop_reference e) = id e
              /\ (0 <= reuse_count (drop_reference e))%Z
              /\ (0 <= provide_context_count (drop_reference e))%Z).
    { unfold drop_reference.
      destruct (0 <? reuse_count e)%Z eqn:E1;
        [apply Z.ltb_lt in E1; simpl; repeat split; lia|].
      destruct (0 <? provide_context_count e)%Z eqn:E2;
        [apply Z.ltb_lt in E2; simpl; repeat split; lia|].
      repeat split; assumption. }
    split; [|split].
    + intros k x Hk. rewrite Hl in Hk. destruct (String.eqb i k) eqn:E.
      * apply String.eqb_eq in E. subst k. injection Hk as <-.
        destruct Hdrop as [-> _]. apply (Hi _ _ He).
      * apply (Hi _ _ Hk).
    + intros k x Hk. rewrite Hl in Hk. destruct (String.eqb i k) eqn:E.
      * injection Hk as <-. tauto.
      * apply (Hn _ _ Hk).
    + unfold size. fold (data_of c'). rewrite Hd.
      rewrite PyDictFacts.length_set_present;
        [exact Hs | eapply PyDictFacts.get_In; exact He].
  - assert (Hl : forall k, lookup c' k = lookup c k).
    { intros k. unfold lookup at 1. fold (data_of c'). rewrite Hd.
      reflexivity. }
    split; [|split].
    + intros k x Hk. rewrite Hl in Hk. apply (Hi _ _ Hk).
    + intros k x Hk. rewrite Hl in Hk. apply (Hn _ _ Hk).
    + unfold size. fold (data_of c'). rewrite Hd. exact Hs.
Qed.

(** Every call but [save] and [decrement_reference] adds no entry and
    lowers no counter. *)
Lemma run_call_mono cfg env call c :
  match call with
  | Trace.CallSave _ _ _ _ | Trace.CallDecrementReference _ => True
  | _ => mono c (Trace.run_call cfg env call c)
  end.
Proof.
  destruct call; simpl; try exact I.
  - apply mono_search.
  - apply mono_get_best_match.
  - apply mono_increment_reuse.
  - apply mono_increment_context.
  - apply mono_increment_reuse.
  - apply mono_decide.
  - apply mono_stats.
  - apply mono_clear.
Qed.

Lemma run_call_wf cfg env call c : wf c -> wf (Trace.run_call cfg env call c).
Proof.
  destruct call; simpl.
  - apply wf_search.
  - apply wf_get_best_match.
  - apply wf_save.
  - apply wf_increment_reuse.
  - apply wf_increment_context.
  - apply wf_increment_reuse.
  - apply wf_decide.
  - apply (@wf_storage_call _ (Memory.decrement_reference entry_id)).
    intros s. apply MemoryFacts.backend_wf_decrement_reference.
  - apply wf_stats.
  - apply wf_clear.
Qed.

Lemma run_call_inv cfg env call c :
  inv cfg c -> inv cfg (Trace.run_call cfg env call c).
Proof.
  intros Hinv.
  pose proof (run_call_mono cfg env call c) as Hm.
  pose proof (@run_call_wf cfg env call c (proj1 Hinv)) as Hwf.
  destruct call;
    try (apply inv_of_mono with (c := c); [exact Hwf | exact Hm | exact Hinv]).
  - apply save_inv; assumption.
  - apply decrement_inv. exact Hinv.
Qed.

Lemma run_inv cfg calls c :
  inv cfg c -> inv cfg (Trace.run cfg calls c).
Proof.
  revert c. induction calls as [|[env call] rest IH];
    intros c Hinv; simpl; [exact Hinv|].
  apply IH. apply run_call_inv; assumption.
Qed.

(* ------------------------------------------------------------------ *)
(** ** Eviction only removes *)

(** Every entry of the later state is the same entry of the earlier one. *)
Definition kept (c c' : ToolCache) : Prop :=
  forall k e, lookup c' k = Some e -> lookup c k = Some e.

Lemma kept_refl c : kept c c.
Proof. intros k e H. exact H. Qed.

Lemma kept_trans a b c : kept a b -> kept b c -> kept a c.
Proof. unfold kept. auto. Qed.

Lemma kept_vector_delete env ids : respects kept (vector_delete env ids).
Proof.
  unfold vector_delete. destruct (vector_delete_raises env).
  - apply respects_raise, kept_refl.
  - intros c k e H. exact H.
Qed.

Lemma kept_delete key : respects kept (storage_call (Memory.delete key)).
Proof.
  intros c k e H. unfold lookup in *. simpl in H.
  eapply PyDictFacts.get_pop_Some. exact H.
Qed.

Lemma kept_evict_entry env i : respects kept (_evict_entry env i).
Proof.
  unfold _evict_entry. respects_structure kept_refl kept_trans.
  - apply kept_delete.
  - apply kept_vector_delete.
Qed.

Lemma kept_maybe_evict cfg env : respects kept (_maybe_evict cfg env).
Proof.
  unfold _maybe_evict. respects_structure kept_refl kept_trans;
    apply kept_evict_entry.
Qed.

(* ------------------------------------------------------------------ *)
(** ** The hits of a search *)

(** The key under which the entry of a hit is looked up again. *)
Definition hit_key (h : CacheHit) : string := id (entry h).

Lemma search_loop_spec cfg env results :
  forall hits c out c',
  ids_consistent c ->
  NoDup (map fst results) ->
  search_loop cfg env results hits c = (Ok out, c') ->
  exists extra,
    out = hits ++ extra
    /\ Forall (fun h => lookup c (hit_key h) = Some (entry h)
                        /\ In (hit_key h) (map fst results)) extra
    /\ NoDup (map hit_key extra).
Proof.
  induction results as [|[entry_id distance] rest IH];
    intros hits c out c' Hids Hnd Hrun; simpl in Hrun.
  - injection Hrun as <- <-. exists []. rewrite app_nil_r.
    repeat split; constructor.
  - inversion Hnd as [|? ? Hnotin Hnd']; subst.
    unfold bind at 1 in Hrun. unfold storage_call at 1 in Hrun.
    simpl in Hrun.
    destruct (PyDict.get (Memory._data (_storage c)) entry_id)
      as [d|] eqn:Hd.
    + unfold from_dict in Hrun.
      destruct (Qltb (1 - distance) (similarity_threshold cfg)).
      * assert (Hids1 : ids_consistent
                  {| _storage := _storage c;
                     _vector_store := _vector_store c |}) by exact Hids.
        destruct (IH _ _ _ _ Hids1 Hnd' Hrun) as [extra [-> [Hall Hnd2]]].
        exists extra. split; [reflexivity|]. split; [|exact Hnd2].
        eapply Forall_impl; [|exact Hall].
        intros h [H1 H2]. split; [exact H1 | right; exact H2].
      * unfold bind at 1 in Hrun. unfold _compute_entry_score in Hrun.
        destruct (Scoring.compute_weighted_score _ _ _ _ _ _ _) as [ws|];
          [|discriminate]. unfold ret at 1 in Hrun.
        assert (Hids1 : ids_consistent
                  {| _storage := _storage c;
                     _vector_store := _vector_store c |}) by exact Hids.
        destruct (IH _ _ _ _ Hids1 Hnd' Hrun) as [extra [-> [Hall Hnd2]]].
        exists ({| entry := d; similarity := (1 - distance)%Q;
                   weighted_score := ws |} :: extra).
        rewrite <- app_assoc. split; [reflexivity|].
        assert (Hkey : id d = entry_id) by (apply (Hids _ _ Hd)).
        split.
        -- constructor.
           ++ unfold hit_key. simpl. rewrite Hkey.
              split; [exact Hd | left; reflexivity].
           ++ eapply Forall_impl; [|exact Hall].
              intros h [H1 H2]. split; [exact H1 | right; exact H2].
        -- simpl. constructor; [|exact Hnd2].
           unfold hit_key at 1. simpl. rewrite Hkey.
           intros Hin. apply Hnotin. apply in_map_iff in Hin.
           destruct Hin as [h [Hh Hin]].
           rewrite Forall_forall in Hall. destruct (Hall _ Hin) as [_ H2].
           rewrite Hh in H2. exact H2.
    + unfold bind at 1 in Hrun.
      match type of Hrun with
      | context [try_except ?m ?h ?c0] =>
          destruct (try_except m h c0) as [[u|x] c1] eqn:Htry;
          [|discriminate];
          assert (Hst : _storage c1 = _storage c)
      end.
      { match type of Htry with
        | try_except ?m ?h ?c0 = _ =>
            assert (Hr : respects same_storage (try_except m h))
              by (respects_structure same_storage_refl same_storage_trans;
                  apply same_storage_vector_delete);
            specialize (Hr c0); rewrite Htry in Hr; exact Hr
        end. }
      assert (Hids1 : ids_consistent c1).
      { intros k e Hk. unfold lookup in Hk. rewrite Hst in Hk.
        apply (Hids _ _ Hk). }
      destruct (IH _ _ _ _ Hids1 Hnd' Hrun) as [extra [-> [Hall Hnd2]]].
      exists extra. split; [reflexivity|]. split; [|exact Hnd2].
      eapply Forall_impl; [|exact Hall].
      intros h [H1 H2]. unfold lookup in H1. rewrite Hst in H1.
      split; [exact H1 | right; exact H2].
Qed.

Lemma search_spec cfg env tool args k c hits c' :
  wf c -> ids_consistent c ->
  search cfg env tool args k c = (Ok hits, c') ->
  Forall (fun h => lookup c (hit_key h) = Some (entry h)) hits
  /\ NoDup (map hit_key hits)
  /\ _storage c' = _storage c.
Proof.
  intros Hwf Hids Hrun.
  assert (Hst : _storage c' = _storage c).
  { pose proof (same_storage_search cfg env tool args k c) as H.
    rewrite Hrun in H. exact H. }
  split; [|split; [|exact Hst]].
  - unfold search, bind, vector_search in Hrun.
    destruct (vquery _ _ _ _) as [|r0 results] eqn:Hq.
    + injection Hrun as <- <-. constructor.
    + rewrite <- Hq in Hrun.
      destruct (search_loop cfg env _ [] c) as [[out|x] c1] eqn:Hloop;
        [|discriminate].
      injection Hrun as <- <-.
      assert (Hnd : NoDup (map fst (vquery (_vector_store c)
                 (embed (Utils.serialize_args args))
                 match k with
                 | Some k' => if (k' =? 0)%Z then top_k cfg else k'
                 | None => top_k cfg
                 end tool))) by (apply vquery_NoDup, Hwf).
      destruct (search_loop_spec _ _ _ _ Hids Hnd Hloop)
        as [extra [-> [Hall _]]].
      simpl. rewrite Forall_forall. intros h Hin.
      apply PySortFacts.sort_In in Hin.
      rewrite Forall_forall in Hall. apply (Hall _ Hin).
  - unfold search, bind, vector_search in Hrun.
    destruct (vquery _ _ _ _) as [|r0 results] eqn:Hq.
    + injection Hrun as <- <-. constructor.
    + rewrite <- Hq in Hrun.
      destruct (search_loop cfg env _ [] c) as [[out|x] c1] eqn:Hloop;
        [|discriminate].
      injection Hrun as <- <-.
      assert (Hnd : NoDup (map fst (vquery (_vector_store c)
                 (embed (Utils.serialize_args args))
                 match k with
                 | Some k' => if (k' =? 0)%Z then top_k cfg else k'
                 | None => top_k cfg
                 end tool))) by (apply vquery_NoDup, Hwf).
      destruct (search_loop_spec _ _ _ _ Hids Hnd Hloop)
        as [extra [-> [_ Hnd2]]].
      simpl. apply PySortFacts.sort_map_NoDup. exact Hnd2.
Qed.

(* ------------------------------------------------------------------ *)
(** ** The decision *)

(** The two counters of the entry stored under a key. *)
Definition counters (c : ToolCache) (k : string) : option (Z * Z) :=
  option_map (fun e => (reuse_count e, provide_context_count e)) (lookup c k).

Definition execute_result : Wrapper.DecisionResult :=
  {| Wrapper.decision := Wrapper.EXECUTE; Wrapper.cache_hit := None;
     Wrapper.context_hints := None |}.

Definition reuse_result (best : CacheHit) : Wrapper.DecisionResult :=
  {| Wrapper.decision := Wrapper.REUSE; Wrapper.cache_hit := Some best;
     Wrapper.context_hints := None |}.

Definition context_result (hints : list CacheHit) : Wrapper.DecisionResult :=
  {| Wrapper.decision := Wrapper.PROVIDE_CONTEXT; Wrapper.cache_hit := None;
     Wrapper.context_hints := Some hints |}.

(** The hints of a PROVIDE_CONTEXT decision. *)
Definition hints_of (hits : list CacheHit) : list CacheHit :=
  firstn 3 (filter (fun h => success (entry h)) hits).

Lemma lookup_data c c' k :
  data_of c' = data_of c -> lookup c' k = lookup c k.
Proof. unfold lookup, data_of. intros ->. reflexivity. Qed.

Lemma lookup_after_set c c' i e k :
  data_of c' = PyDict.set (data_of c) i e ->
  lookup c' k = if String.eqb i k then Some e else lookup c k.
Proof.
  intros H. unfold lookup. fold (data_of c') (data_of c). rewrite H.
  apply lookup_set.
Qed.

Lemma context_loop cfg env hints :
  forall c,
  validate cfg = true ->
  counters_nonneg c ->
  NoDup (map hit_key hints) ->
  (forall h, In h hints -> lookup c (hit_key h) <> None) ->
  exists c',
    for_each hints
      (fun hit => bind (increment_context cfg env (id (entry hit)))
                    (fun _ => ret tt)) c = (Ok tt, c')
    /\ forall k,
         (In k (map hit_key hints) ->
          exists e, lookup c k = Some e
                    /\ lookup c' k = Some (bump_context (now env) e))
         /\ (~ In k (map hit_key hints) -> lookup c' k = lookup c k).
Proof.
  induction hints as [|h rest IH]; intros c Hv Hn Hnd Hex; simpl.
  - exists c. split; [reflexivity|]. intros k. split; [intros []|reflexivity].
  - inversion Hnd as [|? ? Hnotin Hnd']; subst.
    destruct (lookup c (hit_key h)) as [e|] eqn:He;
      [|exfalso; apply (Hex h); [left; reflexivity | exact He]].
    destruct (@increment_context_spec cfg env (hit_key h) c e He)
      as [Hdata [_ Hok]].
    destruct (Hn _ _ He) as [Hr Hx].
    destruct (@entry_score_defined cfg env (bump_context (now env) e) Hv)
      as [sc Hsc]; [simpl; lia | simpl; lia |].
    specialize (Hok sc Hsc).
    change (id (entry h)) with (hit_key h).
    destruct (increment_context cfg env (hit_key h) c) as [r c1] eqn:Hinc.
    simpl in Hdata, Hok. subst r.
    assert (Hl1 : forall k, lookup c1 k
                = if String.eqb (hit_key h) k
                  then Some (bump_context (now env) e) else lookup c k)
      by (intros k; apply lookup_after_set; exact Hdata).
    assert (Hn1 : counters_nonneg c1).
    { intros k x Hk. rewrite Hl1 in Hk.
      destruct (String.eqb (hit_key h) k).
      - injection Hk as <-. simpl. lia.
      - apply (Hn _ _ Hk). }
    assert (Hex1 : forall h', In h' rest -> lookup c1 (hit_key h') <> None).
    { intros h' Hin. rewrite Hl1.
      destruct (String.eqb (hit_key h) (hit_key h')); [discriminate|].
      apply Hex. right. exact Hin. }
    destruct (IH c1 Hv Hn1 Hnd' Hex1) as [c' [Hrun Hfin]].
    exists c'. split.
    + unfold bind at 1. unfold bind at 1. rewrite Hinc. unfold ret at 1.
      exact Hrun.
    + intros k. destruct (Hfin k) as [Hin Hout]. split.
      * intros [Hk | Hk].
        -- subst k. exists e. split; [exact He|].
           rewrite (Hout Hnotin), Hl1, String.eqb_refl. reflexivity.
        -- destruct (Hin Hk) as [x [Hx1 Hx2]]. exists x.
           split; [|exact Hx2]. rewrite Hl1 in Hx1.
           destruct (String.eqb (hit_key h) k) eqn:E; [|exact Hx1].
           apply String.eqb_eq in E. subst k. contradiction.
      * intros Hnot. rewrite Hout by tauto. rewrite Hl1.
        destruct (String.eqb (hit_key h) k) eqn:E; [|reflexivity].
        apply String.eqb_eq in E. subst k. exfalso. apply Hnot. left.
        reflexivity.
Qed.

Lemma filter_nonempty_existsb (A : Type) (p : A -> bool) l :
  existsb p l = true <-> filter p l <> [].
Proof.
  induction l as [|x l IH]; simpl.
  - split; [discriminate | congruence].
  - destruct (p x); simpl; [split; [discriminate | reflexivity]|].
    exact IH.
Qed.

Lemma hints_of_spec c hits :
  Forall (fun h => lookup c (hit_key h) = Some (entry h)) hits ->
  NoDup (map hit_key hits) ->
  NoDup (map hit_key (hints_of hits))
  /\ forall h, In h (hints_of hits) -> lookup c (hit_key h) = Some (entry h).
Proof.
  intros Hall Hnd. unfold hints_of. split.
  - rewrite <- firstn_map. apply ListFacts.NoDup_firstn.
    apply NoDup_map_filter. exact Hnd.
  - intros h Hin. apply ListFacts.In_firstn in Hin.
    apply filter_In in Hin. rewrite Forall_forall in Hall.
    apply Hall. tauto.
Qed.

(** The part of [decide] that follows the search. *)
Definition decide_hits (icfg ccfg : CacheConfig) (env : Env)
    (hits : list CacheHit) : M Wrapper.DecisionResult :=
  match hits with
  | [] => ret execute_result
  | best_hit :: _ =>
      if Qle_bool (reuse_threshold icfg) (similarity best_hit) then
        bind (increment_reuse ccfg env (id (entry best_hit)))
             (fun _ => ret (reuse_result best_hit))
      else if Qle_bool (similarity_threshold icfg) (similarity best_hit) then
        match filter (fun h => success (entry h)) hits with
        | _ :: _ =>
            bind (for_each (hints_of hits)
                    (fun hit =>
                       bind (increment_context ccfg env (id (entry hit)))
                            (fun _ => ret tt)))
                 (fun _ => ret (context_result (hints_of hits)))
        | [] => ret execute_result
        end
      else ret execute_result
  end.

Lemma decide_unfold icfg ccfg env tool args c :
  Wrapper.decide icfg ccfg env tool args c
  = match search ccfg env tool args None c with
    | (Ok hits, c1) => decide_hits icfg ccfg env hits c1
    | (Raise x, c1) => (Raise x, c1)
    end.
Proof.
  unfold Wrapper.decide. unfold bind at 1.
  destruct (search ccfg env tool args None c) as [[hits|x] c1];
    reflexivity.
Qed.

(** The decision, given what the search returned. *)
Lemma decide_after_search icfg ccfg env tool args c hits c1 :
  wf c -> ids_consistent c -> counters_nonneg c -> validate ccfg = true ->
  search ccfg env tool args None c = (Ok hits, c1) ->
  match hits with
  | [] => Wrapper.decide icfg ccfg env tool args c = (Ok execute_result, c1)
  | best :: _ =>
      if Qle_bool (reuse_threshold icfg) (similarity best) then
        exists c2,
          Wrapper.decide icfg ccfg env tool args c
          = (Ok (reuse_result best), c2)
          /\ lookup c (hit_key best) = Some (entry best)
          /\ lookup c2 (hit_key best)
             = Some (bump_reuse (now env) (entry best))
          /\ forall k, k <> hit_key best -> lookup c2 k = lookup c k
      else if Qle_bool (similarity_threshold icfg) (similarity best)
              && existsb (fun h => success (entry h)) hits then
        exists c2,
          Wrapper.decide icfg ccfg env tool args c
          = (Ok (context_result (hints_of hits)), c2)
          /\ forall k,
               (In k (map hit_key (hints_of hits)) ->
                exists e, lookup c k = Some e
                          /\ lookup c2 k = Some (bump_context (now env) e))
               /\ (~ In k (map hit_key (hints_of hits)) ->
                   lookup c2 k = lookup c k)
      else
        Wrapper.decide icfg ccfg env tool args c = (Ok execute_result, c1)
  end.
Proof.
  intros Hwf Hids Hn Hv Hs.
  destruct (search_spec _ _ _ _ _ Hwf Hids Hs) as [Hall [Hnd Hst]].
  assert (Hl1 : forall k, lookup c1 k = lookup c k)
    by (intros k; unfold lookup; rewrite Hst; reflexivity).
  rewrite decide_unfold, Hs.
  destruct hits as [|best rest]; [reflexivity|].
  unfold decide_hits.
  destruct (Qle_bool (reuse_threshold icfg) (similarity best)).
  - assert (Hb : lookup c (hit_key best) = Some (entry best))
      by (inversion Hall; assumption).
    assert (Hb1 : lookup c1 (hit_key best) = Some (entry best))
      by (rewrite Hl1; exact Hb).
    destruct (@increment_reuse_spec ccfg env (hit_key best) c1 _ Hb1)
      as [Hdata [_ Hok]].
    destruct (Hn _ _ Hb) as [Hr Hx].
    destruct (@entry_score_defined ccfg env
                (bump_reuse (now env) (entry best)) Hv)
      as [sc Hsc]; [simpl; lia | simpl; lia |].
    specialize (Hok sc Hsc).
    change (id (entry best)) with (hit_key best).
    destruct (increment_reuse ccfg env (hit_key best) c1) as [r c2] eqn:Hinc.
    simpl in Hdata, Hok. subst r. exists c2.
    split; [unfold bind, ret; rewrite Hinc; reflexivity|].
    split; [exact Hb|].
    assert (Hl2 : forall k, lookup c2 k
                = if String.eqb (hit_key best) k
                  then Some (bump_reuse (now env) (entry best))
                  else lookup c1 k)
      by (intros k; apply lookup_after_set; exact Hdata).
    split.
    + rewrite Hl2, String.eqb_refl. reflexivity.
    + intros k Hne. rewrite Hl2, Hl1.
      destruct (String.eqb (hit_key best) k) eqn:E; [|reflexivity].
      apply String.eqb_eq in E. congruence.
  - destruct (Qle_bool (similarity_threshold icfg) (similarity best));
      cbn [andb]; [|reflexivity].
    destruct (existsb (fun h => success (entry h)) (best :: rest)) eqn:Hex.
    + destruct (hints_of_spec c Hall Hnd) as [Hnd3 Hlk].
      assert (Hn1 : counters_nonneg c1)
        by (intros k e Hk; rewrite Hl1 in Hk; apply (Hn _ _ Hk)).
      assert (Hex1 : forall h, In h (hints_of (best :: rest)) ->
                lookup c1 (hit_key h) <> None).
      { intros h Hin. rewrite Hl1, (Hlk _ Hin). discriminate. }
      destruct (@context_loop ccfg env (hints_of (best :: rest)) c1
                  Hv Hn1 Hnd3 Hex1) as [c2 [Hrun Hfin]].
      exists c2. split.
      * apply filter_nonempty_existsb in Hex.
        destruct (filter (fun h => success (entry h)) (best :: rest))
          as [|h0 hs] eqn:Hf; [congruence|].
        unfold bind at 1. rewrite Hrun. reflexivity.
      * intros k. destruct (Hfin k) as [Hin Hout]. split.
        -- intros Hk. destruct (Hin Hk) as [e [He1 He2]].
           exists e. rewrite <- Hl1. tauto.
        -- intros Hk. rewrite (Hout Hk). apply Hl1.
    + assert (Hf : filter (fun h => success (entry h)) (best :: rest) = []).
      { destruct (filter (fun h => success (entry h)) (best :: rest))
          as [|h0 hs] eqn:Hf; [reflexivity|].
        assert (Ht : existsb (fun h => success (entry h)) (best :: rest)
                     = true)
          by (apply filter_nonempty_existsb; rewrite Hf; discriminate).
        congruence. }
      rewrite Hf. reflexivity.
Qed.

Lemma decide_search_raises icfg ccfg env tool args c x c1 :
  search ccfg env tool args None c = (Raise x, c1) ->
  Wrapper.decide icfg ccfg env tool args c = (Raise x, c1).
Proof.
  intros Hs. rewrite decide_unfold, Hs. reflexivity.
Qed.

(* ------------------------------------------------------------------ *)
(** ** A search returns *)

Lemma counters_nonneg_storage c c' :
  _storage c' = _storage c -> counters_nonneg c -> counters_nonneg c'.
Proof.
  intros Hst Hn k e Hk. unfold lookup in Hk. rewrite Hst in Hk.
  apply (Hn _ _ Hk).
Qed.

Lemma search_loop_returns cfg env results :
  forall hits c,
  validate cfg = true -> counters_nonneg c ->
  exists out c', search_loop cfg env results hits c = (Ok out, c').
Proof.
  induction results as [|[entry_id distance] rest IH];
    intros hits c Hv Hn; simpl.
  - exists hits, c. reflexivity.
  - unfold bind at 1. unfold storage_call at 1. simpl.
    assert (Hn0 : counters_nonneg
              {| _storage := _storage c; _vector_store := _vector_store c |})
      by exact Hn.
    destruct (PyDict.get (Memory._data (_storage c)) entry_id)
      as [d|] eqn:Hd.
    + unfold from_dict.
      destruct (Qltb (1 - distance) (similarity_threshold cfg));
        [apply IH; assumption|].
      unfold bind at 1. unfold _compute_entry_score.
      destruct (Hn _ _ Hd) as [Hr Hx].
      unfold validate in Hv.
      assert (Hv' := Hv).
      repeat (apply andb_prop in Hv'; destruct Hv' as [Hv' ?]).
      rewrite ScoringFacts.compute_weighted_score_defined;
        [ | exact Hr | exact Hx | ].
      * unfold ret at 1. apply IH; assumption.
      * split.
        -- rewrite <- RMicromega.Q2R_0. apply Qle_Rle, Qle_bool_iff.
           assumption.
        -- rewrite <- RMicromega.Q2R_1. apply Qle_Rle, Qle_bool_iff.
           assumption.
    + unfold bind at 1.
      match goal with
      | |- context [try_except ?m ?h ?c0] =>
          assert (Htry : exists c1, try_except m h c0 = (Ok tt, c1)
                                    /\ _storage c1 = _storage c)
      end.
      { unfold try_except, bind, storage_call, Memory.exists_. simpl.
        unfold PyDict.contains. rewrite Hd. simpl.
        unfold vector_delete. destruct (vector_delete_raises env); simpl.
        - eexists. split; reflexivity.
        - eexists. split; reflexivity. }
      destruct Htry as [c1 [-> Hst]].
      apply IH; [exact Hv|]. eapply counters_nonneg_storage; eauto.
Qed.

Lemma search_returns cfg env tool args k c :
  validate cfg = true -> counters_nonneg c ->
  exists hits c', search cfg env tool args k c = (Ok hits, c').
Proof.
  intros Hv Hn. unfold search, bind, vector_search.
  destruct (vquery _ _ _ _) as [|r0 results] eqn:Hq.
  - exists [], c. reflexivity.
  - destruct (@search_loop_returns cfg env (r0 :: results) [] c Hv Hn)
      as [out [c' Hloop]].
    rewrite Hloop. eexists _, _. reflexivity.
Qed.

(* ------------------------------------------------------------------ *)
(** ** The touch of [get_best_match] *)

Lemma touch_entry_spec cfg env i c e :
  lookup c i = Some e ->
  data_of (snd (_touch_entry cfg env i c))
  = PyDict.set (data_of c) i (with_last_accessed_at (now env) e).
Proof.
  intros He. destruct c as [s vs]. unfold lookup, data_of in *. simpl in *.
  unfold _touch_entry, bind, storage_call, Memory.update_access_time,
    Memory.get, Memory.update_score. simpl.
  rewrite He. simpl. rewrite PyDictFacts.get_set_eq.
  unfold _compute_entry_score.
  destruct (Scoring.compute_weighted_score _ _ _ _ _ _ _) as [sc|]; simpl;
    [|reflexivity].
  unfold PyDict.contains. rewrite PyDictFacts.get_set_eq. reflexivity.
Qed.

Lemma get_best_match_touches cfg env tool args c h c' :
  wf c -> ids_consistent c ->
  get_best_match cfg env tool args c = (Ok (Some h), c') ->
  exists e', lookup c' (hit_key h) = Some e'
             /\ last_accessed_at e' = now env
             /\ reuse_count e' = reuse_count (entry h)
             /\ provide_context_count e' = provide_context_count (entry h).
Proof.
  intros Hwf Hids Hrun. unfold get_best_match in Hrun.
  unfold bind at 1 in Hrun.
  destruct (search cfg env tool args (Some 1%Z) c) as [[hits|x] c1] eqn:Hs;
    [|discriminate].
  destruct (search_spec _ _ _ _ _ Hwf Hids Hs) as [Hall [_ Hst]].
  destruct hits as [|h0 rest]; [discriminate|].
  destruct (Qle_bool (similarity_threshold cfg) (similarity h0));
    [|discriminate].
  assert (Hb : lookup c1 (hit_key h0) = Some (entry h0)).
  { unfold lookup. rewrite Hst. inversion Hall; assumption. }
  pose proof (@touch_entry_spec cfg env (hit_key h0) c1 _ Hb) as Hdata.
  change (id (entry h0)) with (hit_key h0) in Hrun.
  unfold bind in Hrun.
  destruct (_touch_entry cfg env (hit_key h0) c1) as [[u|x] c2];
    [|discriminate].
  unfold ret in Hrun. injection Hrun as <- <-. simpl in Hdata.
  exists (with_last_accessed_at (now env) (entry h0)).
  split; [|repeat split].
  rewrite (@lookup_after_set c1 c2 _ _ (hit_key h0) Hdata), String.eqb_refl.
  reflexivity.
Qed.

(* ------------------------------------------------------------------ *)
(** ** The specification of the engine *)

Lemma counters_lookup c c' k :
  lookup c' k = lookup c k -> counters c' k = counters c k.
Proof. unfold counters. intros ->. reflexivity. Qed.

(** C1.  On a well-formed cache whose entries sit under their own ids and
    have counters that are not negative, with a validated cache
    configuration, the search of [decide] returns and [decide] classifies
    by its hits: no hit gives EXECUTE; a best hit at or above the reuse
    threshold gives REUSE of that hit and adds 1 to the reuse count of its
    entry and to no other counter; otherwise a best hit at or above the
    similarity threshold with some successful hit gives PROVIDE_CONTEXT
    with the first three successful hits, and adds 1 to the context count
    of the entry of each hint and to no other counter; otherwise EXECUTE,
    and no counter changes. *)
Theorem decide_classifies icfg ccfg env tool args c :
  wf c -> ids_consistent c -> counters_nonneg c -> validate ccfg = true ->
  exists hits c1,
    search ccfg env tool args None c = (Ok hits, c1)
    /\ match hits with
       | [] =>
           Wrapper.decide icfg ccfg env tool args c = (Ok execute_result, c1)
           /\ forall k, counters c1 k = counters c k
       | best :: _ =>
           if Qle_bool (reuse_threshold icfg) (similarity best) then
             exists c2 r x,
               Wrapper.decide icfg ccfg env tool args c
               = (Ok (reuse_result best), c2)
               /\ counters c (hit_key best) = Some (r, x)
               /\ counters c2 (hit_key best) = Some ((r + 1)%Z, x)
               /\ forall k, k <> hit_key best -> counters c2 k = counters c k
           else if Qle_bool (similarity_threshold icfg) (similarity best)
                   && existsb (fun h => success (entry h)) hits then
             exists c2,
               Wrapper.decide icfg ccfg env tool args c
               = (Ok (context_result (hints_of hits)), c2)
               /\ forall k,
                    (In k (map hit_key (hints_of hits)) ->
                     exists r x, counters c k = Some (r, x)
                                 /\ counters c2 k = Some (r, (x + 1)%Z))
                    /\ (~ In k (map hit_key (hints_of hits)) ->
                        counters c2 k = counters c k)
           else
             Wrapper.decide icfg ccfg env tool args c
             = (Ok execute_result, c1)
             /\ forall k, counters c1 k = counters c k
       end.
Proof.
  intros Hwf Hids Hn Hv.
  destruct (@search_returns ccfg env tool args None c Hv Hn)
    as [hits [c1 Hs]].
  exists hits, c1. split; [exact Hs|].
  destruct (search_spec _ _ _ _ _ Hwf Hids Hs) as [_ [_ Hst]].
  assert (Hc1 : forall k, counters c1 k = counters c k).
  { intros k. apply counters_lookup. unfold lookup. rewrite Hst.
    reflexivity. }
  pose proof (@decide_after_search icfg ccfg env tool args c hits c1
                Hwf Hids Hn Hv Hs) as Hd.
  destruct hits as [|best rest]; [split; assumption|].
  destruct (Qle_bool (reuse_threshold icfg) (similarity best)).
  - destruct Hd as [c2 [Hdec [Hb [Hb2 Hother]]]].
    exists c2, (reuse_count (entry best)),
      (provide_context_count (entry best)).
    split; [exact Hdec|]. unfold counters.
    split; [rewrite Hb; reflexivity|].
    split; [rewrite Hb2; reflexivity|].
    intros k Hne. rewrite (Hother k Hne). reflexivity.
  - destruct (Qle_bool (similarity_threshold icfg) (similarity best)
              && existsb (fun h => success (entry h)) (best :: rest)).
    + destruct Hd as [c2 [Hdec Hfin]]. exists c2. split; [exact Hdec|].
      intros k. destruct (Hfin k) as [Hin Hout]. split.
      * intros Hk. destruct (Hin Hk) as [e [He1 He2]].
        exists (reuse_count e), (provide_context_count e).
        unfold counters. rewrite He1, He2. split; reflexivity.
      * intros Hk. apply counters_lookup. apply (Hout Hk).
    + split; assumption.
Qed.

Lemma fresh_entry_score cfg env tool args out ok :
  exists sc, entry_score cfg env (fresh_entry env tool args out ok) = Some sc.
Proof.
  unfold entry_score. eexists.
  apply Scoring.compute_weighted_score_Some.
  unfold Scoring.weighted_count. simpl. lra.
Qed.

(** C3, as the code has it.  When the entry is still stored after the
    first [save] (it was there before, or it was created and the eviction
    pass of that [save] did not select it), a second [save] of the same call
    whose durable write does not fail returns, and the store then holds
    exactly one entry under the deterministic id: the returned one, with the
    second output and success flag and with the counters the entry had
    before the first [save] (zero when it did not exist). *)
Theorem save_twice_one_entry cfg env1 env2 tool args out1 ok1 out2 ok2 c :
  wf c -> counters_nonneg c -> validate cfg = true ->
  storage_set_raises env2 = false ->
  lookup (snd (save cfg env1 tool args out1 ok1 c)) (entry_key tool args)
  <> None ->
  exists e2 c2,
    save cfg env2 tool args out2 ok2 (snd (save cfg env1 tool args out1 ok1 c))
    = (Ok e2, c2)
    /\ lookup c2 (entry_key tool args) = Some e2
    /\ count_occ String.string_dec (fst (Memory.keys (_storage c2)))
         (entry_key tool args) = 1%nat
    /\ output e2 = out2 /\ success e2 = ok2
    /\ (reuse_count e2, provide_context_count e2)
       = match lookup c (entry_key tool args) with
         | Some e0 => (reuse_count e0, provide_context_count e0)
         | None => (0, 0)%Z
         end.
Proof.
  intros Hwf Hn Hv Hset Hstored.
  assert (Hwf1 : wf (snd (save cfg env1 tool args out1 ok1 c)))
    by (apply wf_save; exact Hwf).
  pose proof (save_cases cfg env1 tool args out1 ok1 c) as Hcase.
  destruct (save cfg env1 tool args out1 ok1 c) as [r1 c1]. simpl in *.
  destruct (lookup c1 (entry_key tool args)) as [d1|] eqn:Hd1;
    [clear Hstored | contradiction].
  assert (Hcnt : (reuse_count d1, provide_context_count d1)
                 = match lookup c (entry_key tool args) with
                   | Some e0 => (reuse_count e0, provide_context_count e0)
                   | None => (0, 0)%Z
                   end
                 /\ (0 <= reuse_count d1)%Z
                 /\ (0 <= provide_context_count d1)%Z).
  { inversion Hcase as [r0 c0 Hst Hr | d sc Hd | sc c0 r0 c3 Hd Hst Hev];
      subst.
    - unfold lookup in Hd1. rewrite Hst in Hd1.
      fold (lookup c (entry_key tool args)) in Hd1.
      rewrite Hd1. split; [reflexivity | apply (Hn _ _ Hd1)].
    - rewrite lookup_put_eq in Hd1. injection Hd1 as <-. rewrite Hd.
      split; [reflexivity | apply (Hn _ _ Hd)].
    - pose proof (kept_maybe_evict cfg env1
                    (put c0 (entry_key tool args)
                       (fresh_entry env1 tool args out1 ok1) sc)) as Hk.
      rewrite Hev in Hk. simpl in Hk. apply Hk in Hd1.
      rewrite lookup_put_eq in Hd1. injection Hd1 as <-. rewrite Hd.
      simpl. split; [reflexivity | lia]. }
  destruct Hcnt as [Hcnt [Hr Hx]].
  destruct (@entry_score_defined cfg env2 (updated_entry env2 out2 ok2 d1) Hv)
    as [sc Hsc]; [exact Hr | exact Hx |].
  rewrite (@save_existing cfg env2 tool args out2 ok2 c1 d1 Hd1), Hsc, Hset.
  eexists _, _. split; [reflexivity|].
  split; [apply lookup_put_eq|].
  split; [|split; [reflexivity | split; [reflexivity | exact Hcnt]]].
  apply NoDup_count_occ'.
  - apply (@wf_put c1 (entry_key tool args)
             (updated_entry env2 out2 ok2 d1) sc (proj1 Hwf1)).
  - simpl. eapply PyDictFacts.get_In. apply PyDictFacts.get_set_eq.
Qed.

(** C4, as the code has it.  When the durable write of a new entry raises,
    [save] raises that storage error, the durable store is as before the
    call, and the vector index is the index after the add with the id
    deleted again, unless that delete itself fails, in which case the
    failure is swallowed and the index keeps the record.  When the delete
    does not fail, the id is not in the vector index after the call. *)
Theorem failed_write_rolls_back cfg env tool args out ok c :
  lookup c (entry_key tool args) = None ->
  storage_set_raises env = true ->
  save cfg env tool args out ok c
  = (Raise StorageError,
     let c1 := snd (vector_add (entry_key tool args)
                      (embed (Utils.serialize_args args))
                      (Utils.serialize_args args) tool c) in
     if vector_delete_raises env then c1
     else snd (vector_delete env [entry_key tool args] c1))
  /\ _storage (snd (save cfg env tool args out ok c)) = _storage c
  /\ (vector_delete_raises env = false ->
      ~ In (entry_key tool args)
          (map (@vid Embedding)
             (_vector_store (snd (save cfg env tool args out ok c))))).
Proof.
  intros Hd Hset.
  destruct (fresh_entry_score cfg env tool args out ok) as [sc Hsc].
  rewrite (@save_new cfg env tool args out ok c Hd), Hsc, Hset.
  cbv zeta. unfold try_except, vector_delete.
  destruct (vector_delete_raises env) eqn:Hdel; simpl.
  - split; [reflexivity|]. split; [reflexivity | discriminate].
  - split; [reflexivity|]. split; [reflexivity|]. intros _ Hin.
    apply in_map_iff in Hin. destruct Hin as [r [Hr Hin]].
    apply filter_In in Hin. destruct Hin as [_ Hf].
    rewrite Hr, String.eqb_refl in Hf. discriminate.
Qed.


(** C6, as the code has it.  An existence check leaves the backend as it
    is.  Incrementing the reuse counter or the context counter of a stored
    entry sets its [last_accessed_at] to the current instant, and so does
    the touch of [get_best_match] on the hit it returns.  A [search] leaves
    the durable store as it is: an entry returned as a search hit keeps its
    [last_accessed_at]. *)
Theorem last_accessed_updates :
  (forall key s, snd (Memory.exists_ key s) = s)
  /\ (forall cfg env i c e,
        lookup c i = Some e ->
        exists e',
          lookup (snd (increment_reuse cfg env i c)) i = Some e'
          /\ last_accessed_at e' = now env
          /\ reuse_count e' = (reuse_count e + 1)%Z)
  /\ (forall cfg env i c e,
        lookup c i = Some e ->
        exists e',
          lookup (snd (increment_context cfg env i c)) i = Some e'
          /\ last_accessed_at e' = now env
          /\ provide_context_count e' = (provide_context_count e + 1)%Z)
  /\ (forall cfg env tool args c h c',
        wf c -> ids_consistent c ->
        get_best_match cfg env tool args c = (Ok (Some h), c') ->
        exists e',
          lookup c' (hit_key h) = Some e' /\ last_accessed_at e' = now env)
  /\ (forall cfg env tool args k c,
        _storage (snd (search cfg env tool args k c)) = _storage c).
Proof.
  split; [reflexivity|]. split; [|split; [|split]].
  - intros cfg env i c e He.
    destruct (@increment_reuse_spec cfg env i c e He) as [Hdata _].
    exists (bump_reuse (now env) e).
    rewrite (@lookup_after_set c _ i _ i Hdata), String.eqb_refl.
    repeat split.
  - intros cfg env i c e He.
    destruct (@increment_context_spec cfg env i c e He) as [Hdata _].
    exists (bump_context (now env) e).
    rewrite (@lookup_after_set c _ i _ i Hdata), String.eqb_refl.
    repeat split.
  - intros cfg env tool args c h c' Hwf Hids Hrun.
    destruct (@get_best_match_touches cfg env tool args c h c' Hwf Hids Hrun)
      as [e' [H1 [H2 _]]].
    exists e'. split; assumption.
  - intros cfg env tool args k c. apply same_storage_search.
Qed.

(** C7.  On a cache whose store is empty, [stats] returns a dict with five
    keys, all zero, and without the key [max_reference_count]. *)
Theorem stats_empty_lacks_max_reference_count vs :
  exists d,
    stats {| _storage := Memory.init; _vector_store := vs |}
    = (Ok d, {| _storage := Memory.init; _vector_store := vs |})
    /\ d = [ ("total_entries"%string, PyInt 0);
             ("total_reuse_count"%string, PyInt 0);
             ("total_context_count"%string, PyInt 0);
             ("total_references"%string, PyInt 0);
             ("avg_reference_count"%string, PyFloat 0) ]
    /\ PyDict.get d "max_reference_count" = None.
Proof. eexists. split; [reflexivity|]. split; reflexivity. Qed.

(** The other path of [stats], on a store that is not empty, returns the
    six keys. *)
Lemma stats_nonempty_has_six_keys c :
  fst (Memory.keys (_storage c)) <> [] ->
  exists d c',
    stats c = (Ok d, c')
    /\ PyDict.keys d
       = [ "total_entries"; "total_reuse_count"; "total_context_count";
           "total_references"; "avg_reference_count";
           "max_reference_count" ]%string.
Proof.
  intros Hne. unfold stats. unfold bind at 1. unfold storage_call at 1.
  simpl in *. destruct (PyDict.keys (Memory._data (_storage c)))
    as [|k0 ks] eqn:Hk; [congruence|].
  unfold bind.
  assert (Hloop : forall entries acc c0,
            exists acc' c1, stats_loop entries acc c0 = (Ok acc', c1)).
  { induction entries as [|key rest IH]; intros acc c0; simpl.
    - eexists _, _. reflexivity.
    - unfold bind, storage_call. simpl.
      destruct (PyDict.get (Memory._data (_storage c0)) key).
      + destruct acc as [[a b] m]. apply IH.
      + apply IH. }
  destruct (Hloop (k0 :: ks) (0, 0, 0)%Z
              {| _storage := _storage c; _vector_store := _vector_store c |})
    as [[[a b] m] [c1 ->]].
  eexists _, _. split; reflexivity.
Qed.

(** C8.  In every state that a history of calls reaches from fresh stores,
    both counters of every entry are at least zero.  From any state, a call
    other than [decrement_reference] lowers no counter of an entry that is
    stored before and after it.  [decrement_reference] on a stored entry
    takes 1 from the reuse count when that is positive, otherwise 1 from the
    context count when that is positive, otherwise nothing; it changes no
    other entry and brings no counter that was at least zero below zero. *)
Theorem counters_invariant cfg :
  (forall calls, counters_nonneg (Trace.run cfg calls init))
  /\ (forall c env call,
        Trace.is_decrement call = false ->
        counters_le c (Trace.run_call cfg env call c))
  /\ (forall c env i e,
        lookup c i = Some e ->
        exists e',
          lookup (Trace.run_call cfg env (Trace.CallDecrementReference i) c) i
          = Some e'
          /\ (if (0 <? reuse_count e)%Z then
                reuse_count e' = (reuse_count e - 1)%Z
                /\ provide_context_count e' = provide_context_count e
              else if (0 <? provide_context_count e)%Z then
                reuse_count e' = reuse_count e
                /\ provide_context_count e' = (provide_context_count e - 1)%Z
              else
                reuse_count e' = reuse_count e
                /\ provide_context_count e' = provide_context_count e)
          /\ ((0 <= reuse_count e)%Z -> (0 <= reuse_count e')%Z)
          /\ ((0 <= provide_context_count e)%Z ->
              (0 <= provide_context_count e')%Z)
          /\ forall k, k <> i ->
               lookup (Trace.run_call cfg env
                         (Trace.CallDecrementReference i) c) k
               = lookup c k).
Proof.
  split; [|split].
  - intros calls.
    apply (@run_inv cfg calls init (inv_init cfg)).
  - intros c env call Hdec.
    pose proof (run_call_mono cfg env call c) as Hm.
    destruct call; try discriminate Hdec;
      try (apply mono_counters_le; exact Hm).
    apply save_counters_le.
  - intros c env i e He. simpl.
    pose proof (decrement_reference_spec i c) as Hd. rewrite He in Hd.
    exists (drop_reference e).
    assert (Hl : forall k,
              lookup (snd (storage_call (Memory.decrement_reference i) c)) k
              = if String.eqb i k then Some (drop_reference e)
                else lookup c k)
      by (intros k; apply lookup_after_set; exact Hd).
    split; [rewrite Hl, String.eqb_refl; reflexivity|].
    unfold drop_reference.
    destruct (0 <? reuse_count e)%Z eqn:E1.
    + apply Z.ltb_lt in E1. simpl.
      repeat split; try lia.
      intros k Hne. rewrite Hl.
      destruct (String.eqb i k) eqn:E; [|reflexivity].
      apply String.eqb_eq in E. congruence.
    + destruct (0 <? provide_context_count e)%Z eqn:E2.
      * apply Z.ltb_lt in E2. simpl.
        repeat split; try lia.
        intros k Hne. rewrite Hl.
        destruct (String.eqb i k) eqn:E; [|reflexivity].
        apply String.eqb_eq in E. congruence.
      * repeat split; try lia.
        intros k Hne. rewrite Hl.
        destruct (String.eqb i k) eqn:E; [|reflexivity].
        apply String.eqb_eq in E. congruence.
Qed.

(* ------------------------------------------------------------------ *)
(** ** The scores a validated configuration produces *)

Lemma factor_in_range cfg :
  validate cfg = true -> (0 <= Q2R (reuse_context_factor cfg) <= 1)%R.
Proof.
  intros Hv. unfold validate in Hv.
  repeat (apply andb_prop in Hv; destruct Hv as [Hv ?]).
  split.
  - rewrite <- RMicromega.Q2R_0. apply Qle_Rle, Qle_bool_iff. assumption.
  - rewrite <- RMicromega.Q2R_1. apply Qle_Rle, Qle_bool_iff. assumption.
Qed.

Lemma entry_score_valid cfg env e :
  validate cfg = true ->
  (0 <= reuse_count e)%Z -> (0 <= provide_context_count e)%Z ->
  entry_score cfg env e
  = Some (Scoring.score_value (now env) (Q2R 1)
            (reuse_count e) (provide_context_count e) (last_accessed_at e)
            (Q2R (reuse_context_factor cfg)) (Q2R (time_decay_lambda cfg))).
Proof.
  intros Hv Hr Hc. unfold entry_score.
  apply ScoringFacts.compute_weighted_score_defined;
    [exact Hr | exact Hc | apply factor_in_range; exact Hv].
Qed.

Lemma compute_entry_score_valid cfg env e sim c :
  validate cfg = true ->
  (0 <= reuse_count e)%Z -> (0 <= provide_context_count e)%Z ->
  _compute_entry_score cfg env e sim c
  = (Ok (Scoring.score_value (now env) (Q2R sim)
           (reuse_count e) (provide_context_count e) (last_accessed_at e)
           (Q2R (reuse_context_factor cfg)) (Q2R (time_decay_lambda cfg))),
     c).
Proof.
  intros Hv Hr Hc. unfold _compute_entry_score.
  rewrite ScoringFacts.compute_weighted_score_defined;
    [reflexivity | exact Hr | exact Hc | apply factor_in_range; exact Hv].
Qed.

End WithCollaborators.

End CacheFacts.

(* ================================================================== *)
(** * Test doubles and concrete runs *)

(** Doubles for the collaborators, in the manner of the [MockEmbedding] of
    the test suite: arguments are their own serialization, the digest is
    the text itself, the embedding of a text is a tenth of its length, and
    the index answers by exhaustive search under the absolute difference. *)
Module Doubles.

Import Models Config Cache CacheFacts.

(** Exhaustive nearest-neighbour search: the records of the tool, by
    ascending distance, the first [k]. *)
Definition exact_query (E : Type) (distance : E -> E -> Q)
    (idx : list (VectorRecord E)) (e : E) (k : Z) (tool : string)
  : list (string * Q) :=
  let candidates := filter (fun r => String.eqb (vtool_name r) tool) idx in
  let scored := map (fun r => (vid r, distance e (vembedding r))) candidates in
  firstn (Z.to_nat k)
    (PySort.sort (fun x y => Qle_bool (snd x) (snd y)) scored).

Lemma exact_query_NoDup (E : Type) (distance : E -> E -> Q) idx e k tool :
  NoDup (map (@vid E) idx) ->
  NoDup (map fst (exact_query distance idx e k tool)).
Proof.
  intros Hnd. unfold exact_query. rewrite <- firstn_map.
  apply ListFacts.NoDup_firstn. apply PySortFacts.sort_map_NoDup.
  rewrite map_map. simpl. apply NoDup_map_filter. exact Hnd.
Qed.

Definition length_embedding (text : string) : Q :=
  inject_Z (Z.of_nat (String.length text)) / 10.

Definition abs_distance (a b : Q) : Q := Qabs (a - b).

#[export] Instance doubles : Collaborators := {|
  Args := string;
  Output := string;
  Embedding := Q;
  json_dumps := fun args => args;
  sha256_hexdigest := fun content => content;
  embed := length_embedding;
  vquery := exact_query abs_distance;
  vquery_NoDup := exact_query_NoDup abs_distance
|}.

(** A clock at the epoch, no failing collaborator. *)
Definition env0 : Env :=
  {| now := 0; uuid4 := "00000000-0000-4000-8000-000000000000";
     storage_set_raises := false; vector_delete_raises := false |}.

(** One hour later. *)
Definition env1 : Env :=
  {| now := 3600000000; uuid4 := "00000000-0000-4000-8000-000000000001";
     storage_set_raises := false; vector_delete_raises := false |}.

(** The durable write and the rollback delete both fail. *)
Definition env_failing : Env :=
  {| now := 0; uuid4 := "00000000-0000-4000-8000-000000000002";
     storage_set_raises := true; vector_delete_raises := true |}.

(** [CacheConfig(reuse_threshold=0.8)] *)
Definition cfg_reuse_08 : CacheConfig :=
  {| similarity_threshold := 75 # 100; reuse_threshold := 8 # 10;
     max_cache_size := 1000; reuse_context_factor := 6 # 10;
     time_decay_lambda := 1 # 100; top_k := 5; eviction_policy := score |}.

(** [CacheConfig(max_cache_size=1, eviction_policy="lfu")] *)
Definition cfg_lfu_1 : CacheConfig :=
  {| similarity_threshold := 75 # 100; reuse_threshold := 95 # 100;
     max_cache_size := 1; reuse_context_factor := 6 # 10;
     time_decay_lambda := 1 # 100; top_k := 5; eviction_policy := lfu |}.

(** The durable write fails, the rollback delete does not. *)
Definition env_write_fails : Env :=
  {| now := 0; uuid4 := "00000000-0000-4000-8000-000000000003";
     storage_set_raises := true; vector_delete_raises := false |}.

#[local] Arguments Scoring.compute_weighted_score : simpl never.
#[local] Arguments Scoring.score_value : simpl never.

Local Open Scope string_scope.

(** [cache.save("search", "x", "result")] on a fresh cache. *)
Definition cache_x : @ToolCache doubles :=
  Trace.run cfg_reuse_08
    [ (env0, @Trace.CallSave doubles "search" "x" "result" true) ] init.

Definition entry_x : @CacheEntry doubles :=
  @fresh_entry doubles env0 "search" "x" "result" true.

Definition record_x : VectorRecord Q :=
  {| vid := "search:x"; vembedding := length_embedding "x";
     vdocument := "x"; vtool_name := "search" |}.

(** [save("search", "a", ...)], then one reuse of that entry, under a cache
    of size 1 with the lfu policy. *)
Definition cache_a : @ToolCache doubles :=
  Trace.run cfg_lfu_1
    [ (env0, @Trace.CallSave doubles "search" "a" "first answer" true);
      (env0, @Trace.CallIncrementReuse doubles "search:a") ] init.

Definition entry_a : @CacheEntry doubles :=
  bump_reuse 0 (@fresh_entry doubles env0 "search" "a" "first answer" true).

Definition record_a : VectorRecord Q :=
  {| vid := "search:a"; vembedding := length_embedding "a";
     vdocument := "a"; vtool_name := "search" |}.

Lemma cache_x_eq :
  exists sc,
    cache_x
    = {| _storage := {| Memory._data := [("search:x", entry_x)];
                        Memory._scores := [("search:x", sc)] |};
         _vector_store := [record_x] |}.
Proof.
  eexists. unfold cache_x. simpl.
  rewrite (@save_new doubles cfg_reuse_08 env0 "search" "x" "result" true)
    by reflexivity.
  rewrite (@entry_score_valid doubles cfg_reuse_08 env0 _ eq_refl)
    by (simpl; lia).
  cbv zeta. cbn [storage_set_raises env0].
  rewrite maybe_evict_unfold. simpl. reflexivity.
Qed.

Lemma cache_x_inv : inv cfg_reuse_08 cache_x.
Proof. apply run_inv, inv_init. Qed.

Lemma cache_a_eq :
  exists sc,
    cache_a
    = {| _storage := {| Memory._data := [("search:a", entry_a)];
                        Memory._scores := [("search:a", sc)] |};
         _vector_store := [record_a] |}.
Proof.
  eexists. unfold cache_a. simpl.
  rewrite (@save_new doubles cfg_lfu_1 env0 "search" "a" "first answer" true)
    by reflexivity.
  rewrite (@entry_score_valid doubles cfg_lfu_1 env0 _ eq_refl)
    by (simpl; lia).
  cbv zeta. cbn [storage_set_raises env0].
  rewrite maybe_evict_unfold. simpl.
  unfold increment_reuse, bind, storage_call. simpl.
  rewrite (@compute_entry_score_valid doubles cfg_lfu_1 env0 _ _ _ eq_refl)
    by (simpl; lia).
  simpl. reflexivity.
Qed.

(** Saving a new call into [cache_a] returns, and the new entry, the least
    used one, is the one the eviction pass removes. *)
Lemma save_into_cache_a env sc out :
  storage_set_raises env = false -> vector_delete_raises env = false ->
  @save doubles cfg_lfu_1 env "search" "b" out true
    {| _storage := {| Memory._data := [("search:a", entry_a)];
                      Memory._scores := [("search:a", sc)] |};
       _vector_store := [record_a] |}
  = (Ok (@fresh_entry doubles env "search" "b" out true),
     {| _storage := {| Memory._data := [("search:a", entry_a)];
                       Memory._scores := [("search:a", sc)] |};
        _vector_store := [record_a] |}).
Proof.
  intros Hs Hd.
  rewrite (@save_new doubles cfg_lfu_1 env "search" "b" out true)
    by reflexivity.
  rewrite (@entry_score_valid doubles cfg_lfu_1 env _ eq_refl)
    by (simpl; lia).
  cbv zeta. rewrite Hs. rewrite maybe_evict_unfold. simpl.
  unfold bind, _evict_entry, bind, storage_call, vector_delete. simpl.
  rewrite Hd. simpl. reflexivity.
Qed.

(** C3 fails as stated: in a cache of size 1 under the lfu policy that
    holds an entry reused once, two successive saves of another call both
    return, and no entry is stored under the id of that call: each save
    adds the entry and its own eviction pass removes it, the entry with the
    fewest references. *)
Lemma save_twice_entry_evicted :
  exists e1 e2 c1 c2,
    @save doubles cfg_lfu_1 env0 "search" "b" "first" true cache_a
    = (Ok e1, c1)
    /\ @save doubles cfg_lfu_1 env1 "search" "b" "second" true c1
       = (Ok e2, c2)
    /\ lookup c2 (@entry_key doubles "search" "b") = None
    /\ count_occ String.string_dec (fst (Memory.keys (_storage c2)))
         (@entry_key doubles "search" "b") = 0%nat.
Proof.
  destruct cache_a_eq as [sc ->].
  eexists _, _, _, _.
  split; [apply save_into_cache_a; reflexivity|].
  split; [apply save_into_cache_a; reflexivity|].
  split; reflexivity.
Qed.

Lemma save_twice_one_entry_witness :
  wf (@init doubles) /\ counters_nonneg (@init doubles)
  /\ validate cfg_reuse_08 = true
  /\ storage_set_raises env1 = false
  /\ lookup (snd (@save doubles cfg_reuse_08 env0 "search" "x" "result" true
                    init))
       (@entry_key doubles "search" "x") <> None
  /\ exists e2 c2,
       @save doubles cfg_reuse_08 env1 "search" "x" "other" false
         (snd (@save doubles cfg_reuse_08 env0 "search" "x" "result" true
                 init))
       = (Ok e2, c2)
       /\ lookup c2 (@entry_key doubles "search" "x") = Some e2
       /\ count_occ String.string_dec (fst (Memory.keys (_storage c2)))
            (@entry_key doubles "search" "x") = 1%nat
       /\ output e2 = "other" /\ success e2 = false
       /\ (reuse_count e2, provide_context_count e2)
          = match lookup (@init doubles) (@entry_key doubles "search" "x") with
            | Some e0 => (reuse_count e0, provide_context_count e0)
            | None => (0, 0)%Z
            end.
Proof.
  assert (H1 : wf (@init doubles)) by apply wf_init.
  assert (H2 : counters_nonneg (@init doubles))
    by (intros k e H; discriminate H).
  assert (H3 : validate cfg_reuse_08 = true) by reflexivity.
  assert (H4 : storage_set_raises env1 = false) by reflexivity.
  assert (H5 : lookup (snd (@save doubles cfg_reuse_08 env0 "search" "x"
                              "result" true init))
                 (@entry_key doubles "search" "x") <> None).
  { destruct cache_x_eq as [sc Hx]. unfold cache_x in Hx. simpl in Hx.
    rewrite Hx. discriminate. }
  repeat (split; [assumption|]).
  exact (@save_twice_one_entry doubles cfg_reuse_08 env0 env1 "search" "x"
           "result" true "other" false init H1 H2 H3 H4 H5).
Defined.

(** C4 fails as stated: when the durable write and the rollback delete both
    fail, [save] raises the storage error and the id stays in the vector
    index with no record in the durable store. *)
Lemma failed_rollback_leaves_orphan :
  exists c',
    @save doubles cfg_reuse_08 env_failing "search" "x" "result" true init
    = (Raise StorageError, c')
    /\ In (@entry_key doubles "search" "x")
          (map (@vid Q) (_vector_store c'))
    /\ lookup c' (@entry_key doubles "search" "x") = None.
Proof.
  eexists.
  rewrite (@save_new doubles cfg_reuse_08 env_failing "search" "x" "result"
             true) by reflexivity.
  rewrite (@entry_score_valid doubles cfg_reuse_08 env_failing _ eq_refl)
    by (simpl; lia).
  simpl. split; [reflexivity|]. split; [left; reflexivity | reflexivity].
Qed.

Lemma failed_write_rolls_back_witness :
  lookup (@init doubles) (@entry_key doubles "search" "x") = None
  /\ storage_set_raises env_write_fails = true
  /\ @save doubles cfg_reuse_08 env_write_fails "search" "x" "result" true
       init
     = (Raise StorageError,
        let c1 := snd (vector_add (@entry_key doubles "search" "x")
                         (embed (@Utils.serialize_args doubles "x"))
                         (@Utils.serialize_args doubles "x") "search" init) in
        if vector_delete_raises env_write_fails then c1
        else snd (vector_delete env_write_fails
                    [@entry_key doubles "search" "x"] c1))
  /\ _storage (snd (@save doubles cfg_reuse_08 env_write_fails "search" "x"
                      "result" true init))
     = _storage (@init doubles)
  /\ (vector_delete_raises env_write_fails = false ->
      ~ In (@entry_key doubles "search" "x")
          (map (@vid Q)
             (_vector_store
                (snd (@save doubles cfg_reuse_08 env_write_fails "search" "x"
                        "result" true init))))).
Proof.
  assert (H1 : lookup (@init doubles) (@entry_key doubles "search" "x") = None)
    by reflexivity.
  assert (H2 : storage_set_raises env_write_fails = true) by reflexivity.
  split; [exact H1|]. split; [exact H2|].
  exact (@failed_write_rolls_back doubles cfg_reuse_08 env_write_fails
           "search" "x" "result" true init H1 H2).
Defined.


(** What a search for the saved call returns one hour later. *)
Lemma search_x_in_cache_x :
  exists ws sc,
    cache_x
    = {| _storage := {| Memory._data := [("search:x", entry_x)];
                        Memory._scores := [("search:x", sc)] |};
         _vector_store := [record_x] |}
    /\ @search doubles cfg_reuse_08 env1 "search" "x" None cache_x
       = (Ok [ {| entry := entry_x; similarity := 1 - (0 # 100);
                  weighted_score := ws |} ], cache_x).
Proof.
  destruct cache_x_eq as [sc Hx]. eexists _, sc. split; [exact Hx|].
  rewrite Hx. unfold search, bind, vector_search. simpl.
  unfold bind, storage_call. simpl.
  rewrite (@compute_entry_score_valid doubles cfg_reuse_08 env1 _ _ _ eq_refl)
    by (simpl; lia).
  unfold ret, sort_hits. simpl. reflexivity.
Qed.

(** C6 fails as stated: the entry saved at the epoch and returned as the
    hit of a search one hour later still has the epoch as its
    [last_accessed_at] in the store after that search. *)
Lemma search_hit_keeps_last_accessed :
  exists h e,
    fst (@search doubles cfg_reuse_08 env1 "search" "x" None cache_x)
    = Ok [h]
    /\ hit_key h = "search:x"
    /\ lookup (snd (@search doubles cfg_reuse_08 env1 "search" "x" None
                      cache_x)) "search:x"
       = Some e
    /\ last_accessed_at e = 0%Z
    /\ now env1 = 3600000000%Z
    /\ last_accessed_at e <> now env1.
Proof.
  destruct search_x_in_cache_x as [ws [sc [Hx Hs]]].
  eexists _, entry_x. rewrite Hs. simpl.
  split; [reflexivity|]. split; [reflexivity|].
  split; [rewrite Hx; reflexivity|].
  split; [reflexivity|]. split; [reflexivity | discriminate].
Qed.

(** What a search for a call with a longer argument returns: the saved
    entry, at distance 0.1. *)
Lemma search_xx_in_cache_x :
  exists ws,
    @search doubles cfg_reuse_08 env1 "search" "xx" None cache_x
    = (Ok [ {| entry := entry_x; similarity := 90 # 100;
               weighted_score := ws |} ], cache_x).
Proof.
  destruct cache_x_eq as [sc Hx]. eexists.
  rewrite Hx. unfold search, bind, vector_search. simpl.
  unfold bind, storage_call. simpl.
  rewrite (@compute_entry_score_valid doubles cfg_reuse_08 env1 _ _ _ eq_refl)
    by (simpl; lia).
  unfold ret, sort_hits. simpl. reflexivity.
Qed.

(** C10.  [should_reuse] compares the similarity of the hit with the
    constant 0.95 and reads no configuration: it is true exactly when the
    similarity is at least 0.95.  Under a validated configuration with
    [reuse_threshold = 0.8] there is a call that [decide] classifies as
    REUSE on a hit of similarity 0.9 whose [should_reuse] is false. *)
Theorem should_reuse_ignores_configured_threshold :
  (forall (collab : Collaborators) (h : @CacheHit collab),
     should_reuse h = true <-> (95 # 100 <= similarity h)%Q)
  /\ exists best c',
       validate cfg_reuse_08 = true
       /\ reuse_threshold cfg_reuse_08 = 8 # 10
       /\ @Wrapper.decide doubles cfg_reuse_08 cfg_reuse_08 env1
            "search" "xx" cache_x
          = (Ok (reuse_result best), c')
       /\ (similarity best == 9 # 10)%Q
       /\ should_reuse best = false.
Proof.
  split.
  - intros collab h. unfold should_reuse. apply Qle_bool_iff.
  - destruct search_xx_in_cache_x as [ws Hs].
    destruct cache_x_inv as [Hwf [Hids [Hn _]]].
    pose proof (@decide_after_search doubles cfg_reuse_08 cfg_reuse_08 env1
                  "search" "xx" cache_x _ _ Hwf Hids Hn eq_refl Hs) as Hd.
    simpl in Hd. destruct Hd as [c2 [Hdec _]].
    eexists _, c2. split; [reflexivity|]. split; [reflexivity|].
    split; [exact Hdec|]. split; reflexivity.
Qed.

Lemma decide_classifies_witness :
  wf cache_x /\ ids_consistent cache_x /\ counters_nonneg cache_x
  /\ validate cfg_reuse_08 = true
  /\ exists hits c1,
       @search doubles cfg_reuse_08 env1 "search" "xx" None cache_x
       = (Ok hits, c1)
       /\ match hits with
          | [] =>
              @Wrapper.decide doubles cfg_reuse_08 cfg_reuse_08 env1
                "search" "xx" cache_x = (Ok execute_result, c1)
              /\ forall k, counters c1 k = counters cache_x k
          | best :: _ =>
              if Qle_bool (reuse_threshold cfg_reuse_08) (similarity best)
              then
                exists c2 r x,
                  @Wrapper.decide doubles cfg_reuse_08 cfg_reuse_08 env1
                    "search" "xx" cache_x
                  = (Ok (reuse_result best), c2)
                  /\ counters cache_x (hit_key best) = Some (r, x)
                  /\ counters c2 (hit_key best) = Some ((r + 1)%Z, x)
                  /\ forall k, k <> hit_key best ->
                       counters c2 k = counters cache_x k
              else if Qle_bool (similarity_threshold cfg_reuse_08)
                        (similarity best)
                      && existsb (fun h => success (entry h)) hits then
                exists c2,
                  @Wrapper.decide doubles cfg_reuse_08 cfg_reuse_08 env1
                    "search" "xx" cache_x
                  = (Ok (context_result (hints_of hits)), c2)
                  /\ forall k,
                       (In k (map hit_key (hints_of hits)) ->
                        exists r x, counters cache_x k = Some (r, x)
                                    /\ counters c2 k = Some (r, (x + 1)%Z))
                       /\ (~ In k (map hit_key (hints_of hits)) ->
                           counters c2 k = counters cache_x k)
              else
                @Wrapper.decide doubles cfg_reuse_08 cfg_reuse_08 env1
                  "search" "xx" cache_x = (Ok execute_result, c1)
                /\ forall k, counters c1 k = counters cache_x k
          end.
Proof.
  assert (H1 : wf cache_x) by apply cache_x_inv.
  assert (H2 : ids_consistent cache_x) by apply cache_x_inv.
  assert (H3 : counters_nonneg cache_x) by apply cache_x_inv.
  assert (H4 : validate cfg_reuse_08 = true) by reflexivity.
  repeat (split; [assumption|]).
  exact (@decide_classifies doubles cfg_reuse_08 cfg_reuse_08 env1
           "search" "xx" cache_x H1 H2 H3 H4).
Defined.

End Doubles.

(* ================================================================== *)
(** * More of the engine: order of the rankings *)

From Stdlib Require Import Sorted.

(** [sorted] orders: under a total and transitive comparison the result is
    sorted, so its first [n] items are below all the others. *)
Module PySortOrder.

Import PySort.

Section Order.
Variable A : Type.
Variable leb : A -> A -> bool.
Hypothesis leb_total : forall x y, leb x y = true \/ leb y x = true.
Hypothesis leb_trans :
  forall x y z, leb x y = true -> leb y z = true -> leb x z = true.

Definition le (x y : A) : Prop := leb x y = true.

Lemma insert_forall (P : A -> Prop) x l :
  P x -> Forall P l -> Forall P (insert leb x l).
Proof.
  intros Hx Hl. induction Hl as [|y l Hy Hl IH]; simpl.
  - constructor; [exact Hx | constructor].
  - destruct (leb x y); repeat constructor; assumption.
Qed.

Lemma insert_sorted x l :
  StronglySorted le l -> StronglySorted le (insert leb x l).
Proof.
  intros Hs. induction Hs as [|y l Hs IH Hy]; simpl.
  - repeat constructor.
  - destruct (leb x y) eqn:E.
    + constructor; [constructor; assumption|].
      constructor; [exact E|].
      eapply Forall_impl; [|exact Hy].
      intros z Hz. eapply leb_trans; [exact E | exact Hz].
    + constructor; [exact IH|].
      apply insert_forall; [|exact Hy].
      destruct (leb_total x y) as [H | H]; [congruence | exact H].
Qed.

Lemma sort_sorted l : StronglySorted le (sort leb l).
Proof.
  induction l as [|x l IH]; simpl; [constructor|].
  apply insert_sorted. exact IH.
Qed.

Lemma sorted_firstn_skipn n l x y :
  StronglySorted le l -> In x (firstn n l) -> In y (skipn n l) -> le x y.
Proof.
  intros Hs. revert n. induction Hs as [|z l Hs IH Hz]; intros n Hx Hy.
  - destruct n; simpl in Hx; contradiction.
  - destruct n as [|n]; simpl in *; [contradiction|].
    destruct Hx as [<- | Hx].
    + rewrite Forall_forall in Hz. apply Hz.
      rewrite <- (firstn_skipn n l). apply in_or_app. right. exact Hy.
    + apply (IH n); assumption.
Qed.

End Order.

(** Items keyed by distinct strings: the keys of the first [n] sorted
    items carry values below those of every other key. *)
Section Ranked.
Variable B : Type.
Variable leb : string * B -> string * B -> bool.
Hypothesis leb_total : forall x y, leb x y = true \/ leb y x = true.
Hypothesis leb_trans :
  forall x y z, leb x y = true -> leb y z = true -> leb x z = true.

Lemma keyed_functional (items : list (string * B)) k v v' :
  NoDup (map fst items) -> In (k, v) items -> In (k, v') items -> v = v'.
Proof.
  induction items as [|[k0 v0] items IH]; simpl; [tauto|].
  intros Hnd H1 H2. inversion Hnd as [|? ? Hnotin Hnd']; subst.
  destruct H1 as [H1 | H1]; destruct H2 as [H2 | H2].
  - congruence.
  - injection H1 as -> ->. exfalso. apply Hnotin.
    change k with (fst (k, v')). apply in_map. exact H2.
  - injection H2 as -> ->. exfalso. apply Hnotin.
    change k with (fst (k, v)). apply in_map. exact H1.
  - apply IH; assumption.
Qed.

Lemma ranked_below (items : list (string * B)) n k v k' v' :
  NoDup (map fst items) ->
  In k (map fst (firstn n (sort leb items))) ->
  ~ In k' (map fst (firstn n (sort leb items))) ->
  In (k, v) items -> In (k', v') items ->
  leb (k, v) (k', v') = true.
Proof.
  intros Hnd Hk Hk' Hv Hv'.
  apply in_map_iff in Hk. destruct Hk as [[k0 v0] [Hk0 Hin]]. simpl in Hk0.
  subst k0.
  assert (Hv0 : v0 = v).
  { eapply keyed_functional; [exact Hnd | | exact Hv].
    apply ListFacts.In_firstn in Hin.
    apply PySortFacts.sort_In in Hin. exact Hin. }
  subst v0.
  assert (Hs : In (k', v') (skipn n (sort leb items))).
  { apply (PySortFacts.sort_In leb) in Hv'.
    rewrite <- (firstn_skipn n (sort leb items)) in Hv'.
    apply in_app_or in Hv'. destruct Hv' as [H | H]; [|exact H].
    exfalso. apply Hk'. change k' with (fst (k', v')). apply in_map.
    exact H. }
  change (le leb (k, v) (k', v')).
  eapply sorted_firstn_skipn;
    [apply sort_sorted; assumption | exact Hin | exact Hs].
Qed.

End Ranked.

End PySortOrder.

(* ================================================================== *)
(** * core/utils.py : the helpers beside the score *)

Module UtilsMore.

Local Open Scope R_scope.

(** [normalize_reference_count(reuse_count, provide_context_count,
    max_refs, reuse_context_factor)].  [None] stands for the exceptions of
    the expression: the [ValueError] of [math.log] off its domain, for the
    weighted count and then for [max_refs], and the [ZeroDivisionError] of
    the division when [math.log(max_refs)] is zero. *)
Definition normalize_reference_count
    (reuse_count provide_context_count : Z)
    (max_refs reuse_context_factor : R) : option R :=
  let weighted_count :=
    reuse_context_factor * IZR reuse_count
    + (1 - reuse_context_factor) * IZR provide_context_count in
  match Scoring.math_log (weighted_count + 1) with
  | None => None
  | Some l =>
      match Scoring.math_log max_refs with
      | None => None
      | Some m =>
          if Req_dec_T m 0 then None
          else
            let normalized := l / m in
            Some (Rmin normalized 1)
      end
  end.

(** [compute_similarity_score(distance)], on the rationals that stand for
    the distances of the index. *)
Definition compute_similarity_score (distance : Q) : Q := (1 - distance)%Q.

End UtilsMore.

Module UtilsMoreFacts.

Import Scoring UtilsMore.
Local Open Scope R_scope.

Lemma normalize_defined r c m f :
  0 < weighted_count r c f + 1 -> 0 < m -> m <> 1 ->
  normalize_reference_count r c m f
  = Some (Rmin (ln (weighted_count r c f + 1) / ln m) 1).
Proof.
  intros Hw Hm Hm1. unfold normalize_reference_count, weighted_count in *.
  cbv zeta. rewrite (math_log_Some Hw), (math_log_Some Hm).
  destruct (Req_dec_T (ln m) 0) as [E | E]; [|reflexivity].
  exfalso. apply (ln_neq_0 m); assumption.
Qed.

Lemma normalize_undefined r c m f :
  weighted_count r c f + 1 <= 0 ->
  normalize_reference_count r c m f = None.
Proof.
  intros Hw. unfold normalize_reference_count, weighted_count in *.
  cbv zeta. rewrite (math_log_None Hw). reflexivity.
Qed.

(** X1.  The score is its similarity plus the normalized reference count
    (with [max_refs = 100]) times the recency factor, as the two helper
    functions compute them, and it raises exactly when the normalization
    raises. *)
Theorem score_is_similarity_plus_normalized_times_recency
    now sim r c last f lam :
  compute_weighted_score now sim r c last f lam
  = option_map
      (fun normalized_ref =>
         sim + normalized_ref * compute_recency_factor now last lam)
      (normalize_reference_count r c 100 f).
Proof.
  destruct (Rlt_dec 0 (weighted_count r c f + 1)) as [Hw | Hw].
  - rewrite (@compute_weighted_score_Some now sim r c last f lam Hw).
    rewrite (@normalize_defined r c 100 f Hw) by lra.
    reflexivity.
  - rewrite compute_weighted_score_None by lra.
    rewrite normalize_undefined by lra. reflexivity.
Qed.

(** X2.  For counts that are not negative, a factor in [[0,1]] and
    [max_refs > 1], [normalize_reference_count] returns a value in
    [[0,1]]; the value is 1 as soon as the weighted count plus one reaches
    [max_refs], and it does not decrease when a count grows. *)
Theorem normalize_reference_count_range r c m f :
  (0 <= r)%Z -> (0 <= c)%Z -> 0 <= f <= 1 -> 1 < m ->
  exists n,
    normalize_reference_count r c m f = Some n
    /\ 0 <= n <= 1
    /\ (m <= weighted_count r c f + 1 -> n = 1)
    /\ forall r' c', (r <= r')%Z -> (c <= c')%Z ->
         exists n', normalize_reference_count r' c' m f = Some n' /\ n <= n'.
Proof.
  intros Hr Hc Hf Hm.
  pose proof (weighted_count_nonneg Hr Hc Hf) as Hw.
  assert (Hlm : 0 < ln m) by (rewrite <- ln_1; apply ln_increasing; lra).
  exists (Rmin (ln (weighted_count r c f + 1) / ln m) 1).
  split; [apply normalize_defined; lra|]. split; [|split].
  - split; [|apply Rmin_r].
    apply Rmin_glb; [|lra]. apply Rmult_le_pos.
    + apply ln_nonneg. lra.
    + left. apply Rinv_0_lt_compat. exact Hlm.
  - intros Hsat. apply Rmin_right.
    assert (Hl : ln m <= ln (weighted_count r c f + 1))
      by (apply ln_le_mono; lra).
    apply Rmult_le_reg_r with (r := ln m); [exact Hlm|].
    unfold Rdiv. rewrite Rmult_assoc, Rinv_l by lra. lra.
  - intros r' c' Hr' Hc'.
    assert (Hw' : weighted_count r c f <= weighted_count r' c' f).
    { unfold weighted_count. apply IZR_le in Hr', Hc'.
      apply Rplus_le_compat; apply Rmult_le_compat_l; lra. }
    exists (Rmin (ln (weighted_count r' c' f + 1) / ln m) 1).
    split; [apply normalize_defined; lra|].
    apply Rle_min_compat_r. apply Rmult_le_compat_r.
    + left. apply Rinv_0_lt_compat. exact Hlm.
    + apply ln_le_mono; lra.
Qed.

Lemma normalize_reference_count_range_witness :
  (0 <= 10)%Z /\ (0 <= 5)%Z /\ 0 <= 6 / 10 <= 1 /\ 1 < 100
  /\ exists n,
       normalize_reference_count 10 5 100 (6 / 10) = Some n
       /\ 0 <= n <= 1
       /\ (100 <= weighted_count 10 5 (6 / 10) + 1 -> n = 1)
       /\ forall r' c', (10 <= r')%Z -> (5 <= c')%Z ->
            exists n',
              normalize_reference_count r' c' 100 (6 / 10) = Some n'
              /\ n <= n'.
Proof.
  assert (H1 : (0 <= 10)%Z) by lia.
  assert (H2 : (0 <= 5)%Z) by lia.
  assert (H3 : 0 <= 6 / 10 <= 1) by lra.
  assert (H4 : 1 < 100) by lra.
  repeat (split; [assumption|]).
  exact (@normalize_reference_count_range 10 5 100 (6 / 10) H1 H2 H3 H4).
Defined.






(** X5.  For counts that are not negative and a factor in [[0,1]], the
    score is at least the similarity, it is the similarity itself for an
    entry that was never referenced, and it does not decrease when the
    similarity or the context count grows. *)
Theorem score_at_least_similarity now sim r c last f lam :
  (0 <= r)%Z -> (0 <= c)%Z -> 0 <= f <= 1 ->
  exists s,
    compute_weighted_score now sim r c last f lam = Some s
    /\ sim <= s
    /\ compute_weighted_score now sim 0 0 last f lam = Some sim
    /\ forall sim' c', sim <= sim' -> (c <= c')%Z ->
         exists s', compute_weighted_score now sim' r c' last f lam = Some s'
                    /\ s <= s'.
Proof.
  intros Hr Hc Hf.
  pose proof (weighted_count_nonneg Hr Hc Hf) as Hw.
  pose proof (recency_pos now last lam) as Hrho.
  exists (score_value now sim r c last f lam).
  split; [apply ScoringFacts.compute_weighted_score_defined; assumption|].
  split; [|split].
  - unfold score_value.
    pose proof (normalized_ref_nonneg Hw) as Hn.
    assert (0 <= Rmin (ln (weighted_count r c f + 1) / ln 100) 1
                 * compute_recency_factor now last lam)
      by (apply Rmult_le_pos; lra).
    lra.
  - rewrite compute_weighted_score_Some
      by (unfold weighted_count; simpl; lra).
    unfold score_value, weighted_count. simpl.
    replace (f * 0 + (1 - f) * 0 + 1) with 1 by ring.
    rewrite ln_1. unfold Rdiv. rewrite Rmult_0_l.
    rewrite Rmin_left by lra. f_equal. ring.
  - intros sim' c' Hsim Hc'.
    assert (Hw' : weighted_count r c f <= weighted_count r c' f).
    { unfold weighted_count. apply IZR_le in Hc'.
      apply Rplus_le_compat_l. apply Rmult_le_compat_l; lra. }
    exists (score_value now sim' r c' last f lam).
    split; [apply compute_weighted_score_Some; lra|].
    unfold score_value. apply Rplus_le_compat; [exact Hsim|].
    apply Rmult_le_compat_r; [lra|].
    apply normalized_ref_mono; lra.
Qed.

Lemma score_at_least_similarity_witness :
  (0 <= 2)%Z /\ (0 <= 3)%Z /\ 0 <= 6 / 10 <= 1
  /\ exists s,
       compute_weighted_score 0 (8 / 10) 2 3 0 (6 / 10) (1 / 100) = Some s
       /\ 8 / 10 <= s
       /\ compute_weighted_score 0 (8 / 10) 0 0 0 (6 / 10) (1 / 100)
          = Some (8 / 10)
       /\ forall sim' c', 8 / 10 <= sim' -> (3 <= c')%Z ->
            exists s',
              compute_weighted_score 0 sim' 2 c' 0 (6 / 10) (1 / 100)
              = Some s'
              /\ s <= s'.
Proof.
  assert (H1 : (0 <= 2)%Z) by lia.
  assert (H2 : (0 <= 3)%Z) by lia.
  assert (H3 : 0 <= 6 / 10 <= 1) by lra.
  repeat (split; [assumption|]).
  exact (@score_at_least_similarity 0 (8 / 10) 2 3 0 (6 / 10) (1 / 100)
           H1 H2 H3).
Defined.

End UtilsMoreFacts.

(* ================================================================== *)
(** * core/models.py : the counters of an entry *)

Module ModelsMore.

Section WithCollaborators.
Context {collab : Collaborators}.

Import Models.

(** [CacheEntry.increment_reuse], at the instant [t] that [datetime.now()]
    returns. *)
Definition increment_reuse (t : datetime) (e : CacheEntry) : CacheEntry :=
  let e := with_reuse_count (reuse_count e + 1) e in
  with_last_accessed_at t e.

(** [CacheEntry.increment_context] *)
Definition increment_context (t : datetime) (e : CacheEntry) : CacheEntry :=
  let e := with_provide_context_count (provide_context_count e + 1) e in
  with_last_accessed_at t e.

End WithCollaborators.

End ModelsMore.

(* ================================================================== *)
(** * core/storage/memory.py : histories of the backend *)

Module MemoryMore.

Section WithCollaborators.
Context {collab : Collaborators}.

Import Models Memory.

(** A call of a method of the backend. *)
Inductive Method : Type :=
| MGet (key : string)
| MSet (key : string) (value : EntryDict) (sc : R)
| MDelete (key : string)
| MExists (key : string)
| MKeys
| MClear
| MSize
| MUpdateScore (key : string) (sc : R)
| MGetScore (key : string)
| MUpdateAccessTime (t : datetime) (key : string)
| MIncrementReuse (t : datetime) (key : string)
| MIncrementContext (t : datetime) (key : string)
| MDecrementReference (key : string)
| MGetBottomByScore (n : nat)
| MGetOldestByAccess (n : nat)
| MGetLeastUsed (n : nat)
| MGetOldestByCreation (n : nat).

(** The backend that a call leaves. *)
Definition call (m : Method) (s : MemoryStorageBackend)
  : MemoryStorageBackend :=
  match m with
  | MGet key => snd (get key s)
  | MSet key value sc => snd (set key value sc s)
  | MDelete key => snd (delete key s)
  | MExists key => snd (exists_ key s)
  | MKeys => snd (keys s)
  | MClear => snd (clear s)
  | MSize => snd (size s)
  | MUpdateScore key sc => snd (update_score key sc s)
  | MGetScore key => snd (get_score key s)
  | MUpdateAccessTime t key => snd (update_access_time t key s)
  | MIncrementReuse t key => snd (increment_reuse t key s)
  | MIncrementContext t key => snd (increment_context t key s)
  | MDecrementReference key => snd (decrement_reference key s)
  | MGetBottomByScore n => snd (get_bottom_by_score n s)
  | MGetOldestByAccess n => snd (get_oldest_by_access n s)
  | MGetLeastUsed n => snd (get_least_used n s)
  | MGetOldestByCreation n => snd (get_oldest_by_creation n s)
  end.

(** A history of calls, from the first. *)
Definition calls (ms : list Method) (s : MemoryStorageBackend)
  : MemoryStorageBackend :=
  fold_left (fun s m => call m s) ms s.

End WithCollaborators.

End MemoryMore.

Module MemoryMoreFacts.

Section WithCollaborators.
Context {collab : Collaborators}.

Import Models Memory MemoryMore.

Lemma get_In_pair (V : Type) (d : PyDict.t V) k v :
  PyDict.get d k = Some v -> In (k, v) d.
Proof.
  induction d as [|[k' v'] d IH]; simpl; [discriminate|].
  destruct (String.eqb k k') eqn:E.
  - apply String.eqb_eq in E. subst k'. intros H. injection H as ->.
    left. reflexivity.
  - intros H. right. apply IH. exact H.
Qed.

Lemma call_wf m s : MemoryFacts.wf s -> MemoryFacts.wf (call m s).
Proof.
  intros Hwf. destruct m; simpl; try exact Hwf.
  - apply (MemoryFacts.backend_wf_set key value sc Hwf).
  - apply (MemoryFacts.backend_wf_delete key Hwf).
  - apply MemoryFacts.backend_wf_init.
  - apply (MemoryFacts.backend_wf_update_score key sc Hwf).
  - apply (MemoryFacts.backend_wf_update_access_time t key Hwf).
  - apply (MemoryFacts.backend_wf_increment_reuse t key Hwf).
  - apply (MemoryFacts.backend_wf_increment_context t key Hwf).
  - apply (MemoryFacts.backend_wf_decrement_reference key Hwf).
Qed.

Lemma calls_wf ms s : MemoryFacts.wf s -> MemoryFacts.wf (calls ms s).
Proof.
  revert s. induction ms as [|m ms IH]; intros s Hwf; simpl; [exact Hwf|].
  apply IH, call_wf, Hwf.
Qed.

Lemma Rleb_total (a b : R) : Rleb a b = true \/ Rleb b a = true.
Proof.
  unfold Rleb. destruct (Rle_dec a b); [left; reflexivity|].
  right. destruct (Rle_dec b a); [reflexivity|]. exfalso. lra.
Qed.

Lemma Rleb_trans (a b c : R) :
  Rleb a b = true -> Rleb b c = true -> Rleb a c = true.
Proof.
  unfold Rleb. destruct (Rle_dec a b); [|discriminate].
  destruct (Rle_dec b c); [|discriminate].
  destruct (Rle_dec a c); [reflexivity|]. exfalso. lra.
Qed.

Lemma Rleb_le (a b : R) : Rleb a b = true -> (a <= b)%R.
Proof. unfold Rleb. destruct (Rle_dec a b); [trivial|discriminate]. Qed.

(** The keys that a ranking query on a metric of the entries returns rank
    lowest. *)
Lemma ranked_by_metric (f : EntryDict -> Z) (d : PyDict.t EntryDict)
    n k k' e e' :
  NoDup (PyDict.keys d) ->
  let items := map (fun kv => (fst kv, f (snd kv))) d in
  let chosen :=
    map fst (firstn n (PySort.sort (fun x y => (snd x <=? snd y)%Z) items)) in
  In k chosen -> ~ In k' chosen ->
  PyDict.get d k = Some e -> PyDict.get d k' = Some e' ->
  (f e <= f e')%Z.
Proof.
  intros Hnd items chosen Hin Hout He He'.
  apply Z.leb_le.
  change ((fun x y : string * Z => (snd x <=? snd y)%Z) (k, f e) (k', f e')
          = true).
  apply (@PySortOrder.ranked_below Z
           (fun x y : string * Z => (snd x <=? snd y)%Z)) with
    (items := items) (n := n).
  - intros x y. destruct (Z.leb_spec (snd x) (snd y)); [left; reflexivity|].
    right. apply Z.leb_le. lia.
  - intros x y z Hxy Hyz. apply Z.leb_le in Hxy, Hyz. apply Z.leb_le. lia.
  - unfold items. rewrite MemoryFacts.map_fst_keyed. exact Hnd.
  - exact Hin.
  - exact Hout.
  - unfold items. apply in_map_iff. exists (k, e). split; [reflexivity|].
    apply get_In_pair. exact He.
  - unfold items. apply in_map_iff. exists (k', e'). split; [reflexivity|].
    apply get_In_pair. exact He'.
Qed.

(** X6.  On a backend whose two dicts hold the same distinct keys, each
    ranking query returns keys that rank lowest on its metric: a key it
    returns has a score (for [get_bottom_by_score]), a last access (for
    [get_oldest_by_access]), a total reference count (for
    [get_least_used]) or a creation time (for [get_oldest_by_creation])
    that is at most that of any stored key it does not return. *)
Theorem ranking_queries_return_the_lowest n s k k' :
  MemoryFacts.wf s ->
  (In k (fst (get_bottom_by_score n s)) ->
   ~ In k' (fst (get_bottom_by_score n s)) ->
   forall sc sc',
     fst (get_score k s) = Some sc -> fst (get_score k' s) = Some sc' ->
     (sc <= sc')%R)
  /\ (In k (fst (get_oldest_by_access n s)) ->
      ~ In k' (fst (get_oldest_by_access n s)) ->
      forall e e',
        fst (get k s) = Some e -> fst (get k' s) = Some e' ->
        (last_accessed_at e <= last_accessed_at e')%Z)
  /\ (In k (fst (get_least_used n s)) ->
      ~ In k' (fst (get_least_used n s)) ->
      forall e e',
        fst (get k s) = Some e -> fst (get k' s) = Some e' ->
        (total_reference_count e <= total_reference_count e')%Z)
  /\ (In k (fst (get_oldest_by_creation n s)) ->
      ~ In k' (fst (get_oldest_by_creation n s)) ->
      forall e e',
        fst (get k s) = Some e -> fst (get k' s) = Some e' ->
        (created_at e <= created_at e')%Z).
Proof.
  intros [Hnd Hkeys]. split; [|split; [|split]].
  - simpl. intros Hin Hout sc sc' Hsc Hsc'.
    apply Rleb_le.
    change ((fun x y : string * R => Rleb (snd x) (snd y)) (k, sc) (k', sc')
            = true).
    apply (@PySortOrder.ranked_below R
             (fun x y : string * R => Rleb (snd x) (snd y))) with
      (items := _scores s) (n := n).
    + intros x y. apply Rleb_total.
    + intros x y z. apply Rleb_trans.
    + change (NoDup (PyDict.keys (_scores s))). rewrite Hkeys. exact Hnd.
    + exact Hin.
    + exact Hout.
    + apply get_In_pair. exact Hsc.
    + apply get_In_pair. exact Hsc'.
  - simpl. intros Hin Hout e e' He He'.
    exact (@ranked_by_metric last_accessed_at (_data s) n k k' e e'
             Hnd Hin Hout He He').
  - simpl. intros Hin Hout e e' He He'.
    exact (@ranked_by_metric
             (fun e => (reuse_count e + provide_context_count e)%Z)
             (_data s) n k k' e e' Hnd Hin Hout He He').
  - simpl. intros Hin Hout e e' He He'.
    exact (@ranked_by_metric created_at (_data s) n k k' e e'
             Hnd Hin Hout He He').
Qed.

(** X7.  In every state that a history of method calls reaches from a new
    backend, a key has a score exactly when it has an entry, the keys are
    distinct, and the score ranking can supply as many keys as there are
    entries: [get_bottom_by_score(n)] returns [min(n, size())] keys. *)
Theorem backend_scores_follow_entries ms k n :
  let s := calls ms init in
  ((exists sc, fst (get_score k s) = Some sc) <-> fst (exists_ k s) = true)
  /\ NoDup (fst (keys s))
  /\ List.length (fst (get_bottom_by_score n s)) = Nat.min n (fst (size s)).
Proof.
  intros s.
  assert (Hwf : MemoryFacts.wf s)
    by (apply calls_wf, MemoryFacts.backend_wf_init).
  destruct Hwf as [Hnd Hkeys]. simpl. split; [|split].
  - rewrite PyDictFacts.contains_true, <- Hkeys. split.
    + intros [sc Hsc]. eapply PyDictFacts.get_In. exact Hsc.
    + apply PyDictFacts.In_get.
  - exact Hnd.
  - rewrite MemoryFacts.ranked_length.
    rewrite <- (length_map fst (_scores s)), <- (length_map fst (_data s)).
    change (map fst (_scores s)) with (PyDict.keys (_scores s)).
    rewrite Hkeys. reflexivity.
Qed.

(** X8.  The compensation of a context hint: [decrement_reference] after
    [increment_context] on a stored entry with a context count that is not
    negative restores the total reference count, keeps the new access
    time, and restores the two counters only when the entry was never
    reused; otherwise it takes the reference from [reuse_count] and leaves
    [provide_context_count] one higher. *)
Theorem decrement_after_increment_context t key s e :
  fst (get key s) = Some e ->
  (0 <= provide_context_count e)%Z ->
  exists e',
    fst (get key (snd (decrement_reference key
                         (snd (increment_context t key s))))) = Some e'
    /\ total_reference_count e' = total_reference_count e
    /\ last_accessed_at e' = t
    /\ (if (0 <? reuse_count e)%Z then
          reuse_count e' = (reuse_count e - 1)%Z
          /\ provide_context_count e' = (provide_context_count e + 1)%Z
        else
          reuse_count e' = reuse_count e
          /\ provide_context_count e' = provide_context_count e).
Proof.
  simpl. intros He Hc.
  unfold increment_context, decrement_reference. rewrite He. simpl.
  rewrite PyDictFacts.get_set_eq. simpl.
  destruct (0 <? reuse_count e)%Z eqn:Er; simpl.
  - rewrite PyDictFacts.get_set_eq. eexists. split; [reflexivity|].
    unfold total_reference_count. simpl. repeat split; lia.
  - assert (Hp : (0 <? provide_context_count e + 1)%Z = true)
      by (apply Z.ltb_lt; lia).
    rewrite Hp. simpl. rewrite PyDictFacts.get_set_eq.
    eexists. split; [reflexivity|].
    unfold total_reference_count. simpl. repeat split; lia.
Qed.

End WithCollaborators.

End MemoryMoreFacts.

(* ================================================================== *)
(** * core/cache.py : what each method computes *)

Module CacheMoreFacts.

Section WithCollaborators.
Context {collab : Collaborators}.

Import Models Config Cache CacheFacts.

(** [top_k or self.config.top_k] *)
Definition requested_k (cfg : CacheConfig) (top_k' : option Z) : Z :=
  match top_k' with
  | Some k' => if (k' =? 0)%Z then top_k cfg else k'
  | None => top_k cfg
  end.

(** The ids and distances that the index returns to [search]. *)
Definition candidates (cfg : CacheConfig) (tool : string) (args : Args)
    (top_k' : option Z) (c : ToolCache) : list (string * Q) :=
  vquery (_vector_store c) (embed (Utils.serialize_args args))
    (requested_k cfg top_k') tool.

(** [h] is the hit of a candidate: the entry stored under the candidate's
    id, at the similarity of its distance, which reaches the threshold, with
    the weighted score of that entry at that similarity. *)
Definition is_match (cfg : CacheConfig) (env : Env) (c : ToolCache)
    (results : list (string * Q)) (h : CacheHit) : Prop :=
  exists key distance,
    In (key, distance) results
    /\ lookup c key = Some (entry h)
    /\ similarity h = UtilsMore.compute_similarity_score distance
    /\ (similarity_threshold cfg <= similarity h)%Q
    /\ Scoring.compute_weighted_score (now env) (Q2R (similarity h))
         (reuse_count (entry h)) (provide_context_count (entry h))
         (last_accessed_at (entry h))
         (Q2R (reuse_context_factor cfg)) (Q2R (time_decay_lambda cfg))
       = Some (weighted_score h).

(** A record of the index is pruned by a search when the delete of the
    index does not fail and its id is a candidate under which no entry is
    stored. *)
Definition pruned (env : Env) (c : ToolCache) (results : list (string * Q))
    (r : VectorRecord Embedding) : bool :=
  negb (vector_delete_raises env)
  && existsb (fun kd => String.eqb (vid r) (fst kd)
                        && negb (PyDict.contains (data_of c) (fst kd)))
       results.

Lemma Qltb_false a b : Qltb a b = false <-> (b <= a)%Q.
Proof.
  unfold Qltb. rewrite Bool.negb_false_iff. apply Qle_bool_iff.
Qed.

Lemma filter_all (A : Type) (p : A -> bool) (l : list A) :
  (forall x, p x = true) -> filter p l = l.
Proof.
  intros Hp. induction l as [|x l IH]; simpl; [reflexivity|].
  rewrite Hp, IH. reflexivity.
Qed.

Lemma filter_filter (A : Type) (p q : A -> bool) (l : list A) :
  filter p (filter q l) = filter (fun x => q x && p x) l.
Proof.
  induction l as [|x l IH]; simpl; [reflexivity|].
  destruct (q x); simpl; [destruct (p x)|]; rewrite IH; reflexivity.
Qed.

Lemma match_cons_skip cfg env c entry_id distance rest h :
  (forall e, lookup c entry_id = Some e ->
     Qltb (1 - distance) (similarity_threshold cfg) = true) ->
  is_match cfg env c ((entry_id, distance) :: rest) h
  <-> is_match cfg env c rest h.
Proof.
  intros Hskip. split.
  - intros [key [dist [[Heq | Hin] Hrest]]].
    + injection Heq as <- <-. destruct Hrest as [Hl [Hsim [Hle _]]].
      specialize (Hskip _ Hl). rewrite Hsim in Hle. apply Qltb_false in Hle.
      unfold UtilsMore.compute_similarity_score in Hle.
      rewrite Hle in Hskip. discriminate.
    + exists key, dist. split; [exact Hin | exact Hrest].
  - intros [key [dist [Hin Hrest]]].
    exists key, dist. split; [right; exact Hin | exact Hrest].
Qed.

Lemma search_loop_outcome cfg env results :
  forall hits c,
  match search_loop cfg env results hits c with
  | (Ok out, c') =>
      _storage c' = _storage c
      /\ (forall h, In h out <-> In h hits \/ is_match cfg env c results h)
      /\ _vector_store c'
         = filter (fun r => negb (pruned env c results r)) (_vector_store c)
  | (Raise x, c') =>
      x = ValueError /\ _storage c' = _storage c
      /\ incl (_vector_store c') (_vector_store c)
  end.
Proof.
  induction results as [|[entry_id distance] rest IH]; intros hits c; simpl.
  - split; [reflexivity|]. split.
    + intros h. split; [intros H; left; exact H|].
      intros [H | [key [d [[] _]]]]. exact H.
    + symmetry. apply filter_all. intros r. unfold pruned. simpl.
      rewrite Bool.andb_false_r. reflexivity.
  - unfold bind at 1. unfold storage_call at 1. simpl.
    destruct (PyDict.get (Memory._data (_storage c)) entry_id)
      as [d|] eqn:Hd.
    + assert (Hsame : forall r,
                negb (pruned env c ((entry_id, distance) :: rest) r)
                = negb (pruned env c rest r)).
      { intros r. unfold pruned, data_of, PyDict.contains. simpl.
        rewrite Hd. simpl. rewrite Bool.andb_false_r. reflexivity. }
      unfold from_dict.
      destruct (Qltb (1 - distance) (similarity_threshold cfg)) eqn:Hthr.
      * specialize (IH hits {| _storage := _storage c;
                               _vector_store := _vector_store c |}).
        destruct (search_loop cfg env rest hits _) as [[out|x] c'];
          [|exact IH].
        simpl in IH. destruct IH as [Hst [Hh Hv]].
        split; [exact Hst|]. split.
        -- intros h. rewrite Hh.
           rewrite (@match_cons_skip cfg env c entry_id distance rest h)
             by (intros _ _; exact Hthr).
           reflexivity.
        -- rewrite Hv. apply filter_ext. intros r. symmetry. apply Hsame.
      * unfold bind at 1. unfold _compute_entry_score.
        destruct (Scoring.compute_weighted_score _ _ _ _ _ _ _) as [ws|]
          eqn:Hws; [|split; [reflexivity | split; [reflexivity|]];
                     intros r Hr; exact Hr].
        unfold ret at 1.
        match goal with
        | |- match search_loop _ _ _ ?hs ?c0 with _ => _ end =>
            specialize (IH hs c0);
            destruct (search_loop cfg env rest hs c0) as [[out|x] c'];
            [|exact IH]
        end.
        simpl in IH. destruct IH as [Hst [Hh Hv]].
        split; [exact Hst|]. split.
        -- intros h. rewrite Hh, in_app_iff. simpl.
           split.
           ++ intros [[H | [H | []]] | H]; [left; exact H | | ]; right.
              ** subst h. exists entry_id, distance. simpl.
                 split; [left; reflexivity|].
                 split; [exact Hd|]. split; [reflexivity|].
                 split; [apply Qltb_false; exact Hthr | exact Hws].
              ** destruct H as [key [dist [Hin Hrest]]].
                 exists key, dist. split; [right; exact Hin | exact Hrest].
           ++ intros [H | [key [dist [[Heq | Hin] Hrest]]]].
              ** left. left. exact H.
              ** injection Heq as <- <-. left. right. left.
                 destruct Hrest as [Hl [Hsim [_ Hsc]]].
                 destruct h as [he hs hw]. simpl in *.
                 unfold lookup in Hl. rewrite Hd in Hl. injection Hl as <-.
                 unfold UtilsMore.compute_similarity_score in Hsim.
                 subst hs. rewrite Hws in Hsc. injection Hsc as <-.
                 reflexivity.
              ** right. exists key, dist. split; [exact Hin | exact Hrest].
        -- rewrite Hv. apply filter_ext. intros r. symmetry. apply Hsame.
    + assert (Hnomatch : forall h,
                is_match cfg env c ((entry_id, distance) :: rest) h
                <-> is_match cfg env c rest h).
      { intros h. apply match_cons_skip. intros e He.
        unfold lookup in He. rewrite Hd in He. discriminate. }
      unfold bind at 1.
      unfold try_except, bind, storage_call, Memory.exists_,
        PyDict.contains. simpl. rewrite Hd. simpl.
      unfold vector_delete.
      destruct (vector_delete_raises env) eqn:Hraise; simpl.
      * match goal with
        | |- match search_loop _ _ _ ?hs ?c0 with _ => _ end =>
            specialize (IH hs c0);
            destruct (search_loop cfg env rest hs c0) as [[out|x] c'];
            [|exact IH]
        end.
        simpl in IH. destruct IH as [Hst [Hh Hv]].
        split; [exact Hst|]. split.
        -- intros h. rewrite Hh, Hnomatch. reflexivity.
        -- rewrite Hv. apply filter_ext. intros r. unfold pruned.
           rewrite Hraise. reflexivity.
      * match goal with
        | |- match search_loop _ _ _ ?hs ?c0 with _ => _ end =>
            specialize (IH hs c0);
            destruct (search_loop cfg env rest hs c0) as [[out|x] c']
        end.
        -- simpl in IH. destruct IH as [Hst [Hh Hv]].
           split; [exact Hst|]. split.
           ++ intros h. rewrite Hh, Hnomatch. reflexivity.
           ++ rewrite Hv, filter_filter. apply filter_ext. intros r.
              unfold pruned, data_of, PyDict.contains. simpl.
              rewrite Hraise, Hd. simpl.
              rewrite Bool.orb_false_r, Bool.andb_true_r.
              rewrite Bool.negb_orb. reflexivity.
        -- simpl in IH. destruct IH as [Hx [Hst Hincl]].
           split; [exact Hx|]. split; [exact Hst|].
           intros r Hr. apply Hincl in Hr. apply filter_In in Hr. apply Hr.
Qed.

Lemma sort_hits_sorted (hits : list CacheHit) :
  StronglySorted (fun h1 h2 => (weighted_score h2 <= weighted_score h1)%R)
    (sort_hits hits).
Proof.
  unfold sort_hits.
  pose proof (@PySortOrder.sort_sorted CacheHit
                (fun x y => Rleb (weighted_score y) (weighted_score x))) as H.
  assert (Htot : forall x y : CacheHit,
             Rleb (weighted_score y) (weighted_score x) = true
             \/ Rleb (weighted_score x) (weighted_score y) = true)
    by (intros x y; apply MemoryMoreFacts.Rleb_total).
  assert (Htr : forall x y z : CacheHit,
             Rleb (weighted_score y) (weighted_score x) = true ->
             Rleb (weighted_score z) (weighted_score y) = true ->
             Rleb (weighted_score z) (weighted_score x) = true).
  { intros x y z Hxy Hyz. eapply MemoryMoreFacts.Rleb_trans; eassumption. }
  specialize (H Htot Htr hits).
  induction H as [|h l Hl IHl Hall]; constructor; [exact IHl|].
  eapply Forall_impl; [|exact Hall].
  intros h' Hle. apply MemoryMoreFacts.Rleb_le. exact Hle.
Qed.

Lemma search_outcome cfg env tool args top_k' c :
  match search cfg env tool args top_k' c with
  | (Ok hits, c') =>
      StronglySorted
        (fun h1 h2 => (weighted_score h2 <= weighted_score h1)%R) hits
      /\ (forall h,
            In h hits
            <-> is_match cfg env c (candidates cfg tool args top_k' c) h)
      /\ _storage c' = _storage c
      /\ _vector_store c'
         = filter
             (fun r =>
                negb (pruned env c (candidates cfg tool args top_k' c) r))
             (_vector_store c)
  | (Raise x, c') =>
      x = ValueError /\ _storage c' = _storage c
      /\ incl (_vector_store c') (_vector_store c)
  end.
Proof.
  unfold search, bind, vector_search.
  fold (requested_k cfg top_k').
  fold (candidates cfg tool args top_k' c).
  destruct (candidates cfg tool args top_k' c) as [|r0 results] eqn:Hq.
  - unfold ret. split; [constructor|]. split; [|split; [reflexivity|]].
    + intros h. split; [intros [] | intros [key [d [[] _]]]].
    + symmetry. apply filter_all. intros r. unfold pruned. simpl.
      rewrite Bool.andb_false_r. reflexivity.
  - pose proof (search_loop_outcome cfg env (r0 :: results) [] c) as Hloop.
    destruct (search_loop cfg env (r0 :: results) [] c) as [[out|x] c1].
    + unfold ret. destruct Hloop as [Hst [Hh Hv]].
      split; [apply sort_hits_sorted|]. split; [|split; [exact Hst|exact Hv]].
      intros h. unfold sort_hits. rewrite PySortFacts.sort_In, Hh.
      split; [intros [[] | H]; exact H | intros H; right; exact H].
    + exact Hloop.
Qed.


(** X10.  A search that returns repairs the index: afterwards the index
    holds the records it held, in their order, without those whose id the
    index returned as a candidate while no entry is stored under it.  When
    the delete of the index fails, the failure is swallowed and the index
    is left as it was.  A search that raises has added no record. *)
Theorem search_prunes_unstored_ids cfg env tool args top_k' c :
  match search cfg env tool args top_k' c with
  | (Ok _, c') =>
      _vector_store c'
      = filter
          (fun r =>
             negb (negb (vector_delete_raises env)
                   && existsb
                        (fun kd =>
                           String.eqb (vid r) (fst kd)
                           && negb (PyDict.contains (data_of c) (fst kd)))
                        (candidates cfg tool args top_k' c)))
          (_vector_store c)
  | (Raise _, c') => incl (_vector_store c') (_vector_store c)
  end.
Proof.
  pose proof (search_outcome cfg env tool args top_k' c) as Hout.
  destruct (search cfg env tool args top_k' c) as [[hits|x] c'].
  - destruct Hout as [_ [_ [_ Hv]]]. exact Hv.
  - destruct Hout as [_ [_ Hincl]]. exact Hincl.
Qed.

Lemma search_loop_on_init cfg env results :
  forall hits, search_loop cfg env results hits init = (Ok hits, init).
Proof.
  induction results as [|[entry_id distance] rest IH]; intros hits; simpl.
  - reflexivity.
  - unfold bind, try_except, storage_call, vector_delete. simpl.
    destruct (vector_delete_raises env); simpl; exact (IH hits).
Qed.

Lemma search_on_init cfg env tool args top_k' :
  search cfg env tool args top_k' init = (Ok [], init).
Proof.
  unfold search, bind, vector_search.
  destruct (vquery _ _ _ _) as [|r0 results]; [reflexivity|].
  rewrite search_loop_on_init. reflexivity.
Qed.

(** X11.  [clear] returns and leaves the cache as a new one: no entry, no
    record in the index.  On the cleared cache every search returns no
    hit, [get_best_match] returns [None], [decide] answers EXECUTE and the
    counter methods return [False], each leaving the cache empty. *)
Theorem cleared_cache_answers_nothing icfg cfg env tool args top_k' i c :
  let c0 := snd (clear c) in
  fst (clear c) = Ok tt
  /\ size c0 = 0%nat /\ _vector_store c0 = []
  /\ Memory._scores (_storage c0) = []
  /\ search cfg env tool args top_k' c0 = (Ok [], c0)
  /\ get_best_match cfg env tool args c0 = (Ok None, c0)
  /\ Wrapper.decide icfg cfg env tool args c0 = (Ok execute_result, c0)
  /\ increment_reuse cfg env i c0 = (Ok false, c0)
  /\ increment_context cfg env i c0 = (Ok false, c0).
Proof.
  assert (Hc : snd (clear c) = init) by reflexivity.
  cbv zeta. rewrite Hc.
  split; [reflexivity|]. split; [reflexivity|]. split; [reflexivity|].
  split; [reflexivity|]. split; [apply search_on_init|].
  split; [|split; [|split]].
  - unfold get_best_match, bind. rewrite search_on_init. reflexivity.
  - unfold Wrapper.decide, bind. rewrite search_on_init. reflexivity.
  - apply increment_reuse_missing. reflexivity.
  - apply increment_context_missing. reflexivity.
Qed.

(** The stores after an entry and its score were written under a key. *)
Definition rescored (c : ToolCache) (vs : list (VectorRecord Embedding))
    (key : string) (e : CacheEntry) (sc : option R) : ToolCache :=
  {| _storage :=
       {| Memory._data := PyDict.set (data_of c) key e;
          Memory._scores :=
            match sc with
            | Some sc => PyDict.set (Memory._scores (_storage c)) key sc
            | None => Memory._scores (_storage c)
            end |};
     _vector_store := vs |}.

Lemma touch_entry_outcome cfg env key c e :
  lookup c key = Some e ->
  _touch_entry cfg env key c
  = let e' := with_last_accessed_at (now env) e in
    match entry_score cfg env e' with
    | Some sc => (Ok tt, rescored c (_vector_store c) key e' (Some sc))
    | None => (Raise ValueError, rescored c (_vector_store c) key e' None)
    end.
Proof.
  intros He. destruct c as [s vs]. unfold lookup in He. simpl in He.
  unfold _touch_entry, bind, storage_call, Memory.update_access_time,
    Memory.get, Memory.update_score. simpl.
  rewrite He. simpl. rewrite PyDictFacts.get_set_eq.
  unfold _compute_entry_score, entry_score, from_dict, rescored, data_of.
  simpl.
  destruct (Scoring.compute_weighted_score _ _ _ _ _ _ _) as [sc|]; simpl;
    [|reflexivity].
  unfold PyDict.contains. rewrite PyDictFacts.get_set_eq. reflexivity.
Qed.

(** X12.  [get_best_match] is the first hit of a search with [top_k = 1]:
    on a store whose entries are stored under their own ids it raises when
    that search raises, returns [None] when the search has no hit, and
    otherwise returns the first hit, whatever its similarity (the second
    threshold test never fails).  The entry of that hit is then stored with
    [last_accessed_at] set to the clock and its score recomputed at
    similarity 1; nothing else is written, and the returned hit still
    carries the entry as it was read.  When that score is undefined, the
    access time is written and the [ValueError] propagates. *)
Theorem get_best_match_takes_first_hit cfg env tool args c :
  ids_consistent c ->
  match search cfg env tool args (Some 1%Z) c with
  | (Raise x, c1) => get_best_match cfg env tool args c = (Raise x, c1)
  | (Ok [], c1) => get_best_match cfg env tool args c = (Ok None, c1)
  | (Ok (h :: _), c1) =>
      let e' := with_last_accessed_at (now env) (entry h) in
      lookup c (hit_key h) = Some (entry h)
      /\ get_best_match cfg env tool args c
         = match entry_score cfg env e' with
           | Some sc =>
               (Ok (Some h),
                rescored c (_vector_store c1) (hit_key h) e' (Some sc))
           | None =>
               (Raise ValueError,
                rescored c (_vector_store c1) (hit_key h) e' None)
           end
  end.
Proof.
  intros Hids. unfold get_best_match, bind.
  pose proof (search_outcome cfg env tool args (Some 1%Z) c) as Hout.
  destruct (search cfg env tool args (Some 1%Z) c) as [[[|h hits]|x] c1];
    [reflexivity | | reflexivity].
  destruct Hout as [_ [Hh [Hst _]]].
  destruct (proj1 (Hh h) (or_introl eq_refl))
    as [key [dist [_ [Hl [_ [Hle _]]]]]].
  assert (Hkey : hit_key h = key) by (apply (Hids _ _ Hl)).
  rewrite Hkey. cbv zeta. split; [exact Hl|].
  apply Qle_bool_iff in Hle. rewrite Hle.
  fold (hit_key h). rewrite Hkey.
  assert (Hl1 : lookup c1 key = Some (entry h))
    by (unfold lookup; rewrite Hst; exact Hl).
  rewrite (@touch_entry_outcome cfg env key c1 (entry h) Hl1). cbv zeta.
  unfold rescored, data_of. rewrite Hst.
  destruct (entry_score cfg env _); reflexivity.
Qed.

(** X13.  The counter methods of the cache, in full.  On an id that is not
    stored they return [False] and write nothing.  On a stored entry they
    store the entry that [CacheEntry.increment_reuse] (respectively
    [increment_context]) produces at the clock, under the same key and
    position, store its score recomputed at similarity 1 and return
    [True]; the index is not touched.  When that score is undefined the
    [ValueError] propagates after the counter was written.
    [increment_reference] is [increment_reuse]. *)
Theorem counter_methods_outcome cfg env i c :
  increment_reuse cfg env i c
  = match lookup c i with
    | None => (Ok false, c)
    | Some e =>
        let e' := ModelsMore.increment_reuse (now env) e in
        match entry_score cfg env e' with
        | Some sc => (Ok true, rescored c (_vector_store c) i e' (Some sc))
        | None => (Raise ValueError, rescored c (_vector_store c) i e' None)
        end
    end
  /\ increment_context cfg env i c
     = match lookup c i with
       | None => (Ok false, c)
       | Some e =>
           let e' := ModelsMore.increment_context (now env) e in
           match entry_score cfg env e' with
           | Some sc => (Ok true, rescored c (_vector_store c) i e' (Some sc))
           | None =>
               (Raise ValueError, rescored c (_vector_store c) i e' None)
           end
       end
  /\ increment_reference cfg env i c = increment_reuse cfg env i c.
Proof.
  split; [|split; [|reflexivity]].
  - destruct (lookup c i) as [e|] eqn:He;
      [|apply increment_reuse_missing; exact He].
    destruct c as [s vs]. unfold lookup in He. simpl in He.
    unfold increment_reuse, bind, storage_call, Memory.increment_reuse,
      Memory.get, Memory.update_score. simpl.
    rewrite He. simpl. rewrite PyDictFacts.get_set_eq.
    unfold _compute_entry_score, entry_score, from_dict, rescored, data_of,
      ModelsMore.increment_reuse.
    simpl.
    destruct (Scoring.compute_weighted_score _ _ _ _ _ _ _) as [sc|]; simpl;
      [|reflexivity].
    unfold PyDict.contains. rewrite PyDictFacts.get_set_eq. reflexivity.
  - destruct (lookup c i) as [e|] eqn:He;
      [|apply increment_context_missing; exact He].
    destruct c as [s vs]. unfold lookup in He. simpl in He.
    unfold increment_context, bind, storage_call, Memory.increment_context,
      Memory.get, Memory.update_score. simpl.
    rewrite He. simpl. rewrite PyDictFacts.get_set_eq.
    unfold _compute_entry_score, entry_score, from_dict, rescored, data_of,
      ModelsMore.increment_context.
    simpl.
    destruct (Scoring.compute_weighted_score _ _ _ _ _ _ _) as [sc|]; simpl;
      [|reflexivity].
    unfold PyDict.contains. rewrite PyDictFacts.get_set_eq. reflexivity.
Qed.

Lemma fresh_entry_score_is_1 cfg env tool args out ok :
  entry_score cfg env (fresh_entry env tool args out ok) = Some 1%R.
Proof.
  unfold entry_score. rewrite Scoring.compute_weighted_score_Some
    by (unfold Scoring.weighted_count; simpl; lra).
  f_equal. unfold Scoring.score_value, Scoring.weighted_count. simpl.
  replace (Q2R (reuse_context_factor cfg) * 0
           + (1 - Q2R (reuse_context_factor cfg)) * 0 + 1)%R with 1%R
    by ring.
  rewrite ln_1. unfold Rdiv. rewrite Rmult_0_l.
  rewrite Rmin_left by lra. rewrite RMicromega.Q2R_1. ring.
Qed.

(** The record that [save] adds to the index. *)
Definition record_of (tool : string) (args : Args)
  : VectorRecord Embedding :=
  {| vid := entry_key tool args;
     vembedding := embed (Utils.serialize_args args);
     vdocument := Utils.serialize_args args;
     vtool_name := tool |}.

(** X14.  [save] of a call that is not stored, into a store below
    [max_cache_size], with a durable write that does not fail, under any
    configuration: it returns the new entry, which has both counters at 0,
    the clock as creation and access time and the given output; afterwards
    that entry is stored under the deterministic id with the score 1, as
    the last key, every other entry is as before, and the index has one
    more record, for this id, unless it already had one. *)
Theorem save_creates_entry cfg env tool args out ok c :
  lookup c (entry_key tool args) = None ->
  storage_set_raises env = false ->
  (Z.of_nat (size c) < max_cache_size cfg)%Z ->
  exists e c',
    save cfg env tool args out ok c = (Ok e, c')
    /\ id e = entry_key tool args
    /\ (reuse_count e, provide_context_count e) = (0, 0)%Z
    /\ (created_at e, last_accessed_at e) = (now env, now env)
    /\ (output e, success e) = (out, ok)
    /\ lookup c' (entry_key tool args) = Some e
    /\ fst (Memory.get_score (entry_key tool args) (_storage c')) = Some 1%R
    /\ (forall k, k <> entry_key tool args -> lookup c' k = lookup c k)
    /\ fst (Memory.keys (_storage c'))
       = fst (Memory.keys (_storage c)) ++ [entry_key tool args]
    /\ _vector_store c'
       = if existsb (fun r => String.eqb (entry_key tool args) (vid r))
              (_vector_store c)
         then _vector_store c
         else _vector_store c ++ [record_of tool args].
Proof.
  intros Hnone Hset Hsize.
  exists (fresh_entry env tool args out ok).
  rewrite (@save_new _ cfg env tool args out ok c Hnone).
  rewrite fresh_entry_score_is_1. cbv zeta. rewrite Hset.
  rewrite maybe_evict_unfold.
  match goal with
  | |- context [size (put ?c1 ?k ?e ?sc)] =>
      assert (Hsz : size (put c1 k e sc) = S (size c))
        by (apply (@size_put_absent _ c1 k e sc); exact Hnone)
  end.
  rewrite Hsz.
  assert (Hle : (Z.of_nat (S (size c)) <=? max_cache_size cfg)%Z = true)
    by (apply Z.leb_le; lia).
  rewrite Hle. eexists. split; [reflexivity|].
  split; [reflexivity|]. split; [reflexivity|]. split; [reflexivity|].
  split; [reflexivity|]. split; [apply lookup_put_eq|].
  split; [simpl; apply PyDictFacts.get_set_eq|].
  split; [|split].
  - intros k Hk. rewrite lookup_put_neq by (intros E; apply Hk; symmetry;
      exact E). reflexivity.
  - simpl. apply PyDictFacts.keys_set_absent.
    apply PyDictFacts.get_None. exact Hnone.
  - reflexivity.
Qed.

(** X15.  [save] of a call that is stored updates the entry in place and
    never evicts.  It returns exactly when the score of the updated entry
    is defined and the durable write does not fail; the entry it returns
    and stores differs from the stored one in the output, the success flag
    and the access time only (id, uuid, creation time, embedding and both
    counters are kept), its score is recomputed, the keys and their order,
    every other entry and the index are as before, whatever the size of
    the store.  When it raises, nothing was written. *)
Theorem save_updates_in_place cfg env tool args out ok c d :
  lookup c (entry_key tool args) = Some d ->
  match save cfg env tool args out ok c with
  | (Ok e, c') =>
      storage_set_raises env = false
      /\ e = with_last_accessed_at (now env) (with_output out ok d)
      /\ (id e, uuid e, created_at e, embedding e, tool_name e,
          input_text e, input_args e, reuse_count e, provide_context_count e)
         = (id d, uuid d, created_at d, embedding d, tool_name d,
            input_text d, input_args d, reuse_count d,
            provide_context_count d)
      /\ lookup c' (entry_key tool args) = Some e
      /\ fst (Memory.get_score (entry_key tool args) (_storage c'))
         = entry_score cfg env e
      /\ entry_score cfg env e <> None
      /\ (forall k, k <> entry_key tool args -> lookup c' k = lookup c k)
      /\ fst (Memory.keys (_storage c')) = fst (Memory.keys (_storage c))
      /\ _vector_store c' = _vector_store c
  | (Raise x, c') =>
      c' = c
      /\ (x = ValueError
          /\ entry_score cfg env
               (with_last_accessed_at (now env) (with_output out ok d))
             = None
          \/ x = StorageError /\ storage_set_raises env = true)
  end.
Proof.
  intros Hd. rewrite (@save_existing _ cfg env tool args out ok c d Hd).
  unfold updated_entry, from_dict.
  destruct (entry_score cfg env _) as [sc|] eqn:Hsc;
    [|split; [reflexivity | left; split; reflexivity]].
  destruct (storage_set_raises env) eqn:Hset;
    [split; [reflexivity | right; split; reflexivity]|].
  split; [reflexivity|]. split; [reflexivity|]. split; [reflexivity|].
  split; [apply lookup_put_eq|].
  split; [simpl; rewrite Hsc; apply PyDictFacts.get_set_eq|].
  split; [rewrite Hsc; discriminate|].
  split; [|split].
  - intros k Hk. rewrite lookup_put_neq by (intros E; apply Hk; symmetry;
      exact E). reflexivity.
  - simpl. apply PyDictFacts.keys_set_present.
    eapply PyDictFacts.get_In. exact Hd.
  - reflexivity.
Qed.

(** The stores without the entries, scores and records of the keys
    [ks]. *)
Definition without (ks : list string) (c : ToolCache) : ToolCache :=
  {| _storage :=
       {| Memory._data :=
            filter (fun kv => negb (existsb (String.eqb (fst kv)) ks))
              (data_of c);
          Memory._scores :=
            filter (fun kv => negb (existsb (String.eqb (fst kv)) ks))
              (Memory._scores (_storage c)) |};
     _vector_store :=
       filter (fun r => negb (existsb (String.eqb (vid r)) ks))
         (_vector_store c) |}.

Lemma without_nil c : without [] c = c.
Proof.
  destruct c as [[d sc] vs]. unfold without, data_of. simpl.
  rewrite !filter_all by reflexivity. reflexivity.
Qed.

Lemma pop_as_filter (V : Type) (d : PyDict.t V) k ks :
  filter (fun kv => negb (existsb (String.eqb (fst kv)) ks)) (PyDict.pop d k)
  = filter (fun kv => negb (existsb (String.eqb (fst kv)) (k :: ks))) d.
Proof.
  unfold PyDict.pop. rewrite filter_filter. apply filter_ext.
  intros [k' v]. simpl. rewrite Bool.negb_orb.
  rewrite (String.eqb_sym k k'). reflexivity.
Qed.

Lemma evict_loop_outcome env ks :
  forall c,
  vector_delete_raises env = false ->
  NoDup ks ->
  (forall k, In k ks -> In k (PyDict.keys (data_of c))) ->
  for_each ks (_evict_entry env) c = (Ok tt, without ks c).
Proof.
  induction ks as [|k ks IH]; intros c Hraise Hnd Hin; simpl.
  - rewrite without_nil. reflexivity.
  - inversion Hnd as [|? ? Hnotin Hnd']; subst.
    assert (Hk : In k (PyDict.keys (data_of c)))
      by (apply Hin; left; reflexivity).
    unfold bind at 1. unfold _evict_entry at 1.
    unfold bind, storage_call, Memory.exists_, Memory.delete. simpl.
    unfold data_of in Hk.
    rewrite (proj2 (PyDictFacts.contains_true _ _) Hk).
    unfold vector_delete. rewrite Hraise. simpl.
    rewrite IH; [|exact Hraise | exact Hnd' |].
    + unfold without, data_of. simpl.
      rewrite !pop_as_filter, filter_filter. f_equal. f_equal.
      apply filter_ext. intros r. simpl.
      rewrite Bool.orb_false_r, Bool.negb_orb. reflexivity.
    + intros k0 Hk0. unfold data_of. simpl.
      rewrite PyDictFacts.keys_pop. apply filter_In.
      split; [apply Hin; right; exact Hk0|].
      destruct (String.eqb k k0) eqn:E; [|reflexivity].
      apply String.eqb_eq in E. subst k0. contradiction.
Qed.

(** X16.  [_maybe_evict] in full, on a well-formed store.  Within
    [max_cache_size] it writes nothing.  Above it, it takes the
    [size - max_cache_size] keys that the query of the configured policy
    returns; when the delete of the index does not fail it returns and has
    removed exactly the entries, scores and index records of those keys,
    keeping the others in their order; when that delete fails it raises
    the index error after removing the first of those entries from the
    durable store only. *)
Theorem maybe_evict_outcome cfg env c :
  wf c ->
  let victims :=
    evict_keys (eviction_policy cfg)
      (Z.to_nat (Z.of_nat (size c) - max_cache_size cfg)) (_storage c) in
  _maybe_evict cfg env c
  = if (Z.of_nat (size c) <=? max_cache_size cfg)%Z then (Ok tt, c)
    else if vector_delete_raises env then
      match victims with
      | [] => (Ok tt, c)
      | v :: _ =>
          (Raise VectorStoreError,
           {| _storage := snd (Memory.delete v (_storage c));
              _vector_store := _vector_store c |})
      end
    else (Ok tt, without victims c).
Proof.
  intros [Hwf Hvs] victims. rewrite maybe_evict_unfold.
  destruct (Z.of_nat (size c) <=? max_cache_size cfg)%Z; [reflexivity|].
  fold victims.
  destruct (evict_keys_spec (eviction_policy cfg)
              (Z.to_nat (Z.of_nat (size c) - max_cache_size cfg)) Hwf)
    as [Hnd [Hin _]].
  fold victims in Hnd, Hin.
  destruct (vector_delete_raises env) eqn:Hraise.
  - destruct victims as [|v rest]; [reflexivity|]. simpl.
    assert (Hv : In v (PyDict.keys (Memory._data (_storage c))))
      by (apply Hin; left; reflexivity).
    unfold bind at 1. unfold _evict_entry at 1.
    unfold bind, storage_call, Memory.exists_, Memory.delete. simpl.
    rewrite (proj2 (PyDictFacts.contains_true _ _) Hv).
    unfold vector_delete. rewrite Hraise. reflexivity.
  - apply evict_loop_outcome; [exact Hraise | exact Hnd | exact Hin].
Qed.

Lemma In_pair_get (V : Type) (d : PyDict.t V) k v :
  NoDup (PyDict.keys d) -> In (k, v) d -> PyDict.get d k = Some v.
Proof.
  induction d as [|[k' v'] d IH]; simpl; [intros _ []|].
  intros Hnd Hin. inversion Hnd as [|? ? Hnotin Hnd']; subst.
  destruct Hin as [Heq | Hin].
  - injection Heq as -> ->. rewrite String.eqb_refl. reflexivity.
  - destruct (String.eqb k k') eqn:E.
    + apply String.eqb_eq in E. subst k'. exfalso. apply Hnotin.
      apply in_map_iff. exists (k, v). split; [reflexivity | exact Hin].
    + apply IH; assumption.
Qed.

(** The sum and the largest value (at least 0) of a counter over the
    stored entries. *)
Definition total_of (f : CacheEntry -> Z) (c : ToolCache) : Z :=
  fold_right Z.add 0%Z (map (fun kv => f (snd kv)) (data_of c)).

Definition largest_of (f : CacheEntry -> Z) (c : ToolCache) : Z :=
  fold_right Z.max 0%Z (map (fun kv => f (snd kv)) (data_of c)).

Lemma stats_loop_outcome (c : ToolCache) (l : PyDict.t EntryDict) :
  forall acc,
  (forall k v, In (k, v) l -> lookup c k = Some v) ->
  stats_loop (PyDict.keys l) acc c
  = (Ok (let '(a, b, m) := acc in
         ((a + fold_right Z.add 0 (map (fun kv => reuse_count (snd kv)) l))%Z,
          (b + fold_right Z.add 0
                 (map (fun kv => provide_context_count (snd kv)) l))%Z,
          fold_right Z.max m
            (map (fun kv => total_reference_count (snd kv)) (rev l)))),
     c).
Proof.
  induction l as [|[k v] l IH]; intros [[a b] m] Hl; simpl.
  - rewrite !Z.add_0_r. reflexivity.
  - unfold bind at 1. unfold storage_call at 1.
    assert (Hk : lookup c k = Some v) by (apply Hl; left; reflexivity).
    unfold lookup in Hk. simpl. rewrite Hk.
    assert (Hc : {| _storage := _storage c;
                    _vector_store := _vector_store c |} = c)
      by (destruct c; reflexivity).
    rewrite Hc. rewrite IH by (intros k0 v0 H0; apply Hl; right; exact H0).
    rewrite map_app, fold_right_app. simpl.
    unfold total_reference_count.
    rewrite !Z.add_assoc.
    rewrite (Z.max_comm (reuse_count v + provide_context_count v) m).
    reflexivity.
Qed.

Lemma fold_max_rev (m : Z) (l : list Z) :
  fold_right Z.max m (rev l) = fold_right Z.max m l.
Proof.
  revert m. induction l as [|x l IH]; intros m; simpl; [reflexivity|].
  rewrite fold_right_app. simpl. rewrite IH.
  clear IH. revert m. induction l as [|y l IH]; intros m; simpl.
  - reflexivity.
  - rewrite IH. lia.
Qed.

(** X17.  On a well-formed store that is not empty, [stats] returns, leaves
    the stores as they are, and reports the number of entries, the sum of
    the reuse counts, the sum of the context counts, the sum of both, their
    quotient by the number of entries, and the largest total reference
    count of an entry (0 when all of them are negative). *)
Theorem stats_aggregates_counters c :
  wf c -> data_of c <> [] ->
  stats c
  = (Ok [ ("total_entries"%string, PyInt (Z.of_nat (size c)));
          ("total_reuse_count"%string, PyInt (total_of reuse_count c));
          ("total_context_count"%string,
             PyInt (total_of provide_context_count c));
          ("total_references"%string,
             PyInt (total_of reuse_count c
                    + total_of provide_context_count c));
          ("avg_reference_count"%string,
             PyFloat (inject_Z (total_of reuse_count c
                                + total_of provide_context_count c)
                      / inject_Z (Z.of_nat (size c))));
          ("max_reference_count"%string,
             PyInt (largest_of total_reference_count c)) ],
     c).
Proof.
  intros [[Hnd _] _] Hne.
  unfold stats, bind at 1. unfold storage_call at 1, Memory.keys. simpl.
  assert (Hc : {| _storage := _storage c;
                  _vector_store := _vector_store c |} = c)
    by (destruct c; reflexivity).
  rewrite Hc.
  destruct (PyDict.keys (Memory._data (_storage c))) as [|k0 ks] eqn:Hk.
  - exfalso. apply Hne. unfold data_of.
    destruct (Memory._data (_storage c)); [reflexivity | discriminate Hk].
  - rewrite <- Hk. unfold bind.
    rewrite (@stats_loop_outcome c (Memory._data (_storage c)) (0, 0, 0)%Z)
      by (intros k v Hin; apply In_pair_get; [rewrite Hk; exact Hnd|];
          exact Hin).
    unfold ret, total_of, largest_of, data_of, size, PyDict.keys.
    rewrite map_rev, fold_max_rev, length_map, !Z.add_0_l. reflexivity.
Qed.

(* ------------------------------------------------------------------ *)
(** ** What the calls other than [save] and [clear] leave alone *)

Ltac respects_tree Hrefl Htrans :=
  repeat match goal with
    | |- respects _ (ret _) => apply (respects_ret _ Hrefl)
    | |- respects _ (raise _) => apply (respects_raise _ Hrefl)
    | |- respects _ (_compute_entry_score _ _ _ _) =>
        apply (respects_compute_entry_score _ Hrefl)
    | |- respects _ (vector_search _ _ _) =>
        apply (respects_vector_search _ Hrefl)
    | |- respects _ (storage_call (Memory.get _)) =>
        apply (respects_get _ Hrefl)
    | |- respects _ (storage_call (Memory.exists_ _)) =>
        apply (respects_exists _ Hrefl)
    | |- respects _ (storage_call Memory.size) =>
        apply (respects_size _ Hrefl)
    | |- respects _ (storage_call Memory.keys) =>
        apply (respects_keys _ Hrefl)
    | |- respects _ (storage_call (Memory.get_bottom_by_score _)) =>
        apply (respects_get_bottom_by_score _ Hrefl)
    | |- respects _ (storage_call (Memory.get_oldest_by_access _)) =>
        apply (respects_get_oldest_by_access _ Hrefl)
    | |- respects _ (storage_call (Memory.get_least_used _)) =>
        apply (respects_get_least_used _ Hrefl)
    | |- respects _ (storage_call (Memory.get_oldest_by_creation _)) =>
        apply (respects_get_oldest_by_creation _ Hrefl)
    | |- respects _ (bind _ _) => apply (respects_bind Htrans); [|intros ?]
    | |- respects _ (try_except _ _) =>
        apply (respects_try_except Htrans); [|intros ?]
    | |- respects _ (for_each _ _) =>
        apply (respects_for_each Hrefl Htrans); intros ?
    | |- respects _ (if ?b then _ else _) => destruct b
    | |- respects _ (match ?x with _ => _ end) => destruct x
    end.

(** What a call result is made of: the fields of an entry that only
    [save] assigns. *)
Definition payload (e : CacheEntry) :=
  (id e, tool_name e, input_text e, input_args e, output e, uuid e,
   embedding e, created_at e, success e).

(** The keys of the durable store, in order, each with the payload of its
    entry. *)
Definition payloads (c : ToolCache) :=
  map (fun kv => (fst kv, payload (snd kv))) (data_of c).

Definition same_payloads (c c' : ToolCache) : Prop :=
  payloads c' = payloads c.

Lemma same_payloads_refl c : same_payloads c c.
Proof. reflexivity. Qed.

Lemma same_payloads_trans a b c :
  same_payloads a b -> same_payloads b c -> same_payloads a c.
Proof. unfold same_payloads. intros H1 H2. rewrite H2. exact H1. Qed.

Lemma payloads_set (d : PyDict.t EntryDict) k e e' :
  PyDict.get d k = Some e -> payload e' = payload e ->
  map (fun kv => (fst kv, payload (snd kv))) (PyDict.set d k e')
  = map (fun kv => (fst kv, payload (snd kv))) d.
Proof.
  intros Hget Hp. induction d as [|[k0 v0] d IH]; simpl in *; [discriminate|].
  destruct (String.eqb k k0) eqn:E; simpl.
  - injection Hget as ->. rewrite Hp. reflexivity.
  - rewrite IH by exact Hget. reflexivity.
Qed.

Lemma same_payloads_storage_call A (f : Memory.SM A) :
  (forall s,
     map (fun kv => (fst kv, payload (snd kv))) (Memory._data (snd (f s)))
     = map (fun kv => (fst kv, payload (snd kv))) (Memory._data s)) ->
  respects same_payloads (storage_call f).
Proof.
  intros Hf c. unfold same_payloads, payloads, data_of, storage_call.
  specialize (Hf (_storage c)). destruct (f (_storage c)) as [a s'].
  exact Hf.
Qed.

Lemma same_payloads_of_same_storage A (m : M A) :
  respects same_storage m -> respects same_payloads m.
Proof.
  intros H c. unfold same_payloads, payloads, data_of. rewrite (H c).
  reflexivity.
Qed.

Ltac payloads_leaf :=
  first
    [ apply same_payloads_of_same_storage; apply same_storage_vector_delete
    | apply same_payloads_storage_call; intros s;
      unfold Memory.update_score, Memory.update_access_time,
        Memory.increment_reuse, Memory.increment_context,
        Memory.decrement_reference;
      repeat match goal with
        | |- context [if ?b then _ else _] => destruct b
        | |- context [match PyDict.get ?d ?k with _ => _ end] =>
            let H := fresh "Hget" in
            destruct (PyDict.get d k) eqn:H
        end;
      simpl; try reflexivity;
      (eapply payloads_set; [eassumption | reflexivity]) ].

Ltac payloads_auto :=
  respects_tree same_payloads_refl same_payloads_trans; try payloads_leaf.

Lemma same_payloads_touch_entry cfg env i :
  respects same_payloads (_touch_entry cfg env i).
Proof. unfold _touch_entry. payloads_auto. Qed.

Lemma same_payloads_search cfg env tool args k :
  respects same_payloads (search cfg env tool args k).
Proof. apply same_payloads_of_same_storage, same_storage_search. Qed.

Lemma same_payloads_increment_reuse cfg env i :
  respects same_payloads (increment_reuse cfg env i).
Proof. unfold increment_reuse. payloads_auto. Qed.

Lemma same_payloads_increment_context cfg env i :
  respects same_payloads (increment_context cfg env i).
Proof. unfold increment_context. payloads_auto. Qed.

(** The calls that assign the payload of an entry, or remove entries. *)
Definition writes_payload (call : Trace.Call) : bool :=
  match call with
  | Trace.CallSave _ _ _ _ | Trace.CallClear => true
  | _ => false
  end.

(** X18.  Only [save] and [clear] change what is cached: after any other
    call ([search], [get_best_match], the counter methods, [decide],
    [decrement_reference], [stats]), returning or raising, the durable
    store holds the same keys in the same order, and each entry has the
    id, tool name, input, output, uuid, embedding, creation time and
    success flag it had. *)
Theorem only_save_and_clear_change_payloads cfg env call c :
  writes_payload call = false ->
  payloads (Trace.run_call cfg env call c) = payloads c.
Proof.
  intros Hcall. change (same_payloads c (Trace.run_call cfg env call c)).
  destruct call; simpl in *; try discriminate Hcall.
  - apply same_payloads_search.
  - assert (H : respects same_payloads (get_best_match cfg env tool args)).
    { unfold get_best_match. payloads_auto;
        first [apply same_payloads_search | apply same_payloads_touch_entry]. }
    apply H.
  - apply same_payloads_increment_reuse.
  - apply same_payloads_increment_context.
  - apply same_payloads_increment_reuse.
  - assert (H : respects same_payloads
                  (Wrapper.decide icfg cfg env tool args)).
    { unfold Wrapper.decide. payloads_auto;
        first [ apply same_payloads_search
              | apply same_payloads_increment_reuse
              | apply same_payloads_increment_context ]. }
    apply H.
  - assert (H : respects same_payloads
                  (storage_call (Memory.decrement_reference entry_id)))
      by payloads_leaf.
    apply H.
  - apply (same_payloads_of_same_storage same_storage_stats).
Qed.

(* ------------------------------------------------------------------ *)
(** ** Every stored entry is in the index *)

Definition indexed (c : ToolCache) : Prop :=
  forall k, In k (PyDict.keys (data_of c)) ->
            In k (map (@vid Embedding) (_vector_store c)).

Definition indexed_pres (c c' : ToolCache) : Prop := indexed c -> indexed c'.

Lemma indexed_pres_refl c : indexed_pres c c.
Proof. intros H. exact H. Qed.

Lemma indexed_pres_trans a b c :
  indexed_pres a b -> indexed_pres b c -> indexed_pres a c.
Proof. unfold indexed_pres. auto. Qed.

Lemma indexed_storage_call A (f : Memory.SM A) :
  (forall s, incl (PyDict.keys (Memory._data (snd (f s))))
                  (PyDict.keys (Memory._data s))) ->
  respects indexed_pres (storage_call f).
Proof.
  intros Hf c Hidx k Hk. unfold storage_call, data_of in *.
  specialize (Hf (_storage c)). destruct (f (_storage c)) as [a s'].
  simpl in *. apply Hidx. apply Hf. exact Hk.
Qed.

Lemma In_vid_filter (vs : list (VectorRecord Embedding)) i k :
  k <> i -> In k (map (@vid Embedding) vs) ->
  In k (map (@vid Embedding)
          (filter (fun r => negb (existsb (String.eqb (vid r)) [i])) vs)).
Proof.
  intros Hne Hin. apply in_map_iff in Hin. destruct Hin as [r [Hr Hin]].
  apply in_map_iff. exists r. split; [exact Hr|].
  apply filter_In. split; [exact Hin|]. simpl.
  rewrite Bool.orb_false_r, Hr. apply Bool.negb_true_iff.
  apply String.eqb_neq. exact Hne.
Qed.

Lemma indexed_delete_unstored env i c :
  ~ In i (PyDict.keys (data_of c)) ->
  indexed c -> indexed (snd (vector_delete env [i] c)).
Proof.
  intros Hi Hidx. unfold vector_delete.
  destruct (vector_delete_raises env); [exact Hidx|].
  intros k Hk. simpl in *. apply In_vid_filter.
  - intros E. subst k. apply Hi. exact Hk.
  - apply Hidx. exact Hk.
Qed.

Lemma indexed_prune env i :
  respects indexed_pres
    (try_except
       (bind (storage_call (Memory.exists_ i))
          (fun present =>
             if negb present then vector_delete env [i] else ret tt))
       (fun _ => ret tt)).
Proof.
  intros c Hidx.
  unfold try_except, bind, storage_call, Memory.exists_. simpl.
  destruct (PyDict.contains (Memory._data (_storage c)) i) eqn:Hc; simpl.
  - exact Hidx.
  - assert (Hi : ~ In i (PyDict.keys (data_of c))).
    { intros Hin. apply PyDictFacts.contains_true in Hin.
      unfold data_of in Hin. rewrite Hin in Hc. discriminate. }
    pose proof (@indexed_delete_unstored env i
                  {| _storage := _storage c;
                     _vector_store := _vector_store c |} Hi Hidx) as H.
    destruct (vector_delete env [i] _) as [[u|x] c1]; exact H.
Qed.

Lemma indexed_search_loop cfg env results :
  forall hits, respects indexed_pres (search_loop cfg env results hits).
Proof.
  induction results as [|[entry_id distance] rest IH]; intros hits; simpl.
  - apply (respects_ret _ indexed_pres_refl).
  - apply (respects_bind indexed_pres_trans);
      [apply (respects_get _ indexed_pres_refl)|].
    intros [d|].
    + destruct (Qltb _ _); [apply IH|].
      apply (respects_bind indexed_pres_trans);
        [apply (respects_compute_entry_score _ indexed_pres_refl)|].
      intros ws. apply IH.
    + apply (respects_bind indexed_pres_trans); [apply indexed_prune|].
      intros _. apply IH.
Qed.

Lemma indexed_search cfg env tool args k :
  respects indexed_pres (search cfg env tool args k).
Proof.
  unfold search. respects_tree indexed_pres_refl indexed_pres_trans.
  apply indexed_search_loop.
Qed.

Ltac indexed_leaf :=
  apply indexed_storage_call; intros s;
  unfold Memory.update_score, Memory.update_access_time,
    Memory.increment_reuse, Memory.increment_context,
    Memory.decrement_reference;
  repeat match goal with
    | |- context [if ?b then _ else _] => destruct b
    | |- context [match PyDict.get ?d ?k with _ => _ end] =>
        let H := fresh "Hget" in
        destruct (PyDict.get d k) eqn:H
    end;
  simpl; try apply incl_refl;
  rewrite PyDictFacts.keys_set_present
    by (eapply PyDictFacts.get_In; eassumption);
  apply incl_refl.

Ltac indexed_auto :=
  respects_tree indexed_pres_refl indexed_pres_trans; try indexed_leaf.

Lemma indexed_touch_entry cfg env i :
  respects indexed_pres (_touch_entry cfg env i).
Proof. unfold _touch_entry. indexed_auto. Qed.

Lemma indexed_increment_reuse cfg env i :
  respects indexed_pres (increment_reuse cfg env i).
Proof. unfold increment_reuse. indexed_auto. Qed.

Lemma indexed_increment_context cfg env i :
  respects indexed_pres (increment_context cfg env i).
Proof. unfold increment_context. indexed_auto. Qed.

Lemma indexed_evict_entry env i : respects indexed_pres (_evict_entry env i).
Proof.
  intros c Hidx.
  unfold _evict_entry, bind, storage_call, Memory.exists_, Memory.delete.
  simpl.
  destruct (PyDict.contains (Memory._data (_storage c)) i); simpl;
    [|exact Hidx].
  assert (Hkeys : forall k,
             In k (PyDict.keys (PyDict.pop (Memory._data (_storage c)) i)) ->
             k <> i /\ In k (PyDict.keys (data_of c))).
  { intros k Hk. rewrite PyDictFacts.keys_pop in Hk.
    apply filter_In in Hk. destruct Hk as [Hk Hne]. split; [|exact Hk].
    intros E. subst k. rewrite String.eqb_refl in Hne. discriminate. }
  unfold vector_delete. destruct (vector_delete_raises env); simpl.
  - intros k Hk. apply Hkeys in Hk. apply Hidx, Hk.
  - intros k Hk. apply Hkeys in Hk. destruct Hk as [Hne Hk].
    apply In_vid_filter; [exact Hne | apply Hidx, Hk].
Qed.

Lemma indexed_maybe_evict cfg env :
  respects indexed_pres (_maybe_evict cfg env).
Proof.
  unfold _maybe_evict.
  respects_tree indexed_pres_refl indexed_pres_trans;
    apply indexed_evict_entry.
Qed.

Lemma vector_add_indexes i e doc tool c :
  In i (map (@vid Embedding) (_vector_store (snd (vector_add i e doc tool c))))
  /\ incl (_vector_store c) (_vector_store (snd (vector_add i e doc tool c))).
Proof.
  unfold vector_add. simpl.
  destruct (existsb (fun r => String.eqb i (vid r)) (_vector_store c))
    eqn:Hex.
  - split; [|apply incl_refl].
    apply existsb_exists in Hex. destruct Hex as [r [Hin Heq]].
    apply String.eqb_eq in Heq. apply in_map_iff. exists r.
    split; [symmetry; exact Heq | exact Hin].
  - split; [|apply incl_appl, incl_refl].
    rewrite map_app. apply in_or_app. right. left. reflexivity.
Qed.

Lemma indexed_save cfg env tool args out ok :
  respects indexed_pres (save cfg env tool args out ok).
Proof.
  intros c Hidx.
  destruct (lookup c (entry_key tool args)) as [d|] eqn:Hd.
  - rewrite (@save_existing _ cfg env tool args out ok c d Hd).
    destruct (entry_score cfg env _) as [sc|]; [|exact Hidx].
    destruct (storage_set_raises env); [exact Hidx|].
    intros k Hk. unfold put, data_of in *. simpl in *. apply Hidx.
    rewrite PyDictFacts.keys_set_present in Hk; [exact Hk|].
    eapply PyDictFacts.get_In. exact Hd.
  - rewrite (@save_new _ cfg env tool args out ok c Hd).
    destruct (entry_score cfg env _) as [sc|]; [|exact Hidx].
    cbv zeta.
    destruct (vector_add_indexes (entry_key tool args)
                (embed (Utils.serialize_args args))
                (Utils.serialize_args args) tool c) as [Hkey Hincl].
    set (c1 := snd (vector_add (entry_key tool args)
                      (embed (Utils.serialize_args args))
                      (Utils.serialize_args args) tool c)) in *.
    assert (Hidx1 : indexed c1).
    { intros k Hk. apply Hidx in Hk. apply in_map_iff in Hk.
      destruct Hk as [r [Hr Hin]]. apply in_map_iff. exists r.
      split; [exact Hr | apply Hincl; exact Hin]. }
    destruct (storage_set_raises env).
    + simpl.
      assert (Hi : ~ In (entry_key tool args) (PyDict.keys (data_of c1))).
      { apply PyDictFacts.get_None. exact Hd. }
      pose proof (@indexed_delete_unstored env (entry_key tool args) c1
                    Hi Hidx1) as H.
      unfold try_except.
      destruct (vector_delete env [entry_key tool args] c1) as [[u|x] c2];
        exact H.
    + match goal with
      | |- indexed (snd (match _maybe_evict cfg env ?c2 with _ => _ end)) =>
          pose proof (indexed_maybe_evict cfg env) as Hev;
          unfold respects in Hev; specialize (Hev c2);
          destruct (_maybe_evict cfg env c2) as [[u|x] c3]
      end; simpl in *; apply Hev.
      * intros k Hk. unfold put, data_of in Hk. simpl in Hk.
        rewrite PyDictFacts.keys_set_absent in Hk
          by (apply PyDictFacts.get_None; exact Hd).
        apply in_app_or in Hk. destruct Hk as [Hk | [<- | []]];
          [apply Hidx1; exact Hk | exact Hkey].
      * intros k Hk. unfold put, data_of in Hk. simpl in Hk.
        rewrite PyDictFacts.keys_set_absent in Hk
          by (apply PyDictFacts.get_None; exact Hd).
        apply in_app_or in Hk. destruct Hk as [Hk | [<- | []]];
          [apply Hidx1; exact Hk | exact Hkey].
Qed.

Lemma stats_loop_vector_store l :
  forall acc c, _vector_store (snd (stats_loop l acc c)) = _vector_store c.
Proof.
  induction l as [|k l IH]; intros acc c; simpl; [reflexivity|].
  unfold bind, storage_call. simpl.
  destruct (PyDict.get _ k); [destruct acc as [[a b] m]|]; rewrite IH;
    reflexivity.
Qed.

Lemma stats_vector_store c : _vector_store (snd (stats c)) = _vector_store c.
Proof.
  unfold stats, bind, storage_call. simpl.
  destruct (PyDict.keys _) as [|k l] eqn:Hk; [reflexivity|].
  match goal with
  | |- context [stats_loop ?l0 ?a ?c0] =>
      pose proof (stats_loop_vector_store l0 a c0) as H;
      destruct (stats_loop l0 a c0) as [[[[x y] z]|e] c1]; exact H
  end.
Qed.

Lemma indexed_run_call cfg env call c :
  indexed c -> indexed (Trace.run_call cfg env call c).
Proof.
  destruct call; simpl.
  - apply indexed_search.
  - assert (H : respects indexed_pres (get_best_match cfg env tool args)).
    { unfold get_best_match.
      respects_tree indexed_pres_refl indexed_pres_trans;
        first [apply indexed_search | apply indexed_touch_entry]. }
    apply H.
  - apply indexed_save.
  - apply indexed_increment_reuse.
  - apply indexed_increment_context.
  - apply indexed_increment_reuse.
  - assert (H : respects indexed_pres
                  (Wrapper.decide icfg cfg env tool args)).
    { unfold Wrapper.decide.
      respects_tree indexed_pres_refl indexed_pres_trans;
        first [ apply indexed_search
              | apply indexed_increment_reuse
              | apply indexed_increment_context ]. }
    apply H.
  - assert (H : respects indexed_pres
                  (storage_call (Memory.decrement_reference entry_id)))
      by indexed_leaf.
    apply H.
  - intros Hidx.
    pose proof (same_storage_stats c) as Hst. unfold same_storage in Hst.
    pose proof (stats_vector_store c) as Hvs.
    intros k Hk. unfold data_of in Hk. rewrite Hst in Hk. rewrite Hvs.
    apply Hidx. exact Hk.
  - intros _ k Hk. destruct Hk.
Qed.

(** X19.  In every state that a history of calls reaches from a new cache,
    with any clock and with durable writes and index deletes that fail at
    any call, every key of the durable store has a record in the index:
    [save] adds the record before it writes the entry, and eviction and
    repair delete a record only once no entry is stored under its id. *)
Theorem stored_entries_are_indexed cfg calls :
  incl (fst (Memory.keys (_storage (Trace.run cfg calls init))))
       (map (@vid Embedding) (_vector_store (Trace.run cfg calls init))).
Proof.
  assert (H : forall c, indexed c -> indexed (Trace.run cfg calls c)).
  { induction calls as [|[env call] rest IH]; intros c Hidx; simpl;
      [exact Hidx|].
    apply IH, indexed_run_call, Hidx. }
  apply (H init). intros k0 [].
Qed.

End WithCollaborators.

End CacheMoreFacts.

(* ================================================================== *)
(** * The methods on concrete stores *)

Module DoublesMore.

Import Models Config Cache CacheFacts CacheMoreFacts Doubles.

Local Open Scope string_scope.

(** An entry for the call ["bb"], created one hour after the epoch and
    never referenced. *)
Definition entry_bb : @CacheEntry doubles :=
  @fresh_entry doubles env1 "search" "bb" "second answer" true.

Definition record_bb : VectorRecord Q :=
  {| vid := "search:bb"; vembedding := length_embedding "bb";
     vdocument := "bb"; vtool_name := "search" |}.

(** A backend with the entry of ["a"], reused once, scored 2, and the
    entry of ["bb"], scored 1. *)
Definition backend_ab : @Memory.MemoryStorageBackend doubles :=
  {| Memory._data := [("search:a", entry_a); ("search:bb", entry_bb)];
     Memory._scores := [("search:a", 2%R); ("search:bb", 1%R)] |}.

Definition cache_ab : @ToolCache doubles :=
  {| _storage := backend_ab; _vector_store := [record_a; record_bb] |}.

Lemma backend_ab_wf : MemoryFacts.wf backend_ab.
Proof.
  split; [|reflexivity]. simpl.
  constructor; [intros [H | []]; discriminate H|].
  constructor; [intros []|]. constructor.
Qed.

Lemma cache_ab_wf : wf cache_ab.
Proof.
  split; [exact backend_ab_wf|]. simpl.
  constructor; [intros [H | []]; discriminate H|].
  constructor; [intros []|]. constructor.
Qed.

Lemma ranking_queries_return_the_lowest_witness :
  MemoryFacts.wf backend_ab
  /\ (In "search:bb" (fst (Memory.get_bottom_by_score 1 backend_ab)) ->
      ~ In "search:a" (fst (Memory.get_bottom_by_score 1 backend_ab)) ->
      forall sc sc',
        fst (Memory.get_score "search:bb" backend_ab) = Some sc ->
        fst (Memory.get_score "search:a" backend_ab) = Some sc' ->
        (sc <= sc')%R)
  /\ (In "search:bb" (fst (Memory.get_oldest_by_access 1 backend_ab)) ->
      ~ In "search:a" (fst (Memory.get_oldest_by_access 1 backend_ab)) ->
      forall e e',
        fst (Memory.get "search:bb" backend_ab) = Some e ->
        fst (Memory.get "search:a" backend_ab) = Some e' ->
        (last_accessed_at e <= last_accessed_at e')%Z)
  /\ (In "search:bb" (fst (Memory.get_least_used 1 backend_ab)) ->
      ~ In "search:a" (fst (Memory.get_least_used 1 backend_ab)) ->
      forall e e',
        fst (Memory.get "search:bb" backend_ab) = Some e ->
        fst (Memory.get "search:a" backend_ab) = Some e' ->
        (total_reference_count e <= total_reference_count e')%Z)
  /\ (In "search:bb" (fst (Memory.get_oldest_by_creation 1 backend_ab)) ->
      ~ In "search:a" (fst (Memory.get_oldest_by_creation 1 backend_ab)) ->
      forall e e',
        fst (Memory.get "search:bb" backend_ab) = Some e ->
        fst (Memory.get "search:a" backend_ab) = Some e' ->
        (created_at e <= created_at e')%Z).
Proof.
  split; [exact backend_ab_wf|].
  exact (@MemoryMoreFacts.ranking_queries_return_the_lowest doubles 1
           backend_ab "search:bb" "search:a" backend_ab_wf).
Defined.

Lemma decrement_after_increment_context_witness :
  fst (Memory.get "search:a" backend_ab) = Some entry_a
  /\ (0 <= provide_context_count entry_a)%Z
  /\ exists e',
       fst (Memory.get "search:a"
              (snd (Memory.decrement_reference "search:a"
                      (snd (Memory.increment_context 3600000000
                              "search:a" backend_ab)))))
       = Some e'
       /\ total_reference_count e' = total_reference_count entry_a
       /\ last_accessed_at e' = 3600000000%Z
       /\ (if (0 <? reuse_count entry_a)%Z then
             reuse_count e' = (reuse_count entry_a - 1)%Z
             /\ provide_context_count e'
                = (provide_context_count entry_a + 1)%Z
           else
             reuse_count e' = reuse_count entry_a
             /\ provide_context_count e' = provide_context_count entry_a).
Proof.
  assert (H1 : fst (Memory.get "search:a" backend_ab) = Some entry_a)
    by reflexivity.
  assert (H2 : (0 <= provide_context_count entry_a)%Z) by (simpl; lia).
  split; [exact H1|]. split; [exact H2|].
  exact (@MemoryMoreFacts.decrement_after_increment_context doubles
           3600000000 "search:a" backend_ab entry_a H1 H2).
Defined.

Lemma cache_ab_ids : ids_consistent cache_ab.
Proof.
  intros k e Hk. unfold lookup in Hk. simpl in Hk.
  destruct (String.eqb k "search:a") eqn:Ea.
  - apply String.eqb_eq in Ea. subst k. injection Hk as <-. reflexivity.
  - destruct (String.eqb k "search:bb") eqn:Eb; [|discriminate].
    apply String.eqb_eq in Eb. subst k. injection Hk as <-. reflexivity.
Qed.

Lemma get_best_match_takes_first_hit_witness :
  ids_consistent cache_ab
  /\ match @search doubles cfg_reuse_08 env1 "search" "a" (Some 1%Z)
             cache_ab with
     | (Raise x, c1) =>
         @get_best_match doubles cfg_reuse_08 env1 "search" "a" cache_ab
         = (Raise x, c1)
     | (Ok [], c1) =>
         @get_best_match doubles cfg_reuse_08 env1 "search" "a" cache_ab
         = (Ok None, c1)
     | (Ok (h :: _), c1) =>
         let e' := with_last_accessed_at (now env1) (entry h) in
         lookup cache_ab (hit_key h) = Some (entry h)
         /\ @get_best_match doubles cfg_reuse_08 env1 "search" "a" cache_ab
            = match entry_score cfg_reuse_08 env1 e' with
              | Some sc =>
                  (Ok (Some h),
                   rescored cache_ab (_vector_store c1) (hit_key h) e'
                     (Some sc))
              | None =>
                  (Raise ValueError,
                   rescored cache_ab (_vector_store c1) (hit_key h) e' None)
              end
     end.
Proof.
  split; [exact cache_ab_ids|].
  exact (@get_best_match_takes_first_hit doubles cfg_reuse_08 env1
           "search" "a" cache_ab cache_ab_ids).
Defined.

Lemma save_creates_entry_witness :
  lookup (@init doubles) (@entry_key doubles "search" "x") = None
  /\ storage_set_raises env0 = false
  /\ (Z.of_nat (size (@init doubles)) < max_cache_size cfg_reuse_08)%Z
  /\ exists e c',
       @save doubles cfg_reuse_08 env0 "search" "x" "result" true init
       = (Ok e, c')
       /\ id e = @entry_key doubles "search" "x"
       /\ (reuse_count e, provide_context_count e) = (0, 0)%Z
       /\ (created_at e, last_accessed_at e) = (now env0, now env0)
       /\ (output e, success e) = ("result", true)
       /\ lookup c' (@entry_key doubles "search" "x") = Some e
       /\ fst (Memory.get_score (@entry_key doubles "search" "x")
                 (_storage c')) = Some 1%R
       /\ (forall k, k <> @entry_key doubles "search" "x" ->
             lookup c' k = lookup (@init doubles) k)
       /\ fst (Memory.keys (_storage c'))
          = (fst (Memory.keys (_storage (@init doubles)))
             ++ [@entry_key doubles "search" "x"])%list
       /\ _vector_store c'
          = if existsb
                 (fun r => String.eqb (@entry_key doubles "search" "x")
                             (vid r))
                 (_vector_store (@init doubles))
            then _vector_store (@init doubles)
            else (_vector_store (@init doubles)
                  ++ [@record_of doubles "search" "x"])%list.
Proof.
  assert (H1 : lookup (@init doubles) (@entry_key doubles "search" "x")
               = None) by reflexivity.
  assert (H2 : storage_set_raises env0 = false) by reflexivity.
  assert (H3 : (Z.of_nat (size (@init doubles))
                < max_cache_size cfg_reuse_08)%Z) by (simpl; lia).
  split; [exact H1|]. split; [exact H2|]. split; [exact H3|].
  exact (@save_creates_entry doubles cfg_reuse_08 env0 "search" "x" "result"
           true init H1 H2 H3).
Defined.

Lemma save_updates_in_place_witness :
  lookup cache_ab (@entry_key doubles "search" "a") = Some entry_a
  /\ match @save doubles cfg_lfu_1 env1 "search" "a" "new answer" false
             cache_ab with
     | (Ok e, c') =>
         storage_set_raises env1 = false
         /\ e = with_last_accessed_at (now env1)
                  (with_output "new answer" false entry_a)
         /\ (id e, uuid e, created_at e, embedding e, tool_name e,
             input_text e, input_args e, reuse_count e,
             provide_context_count e)
            = (id entry_a, uuid entry_a, created_at entry_a,
               embedding entry_a, tool_name entry_a, input_text entry_a,
               input_args entry_a, reuse_count entry_a,
               provide_context_count entry_a)
         /\ lookup c' (@entry_key doubles "search" "a") = Some e
         /\ fst (Memory.get_score (@entry_key doubles "search" "a")
                   (_storage c'))
            = entry_score cfg_lfu_1 env1 e
         /\ entry_score cfg_lfu_1 env1 e <> None
         /\ (forall k, k <> @entry_key doubles "search" "a" ->
               lookup c' k = lookup cache_ab k)
         /\ fst (Memory.keys (_storage c'))
            = fst (Memory.keys (_storage cache_ab))
         /\ _vector_store c' = _vector_store cache_ab
     | (Raise x, c') =>
         c' = cache_ab
         /\ (x = ValueError
             /\ entry_score cfg_lfu_1 env1
                  (with_last_accessed_at (now env1)
                     (with_output "new answer" false entry_a))
                = None
             \/ x = StorageError /\ storage_set_raises env1 = true)
     end.
Proof.
  assert (H1 : lookup cache_ab (@entry_key doubles "search" "a")
               = Some entry_a) by reflexivity.
  split; [exact H1|].
  exact (@save_updates_in_place doubles cfg_lfu_1 env1 "search" "a"
           "new answer" false cache_ab entry_a H1).
Defined.

Lemma maybe_evict_outcome_witness :
  wf cache_ab
  /\ let victims :=
       evict_keys (eviction_policy cfg_lfu_1)
         (Z.to_nat (Z.of_nat (size cache_ab) - max_cache_size cfg_lfu_1))
         (_storage cache_ab) in
     @_maybe_evict doubles cfg_lfu_1 env0 cache_ab
     = if (Z.of_nat (size cache_ab) <=? max_cache_size cfg_lfu_1)%Z
       then (Ok tt, cache_ab)
       else if vector_delete_raises env0 then
         match victims with
         | [] => (Ok tt, cache_ab)
         | v :: _ =>
             (Raise VectorStoreError,
              {| _storage := snd (Memory.delete v (_storage cache_ab));
                 _vector_store := _vector_store cache_ab |})
         end
       else (Ok tt, without victims cache_ab).
Proof.
  split; [exact cache_ab_wf|].
  exact (@maybe_evict_outcome doubles cfg_lfu_1 env0 cache_ab cache_ab_wf).
Defined.

Lemma cache_ab_nonempty : data_of cache_ab <> [].
Proof. discriminate. Qed.

Lemma stats_aggregates_counters_witness :
  wf cache_ab /\ data_of cache_ab <> []
  /\ @stats doubles cache_ab
     = (Ok [ ("total_entries", PyInt (Z.of_nat (size cache_ab)));
             ("total_reuse_count", PyInt (total_of reuse_count cache_ab));
             ("total_context_count",
                PyInt (total_of provide_context_count cache_ab));
             ("total_references",
                PyInt (total_of reuse_count cache_ab
                       + total_of provide_context_count cache_ab));
             ("avg_reference_count",
                PyFloat (inject_Z (total_of reuse_count cache_ab
                                   + total_of provide_context_count cache_ab)
                         / inject_Z (Z.of_nat (size cache_ab))));
             ("max_reference_count",
                PyInt (largest_of total_reference_count cache_ab)) ],
        cache_ab).
Proof.
  split; [exact cache_ab_wf|]. split; [exact cache_ab_nonempty|].
  exact (@stats_aggregates_counters doubles cache_ab cache_ab_wf
           cache_ab_nonempty).
Defined.

Lemma only_save_and_clear_change_payloads_witness :
  writes_payload (@Trace.CallIncrementReuse doubles "search:a") = false
  /\ payloads (Trace.run_call cfg_lfu_1 env1
                 (@Trace.CallIncrementReuse doubles "search:a") cache_ab)
     = payloads cache_ab.
Proof.
  assert (H1 : writes_payload (@Trace.CallIncrementReuse doubles "search:a")
               = false) by reflexivity.
  split; [exact H1|].
  exact (@only_save_and_clear_change_payloads doubles cfg_lfu_1 env1
           (@Trace.CallIncrementReuse doubles "search:a") cache_ab H1).
Defined.

End DoublesMore.

(* ================================================================== *)
(** * interceptor/wrapper.py : the wrappers and the statistics *)

Module WrapperMore.

Section WithCollaborators.
Context {collab : Collaborators}.

Import Models Config Cache Wrapper.

(** [self._stats] *)
Record Stats : Type := {
  hits : Z;
  misses : Z;
  context_provided : Z
}.

(** What an interceptor does outside itself, in order: the calls of the two
    callbacks and the runs of the wrapped tool. *)
Inductive Event : Type :=
| OnCacheHit (tool_name : string) (tool_args : Args) (out : Output)
| OnCacheMiss (tool_name : string) (tool_args : Args)
| ToolRun (tool_name : string) (tool_args : Args).

(** An interceptor: its cache, its counters, and the trail of its calls to
    the callbacks and the tool. *)
Record ToolInterceptor : Type := {
  cache : ToolCache;
  _stats : Stats;
  trail : list Event
}.

(** What leaves a wrapper as an exception: an exception of the cache, the
    [AttributeError] of [decision_result.cache_hit.entry] on a decision
    without a hit, or the exception of the tool. *)
Inductive raised : Type :=
| CacheRaised (e : exn)
| AttributeError
| ToolRaised.

Inductive outcome (A : Type) : Type :=
| Returned (a : A)
| Raised (r : raised).

Arguments Returned {A} a.
Arguments Raised {A} r.

Definition IM (A : Type) : Type :=
  ToolInterceptor -> outcome A * ToolInterceptor.








(** [{**d1, **d2}]: the keys of [d2] are assigned into [d1] in order. *)
Definition merge (V : Type) (d1 d2 : PyDict.t V) : PyDict.t V :=
  fold_left (fun d kv => PyDict.set d (fst kv) (snd kv)) d2 d1.

(** The value of ["hit_rate"]. *)
Definition hit_rate (s : Stats) : Q :=
  if (0 <? hits s + misses s)%Z then
    inject_Z (hits s) / inject_Z (hits s + misses s)
  else 0.

(** The property [stats]. *)
Definition stats : IM (PyDict.t StatValue) :=
  fun it =>
    let own := [ ("hits"%string, PyInt (hits (_stats it)));
                 ("misses"%string, PyInt (misses (_stats it)));
                 ("context_provided"%string,
                    PyInt (context_provided (_stats it))) ] in
    let own := merge own
                 [ ("hit_rate"%string, PyFloat (hit_rate (_stats it))) ] in
    match Cache.stats (cache it) with
    | (Raise e, c1) =>
        (Raised (CacheRaised e),
         {| cache := c1; _stats := _stats it; trail := trail it |})
    | (Ok d, c1) =>
        (Returned (merge own d),
         {| cache := c1; _stats := _stats it; trail := trail it |})
    end.









End WithCollaborators.

Arguments Returned {A} a.
Arguments Raised {A} r.

End WrapperMore.

Module WrapperMoreFacts.

Section WithCollaborators.
Context {collab : Collaborators}.

Import Models Config Cache Wrapper CacheFacts CacheMoreFacts WrapperMore.















Lemma merge_get (V : Type) (d2 : PyDict.t V) :
  forall d1 k,
  NoDup (PyDict.keys d2) ->
  PyDict.get (merge d1 d2) k
  = match PyDict.get d2 k with
    | Some v => Some v
    | None => PyDict.get d1 k
    end.
Proof.
  induction d2 as [|[k0 v0] d2 IH]; intros d1 k Hnd; [reflexivity|].
  inversion Hnd as [|? ? Hnotin Hnd']; subst.
  change (merge d1 ((k0, v0) :: d2)) with (merge (PyDict.set d1 k0 v0) d2).
  rewrite IH by exact Hnd'. simpl.
  destruct (String.eqb k k0) eqn:E.
  - apply String.eqb_eq in E. subst k0.
    rewrite (proj2 (PyDictFacts.get_None d2 k) Hnotin).
    apply PyDictFacts.get_set_eq.
  - destruct (PyDict.get d2 k); [reflexivity|].
    apply PyDictFacts.get_set_neq. intros E'. subst k0.
    rewrite String.eqb_refl in E. discriminate.
Qed.

Lemma merge_keys (V : Type) (d2 : PyDict.t V) :
  forall d1,
  NoDup (PyDict.keys d2) ->
  (forall k, In k (PyDict.keys d2) -> ~ In k (PyDict.keys d1)) ->
  PyDict.keys (merge d1 d2) = PyDict.keys d1 ++ PyDict.keys d2.
Proof.
  induction d2 as [|[k0 v0] d2 IH]; intros d1 Hnd Hdis.
  - simpl. rewrite app_nil_r. reflexivity.
  - inversion Hnd as [|? ? Hnotin Hnd']; subst.
    change (merge d1 ((k0, v0) :: d2)) with (merge (PyDict.set d1 k0 v0) d2).
    assert (Hk0 : ~ In k0 (PyDict.keys d1))
      by (apply Hdis; left; reflexivity).
    rewrite IH; [|exact Hnd'|].
    + rewrite PyDictFacts.keys_set_absent by exact Hk0.
      rewrite <- app_assoc. reflexivity.
    + intros k Hk. rewrite PyDictFacts.keys_set_absent by exact Hk0.
      intros Hin. apply in_app_or in Hin. destruct Hin as [Hin | [<- | []]].
      * apply (Hdis k); [right; exact Hk | exact Hin].
      * apply Hnotin. exact Hk.
Qed.

Lemma stats_loop_returns l :
  forall acc c, exists acc', stats_loop l acc c = (Ok acc', c).
Proof.
  induction l as [|k l IH]; intros acc [s vs]; simpl.
  - eexists. reflexivity.
  - unfold bind, storage_call. simpl.
    destruct (PyDict.get (Memory._data s) k); [destruct acc as [[a b] m]|];
      apply IH.
Qed.

(** The keys of the dict of [ToolCache.stats]. *)
Definition cache_stats_keys (empty : bool) : list string :=
  [ "total_entries"%string; "total_reuse_count"%string;
    "total_context_count"%string; "total_references"%string;
    "avg_reference_count"%string ]
  ++ (if empty then [] else [ "max_reference_count"%string ]).

Lemma cache_stats_returns c :
  exists d,
    Cache.stats c = (Ok d, c)
    /\ PyDict.keys d
       = cache_stats_keys
           (match data_of c with [] => true | _ => false end).
Proof.
  destruct c as [[d sc] vs]. destruct d as [|[k0 v0] d].
  - eexists. split; reflexivity.
  - destruct (stats_loop_returns (PyDict.keys ((k0, v0) :: d)) (0, 0, 0)%Z
                {| _storage := {| Memory._data := (k0, v0) :: d;
                                  Memory._scores := sc |};
                   _vector_store := vs |}) as [[[a1 b1] m1] Hl].
    unfold Cache.stats, bind at 1, storage_call at 1, data_of.
    unfold bind at 1. simpl in *. rewrite Hl.
    eexists. split; reflexivity.
Qed.

(** X23.  The property [stats] of an interceptor returns and changes
    nothing: the statistics of the cache never raise.  Its dict holds the
    three counters and ["hit_rate"], which is [hits / (hits + misses)] when
    a call was counted and 0 otherwise, followed by the keys of the
    statistics of the cache, each with the value the cache reports: no key
    of the cache replaces a counter. *)
Theorem interceptor_stats_merges it :
  exists d_cache d,
    Cache.stats (cache it) = (Ok d_cache, cache it)
    /\ stats it = (Returned d, it)
    /\ PyDict.keys d
       = [ "hits"%string; "misses"%string; "context_provided"%string;
           "hit_rate"%string ] ++ PyDict.keys d_cache
    /\ PyDict.get d "hits" = Some (PyInt (hits (_stats it)))
    /\ PyDict.get d "misses" = Some (PyInt (misses (_stats it)))
    /\ PyDict.get d "context_provided"
       = Some (PyInt (context_provided (_stats it)))
    /\ PyDict.get d "hit_rate"
       = Some (PyFloat
                 (if (0 <? hits (_stats it) + misses (_stats it))%Z then
                    inject_Z (hits (_stats it))
                    / inject_Z (hits (_stats it) + misses (_stats it))
                  else 0))
    /\ (forall k v, PyDict.get d_cache k = Some v -> PyDict.get d k = Some v).
Proof.
  destruct it as [c s tr]. simpl.
  destruct (cache_stats_returns c) as [dc [Hdc Hkeys]].
  set (own := [ ("hits"%string, PyInt (hits s));
                ("misses"%string, PyInt (misses s));
                ("context_provided"%string, PyInt (context_provided s));
                ("hit_rate"%string, PyFloat (hit_rate s)) ]).
  exists dc, (merge own dc).
  assert (Hnd : NoDup (PyDict.keys dc)).
  { rewrite Hkeys. unfold cache_stats_keys.
    destruct (data_of c); simpl;
      repeat (constructor; [simpl; intuition discriminate|]); constructor. }
  assert (Hfresh : forall k, In k (PyDict.keys own) ->
                     PyDict.get dc k = None).
  { intros k Hk. apply PyDictFacts.get_None. rewrite Hkeys.
    unfold cache_stats_keys. simpl in Hk.
    destruct (data_of c); simpl; intuition (subst; discriminate). }
  split; [exact Hdc|]. split.
  { unfold stats. simpl. rewrite Hdc. reflexivity. }
  split.
  { rewrite merge_keys; [reflexivity | exact Hnd |].
    intros k Hk Hin. apply Hfresh in Hin.
    apply PyDictFacts.get_None in Hin. contradiction. }
  split; [rewrite merge_get, Hfresh by (try exact Hnd; simpl; tauto);
          reflexivity|].
  split; [rewrite merge_get, Hfresh by (try exact Hnd; simpl; tauto);
          reflexivity|].
  split; [rewrite merge_get, Hfresh by (try exact Hnd; simpl; tauto);
          reflexivity|].
  split; [rewrite merge_get, Hfresh by (try exact Hnd; simpl; tauto);
          reflexivity|].
  intros k v Hk. rewrite merge_get by exact Hnd. rewrite Hk. reflexivity.
Qed.



Lemma increment_raises_value_error cfg env i c x c1 :
  (increment_reuse cfg env i c = (Raise x, c1) -> x = ValueError)
  /\ (increment_context cfg env i c = (Raise x, c1) -> x = ValueError).
Proof.
  split.
  - unfold increment_reuse, bind, storage_call, _compute_entry_score.
    destruct (Memory.increment_reuse (now env) i (_storage c)) as [[|] s1];
      simpl; [|discriminate].
    destruct (PyDict.get (Memory._data s1) i); [|discriminate].
    destruct (Scoring.compute_weighted_score _ _ _ _ _ _ _); simpl.
    + destruct (Memory.update_score _ _ _); discriminate.
    + unfold raise. intros H. injection H as <- _. reflexivity.
  - unfold increment_context, bind, storage_call, _compute_entry_score.
    destruct (Memory.increment_context (now env) i (_storage c)) as [[|] s1];
      simpl; [|discriminate].
    destruct (PyDict.get (Memory._data s1) i); [|discriminate].
    destruct (Scoring.compute_weighted_score _ _ _ _ _ _ _); simpl.
    + destruct (Memory.update_score _ _ _); discriminate.
    + unfold raise. intros H. injection H as <- _. reflexivity.
Qed.

Lemma context_loop_raises_value_error cfg env (l : list CacheHit) :
  forall c x c1,
  for_each l
    (fun hit => bind (increment_context cfg env (id (entry hit)))
                  (fun _ => ret tt)) c = (Raise x, c1) ->
  x = ValueError.
Proof.
  induction l as [|h l IH]; intros c x c1; simpl; [discriminate|].
  unfold bind at 1. unfold bind at 1.
  destruct (increment_context cfg env (id (entry h)) c) as [[b|y] c2] eqn:Hi.
  - unfold ret at 1. apply IH.
  - intros H. injection H as <- _.
    apply (proj2 (increment_raises_value_error cfg env (id (entry h)) c y c2)).
    exact Hi.
Qed.

Lemma decide_raises_value_error icfg ccfg env tool args c :
  match decide icfg ccfg env tool args c with
  | (Ok _, _) => True
  | (Raise x, _) => x = ValueError
  end.
Proof.
  destruct (decide icfg ccfg env tool args c) as [[r|x] c1] eqn:Hd;
    [exact I|].
  rewrite decide_unfold in Hd.
  pose proof (search_outcome ccfg env tool args None c) as Hout.
  destruct (search ccfg env tool args None c) as [[found|y] c0].
  - unfold decide_hits in Hd. destruct found as [|best rest];
      [discriminate|].
    destruct (Qle_bool (reuse_threshold icfg) (similarity best)).
    + unfold bind in Hd.
      destruct (increment_reuse ccfg env (id (entry best)) c0)
        as [[b|y] c2] eqn:Hi; [discriminate|].
      injection Hd as <- _.
      apply (proj1 (increment_raises_value_error ccfg env
                      (id (entry best)) c0 y c2)).
      exact Hi.
    + destruct (Qle_bool (similarity_threshold icfg) (similarity best));
        [|discriminate].
      destruct (filter _ _) as [|good others]; [discriminate|].
      unfold bind in Hd.
      destruct (for_each _ _ c0) as [[u|y] c2] eqn:Hl; [discriminate|].
      injection Hd as <- _.
      eapply context_loop_raises_value_error. exact Hl.
  - injection Hd as <- _. apply Hout.
Qed.


(** X27.  An interceptor that decides with the configuration of its
    cache, as [ToolInterceptor(config=...)] builds it, ignores no
    successful entry: it answers EXECUTE only when no stored match of the
    call has [success] set, and REUSE only with a hit whose similarity also
    reaches [similarity_threshold].  The last [return] of [decide] is
    reached by the lack of successful hits alone, since a hit of [search]
    is never below [similarity_threshold]. *)
Theorem decide_with_cache_config_ignores_no_success cfg env tool args c :
  match decide cfg cfg env tool args c with
  | (Ok r, _) =>
      match decision r with
      | EXECUTE =>
          forall h,
            is_match cfg env c (candidates cfg tool args None c) h ->
            success (entry h) = false
      | PROVIDE_CONTEXT =>
          exists h,
            is_match cfg env c (candidates cfg tool args None c) h
            /\ success (entry h) = true
      | REUSE =>
          exists best,
            cache_hit r = Some best
            /\ (similarity_threshold cfg <= similarity best)%Q
            /\ (reuse_threshold cfg <= similarity best)%Q
      end
  | (Raise x, _) => x = ValueError
  end.
Proof.
  destruct (decide cfg cfg env tool args c) as [[r|x] c1] eqn:Hd.
  - rewrite decide_unfold in Hd.
    pose proof (search_outcome cfg env tool args None c) as Hout.
    destruct (search cfg env tool args None c) as [[found|y] c0];
      [|discriminate].
    destruct Hout as [_ [Hh _]].
    unfold decide_hits in Hd. destruct found as [|best rest].
    + injection Hd as <- _. simpl. intros h Hm. apply Hh in Hm.
      destruct Hm.
    + assert (Hbest : (similarity_threshold cfg <= similarity best)%Q).
      { destruct (proj1 (Hh best) (or_introl eq_refl))
          as [key [dist [_ [_ [_ [Hle _]]]]]]. exact Hle. }
      destruct (Qle_bool (reuse_threshold cfg) (similarity best)) eqn:Hre.
      * unfold bind in Hd.
        destruct (increment_reuse cfg env (id (entry best)) c0)
          as [[b|y] c2]; [|discriminate].
        injection Hd as <- _. simpl. exists best.
        split; [reflexivity|]. split; [exact Hbest|].
        apply Qle_bool_iff. exact Hre.
      * rewrite (proj2 (Qle_bool_iff _ _) Hbest) in Hd.
        destruct (filter (fun h => success (entry h)) (best :: rest))
          as [|good others] eqn:Hf.
        -- injection Hd as <- _. simpl. intros h Hm. apply Hh in Hm.
           destruct (success (entry h)) eqn:Hok; [|reflexivity].
           assert (Hin : In h (filter (fun h => success (entry h))
                                 (best :: rest)))
             by (apply filter_In; split; assumption).
           rewrite Hf in Hin. destruct Hin.
        -- unfold bind in Hd.
           destruct (for_each _ _ c0) as [[u|y] c2]; [|discriminate].
           injection Hd as <- _. simpl. exists good.
           assert (Hin : In good (filter (fun h => success (entry h))
                                    (best :: rest)))
             by (rewrite Hf; left; reflexivity).
           apply filter_In in Hin. destruct Hin as [Hin Hok].
           split; [apply Hh; exact Hin | exact Hok].
  - pose proof (decide_raises_value_error cfg cfg env tool args c)
      as H.
    rewrite Hd in H. exact H.
Qed.

End WithCollaborators.

End WrapperMoreFacts.

(* ================================================================== *)
(** * core/utils.py : the shape of a cache id *)

Module CacheIdFacts.

Section WithCollaborators.
Context {collab : Collaborators}.

Import Utils.

Lemma substring_0_length n s :
  String.length (String.substring 0 n s) = Nat.min n (String.length s).
Proof.
  revert s. induction n as [|n IH]; intros [|a s]; simpl; try reflexivity.
  rewrite IH. reflexivity.
Qed.

Lemma substring_0_prefix n s :
  String.prefix (String.substring 0 n s) s = true.
Proof.
  revert s. induction n as [|n IH]; intros [|a s]; simpl; try reflexivity.
  destruct (Ascii.ascii_dec a a) as [_ | Hne]; [apply IH | contradiction].
Qed.

Lemma append_assoc (a b c : string) :
  ((a ++ b) ++ c = a ++ (b ++ c))%string.
Proof.
  induction a as [|x a IH]; simpl; [reflexivity|]. rewrite IH. reflexivity.
Qed.

(** X25.  The id that [generate_cache_id] returns is the digest of
    [tool_name + ":" + input_text] cut after 16 characters: it is a prefix
    of that digest, of the length of the digest when the digest is
    shorter.  The id depends on the tool name and the input through their
    concatenation only: moving a part before a colon from the input to the
    tool name gives the same id. *)
Theorem cache_id_is_truncated_digest (tool_name input_text : string) :
  let digest := sha256_hexdigest (tool_name ++ ":" ++ input_text)%string in
  String.length (generate_cache_id tool_name input_text)
  = Nat.min 16 (String.length digest)
  /\ String.prefix (generate_cache_id tool_name input_text) digest = true
  /\ forall a b : string,
       generate_cache_id (tool_name ++ ":" ++ a)%string b
       = generate_cache_id tool_name (a ++ ":" ++ b)%string.
Proof.
  cbv zeta. unfold generate_cache_id. split; [|split].
  - apply substring_0_length.
  - apply substring_0_prefix.
  - intros a b. rewrite !append_assoc. reflexivity.
Qed.

End WithCollaborators.

End CacheIdFacts.

(* ================================================================== *)
(** * core/storage/memory.py : writes read back *)

Module BackendRoundTrips.

Section WithCollaborators.
Context {collab : Collaborators}.

Import Models Memory.

Lemma length_pop_absent (V : Type) (d : PyDict.t V) k :
  ~ In k (PyDict.keys d) -> List.length (PyDict.pop d k) = List.length d.
Proof.
  intros Hn. induction d as [|[k0 v0] d IH]; simpl; [reflexivity|].
  simpl in Hn. destruct (String.eqb k k0) eqn:E; simpl.
  - apply String.eqb_eq in E. subst k0. exfalso. apply Hn. left. reflexivity.
  - f_equal. apply IH. intros H. apply Hn. right. exact H.
Qed.

(** X26.  Writes of the backend read back.  On a backend whose two dicts
    hold the same distinct keys: after [set(key, value, score)], [get],
    [get_score] and [exists] answer the value, the score and [True] for
    the key, and the size has grown by one exactly when the key was new;
    after [delete(key)], which answers whether the key existed, they
    answer [None], [None] and [False], and the size has shrunk by one
    exactly when the key existed; [update_score] answers whether the key
    exists, writes the score only then, and never touches an entry.  In
    all three cases every other key reads as before. *)
Theorem backend_round_trips key other value sc s :
  MemoryFacts.wf s -> other <> key ->
  let after_set := snd (set key value sc s) in
  let after_delete := snd (delete key s) in
  let after_update := snd (update_score key sc s) in
  (fst (get key after_set) = Some value
   /\ fst (get_score key after_set) = Some sc
   /\ fst (exists_ key after_set) = true
   /\ fst (get other after_set) = fst (get other s)
   /\ fst (get_score other after_set) = fst (get_score other s)
   /\ fst (size after_set)
      = if fst (exists_ key s) then fst (size s) else S (fst (size s)))
  /\ (fst (delete key s) = fst (exists_ key s)
      /\ fst (get key after_delete) = None
      /\ fst (get_score key after_delete) = None
      /\ fst (exists_ key after_delete) = false
      /\ fst (get other after_delete) = fst (get other s)
      /\ fst (get_score other after_delete) = fst (get_score other s)
      /\ fst (size s)
         = if fst (exists_ key s) then S (fst (size after_delete))
           else fst (size after_delete))
  /\ (fst (update_score key sc s) = fst (exists_ key s)
      /\ fst (get_score key after_update)
         = (if fst (exists_ key s) then Some sc else None)
      /\ fst (get_score other after_update) = fst (get_score other s)
      /\ _data after_update = _data s).
Proof.
  intros [Hnd Hkeys] Hne. cbv zeta.
  assert (Hne' : key <> other) by (intros E; apply Hne; symmetry; exact E).
  split; [|split].
  - simpl. split; [apply PyDictFacts.get_set_eq|].
    split; [apply PyDictFacts.get_set_eq|].
    split; [unfold PyDict.contains; rewrite PyDictFacts.get_set_eq;
            reflexivity|].
    split; [apply PyDictFacts.get_set_neq; exact Hne'|].
    split; [apply PyDictFacts.get_set_neq; exact Hne'|].
    destruct (PyDict.contains (_data s) key) eqn:Hc.
    + apply PyDictFacts.length_set_present.
      exact (proj1 (PyDictFacts.contains_true _ _) Hc).
    + apply PyDictFacts.length_set_absent.
      apply (proj1 (PyDictFacts.get_None _ _)).
      exact (proj1 (PyDictFacts.contains_false _ _) Hc).
  - simpl. split; [reflexivity|].
    split; [apply PyDictFacts.get_pop_eq|].
    split; [apply PyDictFacts.get_pop_eq|].
    split; [unfold PyDict.contains; rewrite PyDictFacts.get_pop_eq;
            reflexivity|].
    split; [apply PyDictFacts.get_pop_neq; exact Hne'|].
    split; [apply PyDictFacts.get_pop_neq; exact Hne'|].
    destruct (PyDict.contains (_data s) key) eqn:Hc.
    + symmetry. apply PyDictFacts.length_pop; [exact Hnd|].
      exact (proj1 (PyDictFacts.contains_true _ _) Hc).
    + symmetry. apply length_pop_absent.
      apply (proj1 (PyDictFacts.get_None _ _)).
      exact (proj1 (PyDictFacts.contains_false _ _) Hc).
  - unfold update_score, exists_, get_score. cbn [fst snd].
    destruct (PyDict.contains (_data s) key) eqn:Hc; simpl.
    + split; [reflexivity|]. split; [apply PyDictFacts.get_set_eq|].
      split; [apply PyDictFacts.get_set_neq; exact Hne' | reflexivity].
    + split; [reflexivity|]. split; [|split; reflexivity].
      apply (proj2 (PyDictFacts.get_None _ _)). rewrite Hkeys.
      apply (proj1 (PyDictFacts.get_None _ _)).
      exact (proj1 (PyDictFacts.contains_false _ _) Hc).
Qed.

End WithCollaborators.

End BackendRoundTrips.

Module DoublesRoundTrips.

Import Models Doubles DoublesMore.

Local Open Scope string_scope.

Lemma backend_round_trips_witness :
  MemoryFacts.wf backend_ab /\ "search:bb" <> "search:a"
  /\ (fst (Memory.get "search:a"
             (snd (Memory.set "search:a" entry_bb 3%R backend_ab)))
      = Some entry_bb
      /\ fst (Memory.get_score "search:a"
                (snd (Memory.set "search:a" entry_bb 3%R backend_ab)))
         = Some 3%R
      /\ fst (Memory.exists_ "search:a"
                (snd (Memory.set "search:a" entry_bb 3%R backend_ab)))
         = true
      /\ fst (Memory.get "search:bb"
                (snd (Memory.set "search:a" entry_bb 3%R backend_ab)))
         = fst (Memory.get "search:bb" backend_ab)
      /\ fst (Memory.get_score "search:bb"
                (snd (Memory.set "search:a" entry_bb 3%R backend_ab)))
         = fst (Memory.get_score "search:bb" backend_ab)
      /\ fst (Memory.size
                (snd (Memory.set "search:a" entry_bb 3%R backend_ab)))
         = if fst (Memory.exists_ "search:a" backend_ab)
           then fst (Memory.size backend_ab)
           else S (fst (Memory.size backend_ab)))
  /\ (fst (Memory.delete "search:a" backend_ab)
      = fst (Memory.exists_ "search:a" backend_ab)
      /\ fst (Memory.get "search:a"
                (snd (Memory.delete "search:a" backend_ab))) = None
      /\ fst (Memory.get_score "search:a"
                (snd (Memory.delete "search:a" backend_ab))) = None
      /\ fst (Memory.exists_ "search:a"
                (snd (Memory.delete "search:a" backend_ab))) = false
      /\ fst (Memory.get "search:bb"
                (snd (Memory.delete "search:a" backend_ab)))
         = fst (Memory.get "search:bb" backend_ab)
      /\ fst (Memory.get_score "search:bb"
                (snd (Memory.delete "search:a" backend_ab)))
         = fst (Memory.get_score "search:bb" backend_ab)
      /\ fst (Memory.size backend_ab)
         = if fst (Memory.exists_ "search:a" backend_ab)
           then S (fst (Memory.size
                          (snd (Memory.delete "search:a" backend_ab))))
           else fst (Memory.size
                       (snd (Memory.delete "search:a" backend_ab))))
  /\ (fst (Memory.update_score "search:a" 3%R backend_ab)
      = fst (Memory.exists_ "search:a" backend_ab)
      /\ fst (Memory.get_score "search:a"
                (snd (Memory.update_score "search:a" 3%R backend_ab)))
         = (if fst (Memory.exists_ "search:a" backend_ab)
            then Some 3%R else None)
      /\ fst (Memory.get_score "search:bb"
                (snd (Memory.update_score "search:a" 3%R backend_ab)))
         = fst (Memory.get_score "search:bb" backend_ab)
      /\ Memory._data (snd (Memory.update_score "search:a" 3%R backend_ab))
         = Memory._data backend_ab).
Proof.
  assert (H : "search:bb" <> "search:a") by discriminate.
  split; [exact backend_ab_wf|]. split; [exact H|].
  exact (@BackendRoundTrips.backend_round_trips doubles "search:a"
           "search:bb" entry_bb 3%R backend_ab backend_ab_wf H).
Defined.

End DoublesRoundTrips.
